(** * Verification of the virtual-DOM core of mini-framework

    Shallow embedding of [src/src/core/virtual-dom.js] (class [VirtualDOM])
    and of the parts of [src/src/core/event-system.js] (class [EventSystem])
    that the reconciler uses.

    - [Builder]: [VirtualDOM.createElement] and [flattenChildren], over a
      small universe of JavaScript values.
    - [VDom]: the reconciler over typed tree descriptions ([vnode]) and a
      live tree ([dom]) whose nodes carry identities; the global maps of
      [VirtualDOM] and [EventSystem] are threaded as an explicit state
      record that also records every host-tree mutation in a log.
    - [Dispatch]: [EventSystem.handleDirectEvents] with handlers that may
      throw.
    - [ES]: the registration API of [EventSystem] ([on], [off],
      [onGlobal], [offGlobal], [delegate], [subscribe], [cleanup]) and
      [handleDelegatedEvents], whose callbacks may change the state.
    - [ESFacts] and [VDomMore]: properties of these functions and of
      [cleanupElement] and the two child reconciliation paths. *)

From Stdlib Require Import List String Ascii ZArith Bool Arith Lia.
Import ListNotations.
Open Scope string_scope.
Open Scope list_scope.
Set Warnings "-register-all".

(** ** Shared helpers: association lists with string keys (JS objects and
    [Map]s with string keys, insertion ordered). *)

Fixpoint aget {V} (k : string) (l : list (string * V)) : option V :=
  match l with
  | [] => None
  | (k', v) :: l' => if String.eqb k k' then Some v else aget k l'
  end.

Fixpoint aset {V} (k : string) (v : V) (l : list (string * V)) : list (string * V) :=
  match l with
  | [] => [(k, v)]
  | (k', v') :: l' => if String.eqb k k' then (k, v) :: l' else (k', v') :: aset k v l'
  end.

Definition adel {V} (k : string) (l : list (string * V)) : list (string * V) :=
  filter (fun p => negb (String.eqb k (fst p))) l.

Definition ahas {V} (k : string) (l : list (string * V)) : bool :=
  match aget k l with Some _ => true | None => false end.

(** Decimal rendering of an integer, as [String(n)] does. *)
Fixpoint digits_of (fuel : nat) (n : Z) (acc : string) : string :=
  match fuel with
  | O => acc
  | S f =>
      let acc' := String (ascii_of_nat (48 + Z.to_nat (n mod 10))) acc in
      if (n <? 10)%Z then acc' else digits_of f (n / 10)%Z acc'
  end.

Definition Z_to_string (z : Z) : string :=
  match z with
  | Z0 => "0"
  | Zpos p => digits_of (Pos.size_nat p) (Zpos p) ""
  | Zneg p => "-" ++ digits_of (Pos.size_nat p) (Zpos p) ""
  end.

(** * The tree-description builder *)
Module Builder.

(** The JavaScript values [createElement] can receive.  [JText] is the
    object literal [{ type: 'text', value }] and [JVNode] an instance of
    class [VNode] ([tag], [props], [key], [children]; the [element] slot is
    [null] at construction). *)
Inductive jsval :=
| JUndef
| JNull
| JBool (b : bool)
| JNum (z : Z)
| JStr (s : string)
| JFun (f : nat)
| JObj (fields : list (string * jsval))
| JArr (xs : list jsval)
| JText (value : string)
| JVNode (tag : jsval) (props : jsval) (key : jsval) (children : list jsval).

Definition truthy (v : jsval) : bool :=
  match v with
  | JUndef | JNull => false
  | JBool b => b
  | JNum z => negb (Z.eqb z 0)
  | JStr s => negb (String.eqb s "")
  | _ => true
  end.

(** Property read [o[k]]; [None] is the [TypeError] of reading a property
    of [null] or [undefined]. *)
Definition js_get (o : jsval) (k : string) : option jsval :=
  match o with
  | JUndef | JNull => None
  | JObj fs => Some (match aget k fs with Some v => v | None => JUndef end)
  | _ => Some JUndef
  end.

(** [flattenChildren(children)]: the loop body for one [child] (arrays
    are flattened by the recursive call, [null], [undefined] and [false]
    are skipped, anything else is pushed), and the loop over [children]. *)
Fixpoint flatten_child (child : jsval) : list jsval :=
  match child with
  | JArr xs => List.concat (map flatten_child xs)
  | JNull | JUndef | JBool false => []
  | _ => [child]
  end.

Definition flattenChildren (children : list jsval) : list jsval :=
  List.concat (map flatten_child children).

(** The [.map(...)] of [createElement]: strings and numbers become text
    objects. *)
Definition coerce_child (child : jsval) : jsval :=
  match child with
  | JStr s => JText s
  | JNum z => JText (Z_to_string z)
  | _ => child
  end.

(** [createElement(tag, props = {}, ...children)], given its [arguments]. *)
Definition createElement (arguments : list jsval) : option jsval :=
  match arguments with
  | [JStr s] => Some (JText s)
  | _ =>
      let tag := nth 0 arguments JUndef in
      let props := match nth_error arguments 1 with
                   | None | Some JUndef => JObj []
                   | Some p => p
                   end in
      let processedChildren := map coerce_child (flattenChildren (skipn 2 arguments)) in
      (* new VNode(tag, props, processedChildren): this.key = props.key || null *)
      match js_get props "key" with
      | None => None
      | Some k => Some (JVNode tag props (if truthy k then k else JNull) processedChildren)
      end
  end.

(** The spec's reading of child normalisation: flatten one level at a time
    until no sequence is left, then drop [null], [undefined] and [false]. *)
Definition flat1 (cs : list jsval) : list jsval :=
  List.concat (map (fun c => match c with JArr xs => xs | _ => [c] end) cs).

Fixpoint nesting (v : jsval) : nat :=
  match v with
  | JArr xs => S (fold_right (fun x m => Nat.max (nesting x) m) 0 xs)
  | _ => 0
  end.

Definition list_nesting (cs : list jsval) : nat :=
  fold_right (fun x m => Nat.max (nesting x) m) 0 cs.

Definition renders (c : jsval) : bool :=
  match c with JNull | JUndef | JBool false => false | _ => true end.

Definition spec_flatten (cs : list jsval) : list jsval :=
  filter renders (Nat.iter (list_nesting cs) flat1 cs).

(** Leaves of a (possibly nested) child, in order. *)
Fixpoint leaves_of (c : jsval) : list jsval :=
  match c with
  | JArr xs => List.concat (map leaves_of xs)
  | _ => [c]
  end.

Definition leaves (cs : list jsval) : list jsval := List.concat (map leaves_of cs).

End Builder.

(** * The reconciler *)
Module VDom.

(** ** Values and tree descriptions *)

(** Attribute values: primitives, [NaN], function references and objects
    (style mappings), each function and object with its identity. *)
Inductive pval :=
| PUndef
| PNull
| PBool (b : bool)
| PNum (z : Z)
| PNaN
| PStr (s : string)
| PFun (f : nat)
| PObj (o : nat) (fields : list (string * string)).

(** [a === b] *)
Definition strict_eq (a b : pval) : bool :=
  match a, b with
  | PUndef, PUndef | PNull, PNull => true
  | PBool x, PBool y => Bool.eqb x y
  | PNum x, PNum y => Z.eqb x y
  | PStr x, PStr y => String.eqb x y
  | PFun f, PFun g => Nat.eqb f g
  | PObj o _, PObj p _ => Nat.eqb o p
  | _, _ => false
  end.

Definition truthy (v : pval) : bool :=
  match v with
  | PUndef | PNull | PNaN => false
  | PBool b => b
  | PNum z => negb (Z.eqb z 0)
  | PStr s => negb (String.eqb s "")
  | PFun _ | PObj _ _ => true
  end.

(** [typeof v === 'function'], [=== 'object'], [=== 'boolean'] *)
Definition is_function (v : pval) : bool := match v with PFun _ => true | _ => false end.
Definition is_object (v : pval) : bool :=
  match v with PObj _ _ | PNull => true | _ => false end.
Definition is_boolean (v : pval) : bool := match v with PBool _ => true | _ => false end.
Definition fun_id (v : pval) : nat := match v with PFun f => f | _ => 0 end.
Definition obj_fields (v : pval) : list (string * string) :=
  match v with PObj _ fs => fs | _ => [] end.

(** [String(v)], as [setAttribute] stores it; a function is rendered as
    its source text in JavaScript, written ["function"] here. *)
Definition to_attr_string (v : pval) : string :=
  match v with
  | PUndef => "undefined"
  | PNull => "null"
  | PBool true => "true"
  | PBool false => "false"
  | PNum z => Z_to_string z
  | PNaN => "NaN"
  | PStr s => s
  | PFun _ => "function"
  | PObj _ _ => "[object Object]"
  end.

(** Tree descriptions: a text object [{ type: 'text', value }] or a
    [VNode] instance with its object identity [oid]. *)
Inductive vnode :=
| VText (value : string)
| VElem (oid : nat) (tag : string) (props : list (string * pval)) (children : list vnode).

(** [node.key]: [props.key || null] for a [VNode], [undefined] for a text
    object; both absent values are [None] (they are only compared once the
    [type] fields agree). *)
Definition vkey (v : vnode) : option pval :=
  match v with
  | VText _ => None
  | VElem _ _ p _ =>
      match aget "key" p with
      | Some k => if truthy k then Some k else None
      | None => None
      end
  end.

Definition vtype (v : vnode) : option string :=
  match v with VText _ => Some "text" | VElem _ _ _ _ => None end.
Definition vtag (v : vnode) : option string :=
  match v with VText _ => None | VElem _ t _ _ => Some t end.
Definition vvalue (v : vnode) : option string :=
  match v with VText s => Some s | VElem _ _ _ _ => None end.
Definition vprops (v : vnode) : list (string * pval) :=
  match v with VText _ => [] | VElem _ _ p _ => p end.
Definition vchildren (v : vnode) : list vnode :=
  match v with VText _ => [] | VElem _ _ _ ch => ch end.

Definition opt_str_eqb (a b : option string) : bool :=
  match a, b with
  | None, None => true
  | Some x, Some y => String.eqb x y
  | _, _ => false
  end.

Definition key_eqb (a b : option pval) : bool :=
  match a, b with
  | None, None => true
  | Some x, Some y => strict_eq x y
  | _, _ => false
  end.

(** [oldChild !== newChild] is object identity. *)
Definition same_object (a b : vnode) : bool :=
  match a, b with
  | VElem o1 _ _ _, VElem o2 _ _ _ => Nat.eqb o1 o2
  | _, _ => false
  end.

(** [hasNodeChanged(node1, node2)]: the [typeof] tests are false for two
    description objects. *)
Definition hasNodeChanged (node1 node2 : vnode) : bool :=
  negb (opt_str_eqb (vtype node1) (vtype node2))
  || negb (opt_str_eqb (vtag node1) (vtag node2))
  || negb (key_eqb (vkey node1) (vkey node2)).

Fixpoint vdepth (v : vnode) : nat :=
  match v with
  | VText _ => 0
  | VElem _ _ _ ch => S (list_max (map vdepth ch))
  end.

(** ** The live tree *)

Record eattrs := mkEa {
  attrs : list (string * string);     (* DOM attributes *)
  dprops : list (string * pval);      (* live object properties *)
  style : list (string * string)      (* element.style *)
}.

Definition empty_ea : eattrs := mkEa [] [] [].

(** A live node: a text node or an element, with its identity. *)
Inductive dom :=
| DText (id : nat) (text : string)
| DElem (id : nat) (tag : string) (ea : eattrs) (kids : list dom).

Definition dom_id (d : dom) : nat := match d with DText i _ => i | DElem i _ _ _ => i end.
(** [node.nodeType === 1] *)
Definition is_elem (d : dom) : bool := match d with DElem _ _ _ _ => true | _ => false end.
(** [node.getAttribute(name)] *)
Definition attr_of (d : dom) (name : string) : option string :=
  match d with DElem _ _ ea _ => aget name (attrs ea) | DText _ _ => None end.

(** Host-tree effects, in the order they happen. *)
Inductive mutation :=
| MCreateElement (id : nat) (tag : string)
| MCreateText (id : nat) (text : string)
| MSetAttribute (id : nat) (name value : string)
| MRemoveAttribute (id : nat) (name : string)
| MSetProperty (id : nat) (name : string) (value : pval)
| MAssignStyle (id : nat) (fields : list (string * string))
| MClearStyle (id : nat)
| MSetTextContent (id : nat) (text : string)
| MAppendChild (parent child : nat)
| MInsertBefore (parent child : nat) (ref : option nat)
| MRemoveChild (parent child : nat)
| MReplaceChild (parent newchild oldchild : nat)
| MClearChildren (parent : nat)
| MListen (id : nat) (type : string) (handler : nat)
| MUnlisten (id : nat) (type : string) (handler : nat)
| MUnlistenAll (id : nat).

(** Calls of [cleanupElement] and of unmount hooks. *)
Inductive tevent :=
| TCleanup (id : nat)
| TUnmount (id : nat) (hook : nat).

(** Maps keyed by a live node or a mount point ([Map] keyed by objects). *)
Fixpoint nget {V} (k : nat) (l : list (nat * V)) : option V :=
  match l with
  | [] => None
  | (k', v) :: l' => if Nat.eqb k k' then Some v else nget k l'
  end.

Fixpoint nset {V} (k : nat) (v : V) (l : list (nat * V)) : list (nat * V) :=
  match l with
  | [] => [(k, v)]
  | (k', v') :: l' => if Nat.eqb k k' then (k, v) :: l' else (k', v') :: nset k v l'
  end.

Definition ndel {V} (k : nat) (l : list (nat * V)) : list (nat * V) :=
  filter (fun p => negb (Nat.eqb k (fst p))) l.

(** Maps keyed by reconciliation keys ([oldKeyMap], [oldDomMap]). *)
Fixpoint kget {V} (k : pval) (l : list (pval * V)) : option V :=
  match l with
  | [] => None
  | (k', v) :: l' => if strict_eq k k' then Some v else kget k l'
  end.

Fixpoint kset {V} (k : pval) (v : V) (l : list (pval * V)) : list (pval * V) :=
  match l with
  | [] => [(k, v)]
  | (k', v') :: l' => if strict_eq k k' then (k', v) :: l' else (k', v') :: kset k v l'
  end.

Definition khas {V} (k : pval) (l : list (pval * V)) : bool :=
  match kget k l with Some _ => true | None => false end.

(** The state of [VirtualDOM] and of its [EventSystem]. *)
Record vstate := mkSt {
  next_id : nat;                                   (* next fresh host node *)
  has_es : bool;                                   (* this.eventSystem is set *)
  handlers : list (nat * list (string * list nat));  (* EventSystem.eventHandlers *)
  tracked : list (nat * list (string * nat));       (* elementEventHandlers *)
  native : list (nat * list (string * nat));        (* addEventListener fallback *)
  hooks : list (nat * (pval * pval));               (* lifecycleHooks: onMount, onUnmount *)
  trees : list (nat * vnode);                        (* containerTrees *)
  log : list mutation;
  trace : list tevent
}.

Definition emit (m : mutation) (st : vstate) : vstate :=
  {| next_id := next_id st; has_es := has_es st; handlers := handlers st;
     tracked := tracked st; native := native st; hooks := hooks st;
     trees := trees st; log := log st ++ [m]; trace := trace st |}.
Definition note (e : tevent) (st : vstate) : vstate :=
  {| next_id := next_id st; has_es := has_es st; handlers := handlers st;
     tracked := tracked st; native := native st; hooks := hooks st;
     trees := trees st; log := log st; trace := trace st ++ [e] |}.
Definition bump (st : vstate) : vstate :=
  {| next_id := S (next_id st); has_es := has_es st; handlers := handlers st;
     tracked := tracked st; native := native st; hooks := hooks st;
     trees := trees st; log := log st; trace := trace st |}.
Definition set_handlers h (st : vstate) : vstate :=
  {| next_id := next_id st; has_es := has_es st; handlers := h;
     tracked := tracked st; native := native st; hooks := hooks st;
     trees := trees st; log := log st; trace := trace st |}.
Definition set_tracked t (st : vstate) : vstate :=
  {| next_id := next_id st; has_es := has_es st; handlers := handlers st;
     tracked := t; native := native st; hooks := hooks st;
     trees := trees st; log := log st; trace := trace st |}.
Definition set_native n (st : vstate) : vstate :=
  {| next_id := next_id st; has_es := has_es st; handlers := handlers st;
     tracked := tracked st; native := n; hooks := hooks st;
     trees := trees st; log := log st; trace := trace st |}.
Definition set_hooks hk (st : vstate) : vstate :=
  {| next_id := next_id st; has_es := has_es st; handlers := handlers st;
     tracked := tracked st; native := native st; hooks := hk;
     trees := trees st; log := log st; trace := trace st |}.
Definition set_trees tr (st : vstate) : vstate :=
  {| next_id := next_id st; has_es := has_es st; handlers := handlers st;
     tracked := tracked st; native := native st; hooks := hooks st;
     trees := tr; log := log st; trace := trace st |}.

(** ** [EventSystem.on] and [EventSystem.off] on [eventHandlers] *)

Definition hmap := list (nat * list (string * list nat)).

Fixpoint remove_first (h : nat) (l : list nat) : list nat :=
  match l with
  | [] => []
  | x :: l' => if Nat.eqb x h then l' else x :: remove_first h l'
  end.

(** [on(element, eventType, handler)]: creates the element and event-type
    entries if missing and pushes [handler] unless already present. *)
Definition es_on (m : hmap) (el : nat) (ty : string) (h : nat) : hmap :=
  let eh := match nget el m with Some e => e | None => [] end in
  let hs := match aget ty eh with Some l => l | None => [] end in
  let hs' := if existsb (Nat.eqb h) hs then hs else hs ++ [h] in
  nset el (aset ty hs' eh) m.

(** [off(element, eventType, handler)] with both arguments given. *)
Definition es_off (m : hmap) (el : nat) (ty : string) (h : nat) : hmap :=
  match nget el m with
  | None => m
  | Some eh =>
      match aget ty eh with
      | None => m
      | Some hs =>
          let hs' := remove_first h hs in
          match hs' with
          | [] => nset el (adel ty eh) m
          | _ => nset el (aset ty hs' eh) m
          end
      end
  end.

(** [off(element)]: [this.eventHandlers.delete(element)]. *)
Definition es_off_all (m : hmap) (el : nat) : hmap := ndel el m.

(** Handlers registered for [(element, eventType)]. *)
Definition handlers_for (m : hmap) (el : nat) (ty : string) : list nat :=
  match nget el m with
  | Some eh => match aget ty eh with Some l => l | None => [] end
  | None => []
  end.

(** ** String helpers of the attribute code *)

Definition lower_ascii (c : ascii) : ascii :=
  let n := nat_of_ascii c in
  if (Nat.leb 65 n) && (Nat.leb n 90) then ascii_of_nat (n + 32) else c.

Fixpoint lower (s : string) : string :=
  match s with
  | EmptyString => EmptyString
  | String c s' => String (lower_ascii c) (lower s')
  end.

(** [key.slice(2).toLowerCase()] *)
Definition event_type (key : string) : string := lower (substring 2 (String.length key - 2) key).

(** [key.startsWith(p)] *)
Definition starts_with (p key : string) : bool := String.prefix p key.

(** [parseFloat(s)]: leading white space is skipped, then the longest
    prefix that is a decimal literal (an optional sign, digits with an
    optional fraction part and at least one digit, then an optional
    exponent part that is taken only when it has a digit) or [Infinity]
    is read, and its value is rounded to the nearest double, ties to
    even.  Numbers of the model are integers: the result is [Some z] when
    that double is the integer [z], and [None] when it is [NaN], an
    infinity or not an integer, none of which is ever a reconciliation
    key here. *)
Fixpoint skip_ws (s : string) : string :=
  match s with
  | String c s' =>
      let n := nat_of_ascii c in
      if (Nat.eqb n 32) || ((Nat.leb 9 n) && (Nat.leb n 13))
      then skip_ws s' else s
  | EmptyString => s
  end.

Fixpoint read_digits (s : string) (acc : Z) (n : nat) : Z * nat * string :=
  match s with
  | String c s' =>
      let d := nat_of_ascii c in
      if (Nat.leb 48 d) && (Nat.leb d 57)
      then read_digits s' (acc * 10 + Z.of_nat (d - 48))%Z (S n)
      else (acc, n, s)
  | EmptyString => (acc, n, s)
  end.

(** An optional sign: [true] for [-]. *)
Definition read_sign (s : string) : bool * string :=
  match s with
  | String c r => if Nat.eqb (nat_of_ascii c) 45 then (true, r)
                  else if Nat.eqb (nat_of_ascii c) 43 then (false, r)
                  else (false, s)
  | EmptyString => (false, s)
  end.

(** [p / q] rounded to an integer, ties to even ([p >= 0], [q > 0]). *)
Definition round_div (p q : Z) : Z :=
  let n := (p / q)%Z in
  let r := (p mod q)%Z in
  if (2 * r <? q)%Z then n
  else if (q <? 2 * r)%Z then (n + 1)%Z
  else if Z.even n then n else (n + 1)%Z.

(** [p / q < 2^k] for [p, q > 0]. *)
Definition lt_pow2 (p q k : Z) : bool :=
  if (0 <=? k)%Z then (p <? q * 2 ^ k)%Z else (p * 2 ^ (- k) <? q)%Z.

(** The double nearest to [p / q] ([p, q > 0]; 53-bit significand,
    least exponent [-1074], overflow to infinity from [2^1024]), as
    [Some z] when it is the integer [z]. *)
Definition double_int (p q : Z) : option Z :=
  let k0 := (Z.log2 p - Z.log2 q)%Z in
  let k := if lt_pow2 p q k0 then (k0 - 1)%Z else k0 in
  let e := Z.max (k - 52) (-1074) in
  let n := if (0 <=? e)%Z then round_div p (q * 2 ^ e) else round_div (p * 2 ^ (- e)) q in
  if (n =? 0)%Z then Some 0%Z
  else if (1024 <=? e + Z.log2 n)%Z then None
  else if (0 <=? e)%Z then Some (n * 2 ^ e)%Z
  else if (n mod 2 ^ (- e) =? 0)%Z then Some (n / 2 ^ (- e))%Z
  else None.

Definition parseFloat (s : string) : option Z :=
  let '(neg, s2) := read_sign (skip_ws s) in
  if String.prefix "Infinity" s2 then None else
  let '(ip, ni, r1) := read_digits s2 0%Z 0 in
  let '(m, nf, r2) :=
    match r1 with
    | String c r => if Nat.eqb (nat_of_ascii c) 46 then read_digits r ip 0 else (ip, 0, r1)
    | EmptyString => (ip, 0, r1)
    end in
  if Nat.eqb (ni + nf) 0 then None else
  let ex :=
    match r2 with
    | String c r =>
        if Nat.eqb (nat_of_ascii c) 101 || Nat.eqb (nat_of_ascii c) 69 then
          let '(eneg, r') := read_sign r in
          let '(ev, ne, _) := read_digits r' 0%Z 0 in
          if Nat.eqb ne 0 then 0%Z else if eneg then (- ev)%Z else ev
        else 0%Z
    | EmptyString => 0%Z
    end in
  let d := (ex - Z.of_nat nf)%Z in
  let v :=
    if (m =? 0)%Z then Some 0%Z
    else if (309 <=? d)%Z then None
    else if (Z.log2 m + 3 * d + 1076 <? 0)%Z then Some 0%Z
    else if (0 <=? d)%Z then double_int (m * 10 ^ d) 1
    else double_int m (10 ^ (- d)) in
  match v with
  | Some z => Some (if neg then (- z)%Z else z)
  | None => None
  end.

(** ** List helpers for [childNodes] *)

Fixpoint replace_nth {A} (i : nat) (x : A) (l : list A) : list A :=
  match l, i with
  | [], _ => []
  | _ :: l', O => x :: l'
  | y :: l', S i' => y :: replace_nth i' x l'
  end.

Fixpoint insert_at {A} (i : nat) (x : A) (l : list A) : list A :=
  match l, i with
  | [], _ => [x]
  | _, O => x :: l
  | y :: l', S i' => y :: insert_at i' x l'
  end.

Fixpoint remove_nth {A} (i : nat) (l : list A) : list A :=
  match l, i with
  | [], _ => []
  | _ :: l', O => l'
  | y :: l', S i' => y :: remove_nth i' l'
  end.

Fixpoint find_by_id (i : nat) (l : list dom) : option dom :=
  match l with
  | [] => None
  | d :: l' => if Nat.eqb (dom_id d) i then Some d else find_by_id i l'
  end.

Fixpoint replace_by_id (i : nat) (x : dom) (l : list dom) : list dom :=
  match l with
  | [] => []
  | d :: l' => if Nat.eqb (dom_id d) i then x :: l' else d :: replace_by_id i x l'
  end.

Fixpoint remove_by_id (i : nat) (l : list dom) : list dom :=
  match l with
  | [] => []
  | d :: l' => if Nat.eqb (dom_id d) i then l' else d :: remove_by_id i l'
  end.

(** [parent.insertBefore(node, ref || null)] on the child list, [node]
    being already detached. *)
Fixpoint insert_before (x : dom) (ref : option nat) (l : list dom) : list dom :=
  match ref with
  | None => l ++ [x]
  | Some r =>
      match l with
      | [] => [x]
      | d :: l' => if Nat.eqb (dom_id d) r then x :: d :: l' else d :: insert_before x ref l'
      end
  end.

Fixpoint find_index {A} (f : A -> bool) (l : list A) : option nat :=
  match l with
  | [] => None
  | x :: l' => if f x then Some 0 else option_map S (find_index f l')
  end.

(** ** [VirtualDOM] *)
Section Host.

(** [key in element] for an element of the given tag: whether the host
    element exposes that name as a property. *)
Variable in_element : string -> string -> bool.

(** *** Effects on one element *)

Definition set_attribute (st : vstate) (id : nat) (ea : eattrs) (name value : string)
  : vstate * eattrs :=
  (emit (MSetAttribute id name value) st,
   mkEa (aset name value (attrs ea)) (dprops ea) (style ea)).

Definition remove_attribute (st : vstate) (id : nat) (ea : eattrs) (name : string)
  : vstate * eattrs :=
  (emit (MRemoveAttribute id name) st, mkEa (adel name (attrs ea)) (dprops ea) (style ea)).

Definition set_property (st : vstate) (id : nat) (ea : eattrs) (name : string) (v : pval)
  : vstate * eattrs :=
  (emit (MSetProperty id name v) st, mkEa (attrs ea) (aset name v (dprops ea)) (style ea)).

(** [Object.assign(element.style, value)] *)
Definition assign_style (st : vstate) (id : nat) (ea : eattrs) (v : pval) : vstate * eattrs :=
  (emit (MAssignStyle id (obj_fields v)) st,
   mkEa (attrs ea) (dprops ea)
        (fold_left (fun s f => aset (fst f) (snd f) s) (obj_fields v) (style ea))).

(** The event branch of [setProps] and of [updateProps]. *)
Definition listen (st : vstate) (el : nat) (ty : string) (h : nat) : vstate :=
  if has_es st then
    let st1 := set_handlers (es_on (handlers st) el ty h) st in
    let entries := match nget el (tracked st1) with Some l => l | None => [] end in
    emit (MListen el ty h) (set_tracked (nset el (entries ++ [(ty, h)]) (tracked st1)) st1)
  else
    let ls := match nget el (native st) with Some l => l | None => [] end in
    let ls' := if existsb (fun p => String.eqb (fst p) ty && Nat.eqb (snd p) h) ls
               then ls else ls ++ [(ty, h)] in
    emit (MListen el ty h) (set_native (nset el ls' (native st)) st).

(** The "Remove old event listener" blocks of [updateProps]. *)
Definition unlisten (st : vstate) (el : nat) (ty : string) (h : nat) : vstate :=
  if has_es st then
    match nget el (tracked st) with
    | None => st
    | Some entries =>
        match find_index (fun e => String.eqb (fst e) ty && Nat.eqb (snd e) h) entries with
        | None => st
        | Some i =>
            let st1 := emit (MUnlisten el ty h) (set_handlers (es_off (handlers st) el ty h) st) in
            set_tracked (nset el (remove_nth i entries) (tracked st1)) st1
        end
    end
  else
    let ls := match nget el (native st) with Some l => l | None => [] end in
    emit (MUnlisten el ty h)
         (set_native (nset el (filter (fun p => negb (String.eqb (fst p) ty && Nat.eqb (snd p) h)) ls)
                           (native st)) st).

(** The last branch of [setProps] and of [updateProps]:
    [checked], [value] and [selected] as properties, booleans as presence
    of the attribute, otherwise a property if the element has one by that
    name, else an attribute. *)
Definition set_plain (st : vstate) (id : nat) (tag : string) (ea : eattrs) (key : string) (v : pval)
  : vstate * eattrs :=
  if String.eqb key "checked" || String.eqb key "value" || String.eqb key "selected" then
    set_property st id ea key v
  else if is_boolean v then
    (if truthy v then set_attribute st id ea key "" else remove_attribute st id ea key)
  else if in_element tag key then set_property st id ea key v
  else set_attribute st id ea key (to_attr_string v).

(** One iteration of [setProps]. *)
Definition set_prop_entry (id : nat) (tag : string) (acc : vstate * eattrs) (kv : string * pval)
  : vstate * eattrs :=
  let '(st, ea) := acc in
  let '(key, value) := kv in
  if String.eqb key "className" then set_property st id ea "className" value
  else if String.eqb key "style" && is_object value then assign_style st id ea value
  else if starts_with "on" key && is_function value then
    (listen st id (event_type key) (fun_id value), ea)
  else if starts_with "data-" key || starts_with "aria-" key then
    set_attribute st id ea key (to_attr_string value)
  else if String.eqb key "autofocus" || String.eqb key "autoFocus" then
    (* the focus() scheduled with setTimeout does not change the tree *)
    (if truthy value then set_attribute st id ea "autofocus" "" else (st, ea))
  else if String.eqb key "htmlFor" then set_attribute st id ea "for" (to_attr_string value)
  else if String.eqb key "onMount" || String.eqb key "onUnmount" then (st, ea)
  else if negb (String.eqb key "key") && negb (String.eqb key "children") then
    set_plain st id tag ea key value
  else (st, ea).

(** [setProps(element, props)] *)
Definition setProps (st : vstate) (id : nat) (tag : string) (ea : eattrs)
    (props : list (string * pval)) : vstate * eattrs :=
  fold_left (set_prop_entry id tag) props (st, ea).

(** [createDOMElement(vnode)]; the [onMount] call queued with
    [Promise.resolve().then] runs after the render and is not part of it. *)
Fixpoint createDOMElement (st : vstate) (v : vnode) : vstate * dom :=
  match v with
  | VText s =>
      let id := next_id st in
      (emit (MCreateText id s) (bump st), DText id s)
  | VElem _ tag p ch =>
      let id := next_id st in
      let st1 := emit (MCreateElement id tag) (bump st) in
      let '(st2, ea) := setProps st1 id tag empty_ea p in
      let st3 :=
        match aget "onMount" p with
        | Some m =>
            if truthy m && is_function m then
              set_hooks (nset id (m, match aget "onUnmount" p with Some u => u | None => PUndef end)
                              (hooks st2)) st2
            else st2
        | None => st2
        end in
      let fix add_children (st : vstate) (cs : list vnode) (acc : list dom) : vstate * list dom :=
        match cs with
        | [] => (st, acc)
        | c :: cs' =>
            let '(st', cd) := createDOMElement st c in
            add_children (emit (MAppendChild id (dom_id cd)) st') cs' (acc ++ [cd])
        end in
      let '(st4, kids) := add_children st3 ch [] in
      (st4, DElem id tag ea kids)
  end.

(** [cleanupElement(element)] *)
Fixpoint cleanupElement (st : vstate) (d : dom) : vstate :=
  let id := dom_id d in
  let st0 := note (TCleanup id) st in
  let st1 := match nget id (hooks st0) with
             | Some (_, u) => if truthy u && is_function u then note (TUnmount id (fun_id u)) st0 else st0
             | None => st0
             end in
  let st2 := set_hooks (ndel id (hooks st1)) st1 in
  let st3 := if has_es st2 then emit (MUnlistenAll id) (set_handlers (es_off_all (handlers st2) id) st2)
             else st2 in
  let st4 := set_tracked (ndel id (tracked st3)) st3 in
  match d with
  | DText _ _ => st4
  | DElem _ _ _ kids =>
      let fix clean_kids (st : vstate) (ks : list dom) : vstate :=
        match ks with
        | [] => st
        | k :: ks' => clean_kids (if is_elem k then cleanupElement st k else st) ks'
        end in
      clean_kids st4 kids
  end.

(** One iteration of the "Remove old props" loop of [updateProps]. *)
Definition remove_prop_entry (id : nat) (newProps oldProps : list (string * pval))
    (acc : vstate * eattrs) (key : string) : vstate * eattrs :=
  let '(st, ea) := acc in
  if ahas key newProps then (st, ea)
  else if String.eqb key "className" then set_property st id ea "className" (PStr "")
  else if String.eqb key "style" then (emit (MClearStyle id) st, mkEa (attrs ea) (dprops ea) [])
  else
    let oldv := match aget key oldProps with Some v => v | None => PUndef end in
    if starts_with "on" key && is_function oldv then (unlisten st id (event_type key) (fun_id oldv), ea)
    else if negb (String.eqb key "key") && negb (String.eqb key "onMount")
            && negb (String.eqb key "onUnmount") then remove_attribute st id ea key
    else (st, ea).

(** One iteration of the "Update changed props" loop of [updateProps]. *)
Definition update_prop_entry (id : nat) (tag : string) (oldProps : list (string * pval))
    (acc : vstate * eattrs) (kv : string * pval) : vstate * eattrs :=
  let '(st0, ea) := acc in
  let '(key, newValue) := kv in
  let oldValue := match aget key oldProps with Some v => v | None => PUndef end in
  if strict_eq oldValue newValue then (st0, ea)
  else
    let st := if starts_with "on" key && is_function oldValue
              then unlisten st0 id (event_type key) (fun_id oldValue) else st0 in
    if String.eqb key "className" then set_property st id ea "className" newValue
    else if String.eqb key "style" && is_object newValue then assign_style st id ea newValue
    else if starts_with "on" key && is_function newValue then
      (listen st id (event_type key) (fun_id newValue), ea)
    else if starts_with "data-" key || starts_with "aria-" key then
      set_attribute st id ea key (to_attr_string newValue)
    else if String.eqb key "autofocus" || String.eqb key "autoFocus" then
      (if truthy newValue then set_attribute st id ea "autofocus" ""
       else remove_attribute st id ea "autofocus")
    else if String.eqb key "htmlFor" then set_attribute st id ea "for" (to_attr_string newValue)
    else if String.eqb key "onMount" || String.eqb key "onUnmount" then
      let '(m, u) := match nget id (hooks st) with Some h => h | None => (PUndef, PUndef) end in
      (set_hooks (nset id (if String.eqb key "onMount" then (newValue, u) else (m, newValue))
                       (hooks st)) st, ea)
    else if negb (String.eqb key "key") && negb (String.eqb key "children") then
      set_plain st id tag ea key newValue
    else (st, ea).

(** [updateProps(element, newProps, oldProps)] *)
Definition updateProps (st : vstate) (id : nat) (tag : string) (ea : eattrs)
    (newProps oldProps : list (string * pval)) : vstate * eattrs :=
  let acc := fold_left (remove_prop_entry id newProps oldProps) (map fst oldProps) (st, ea) in
  fold_left (update_prop_entry id tag oldProps) newProps acc.

(** *** Reconciliation *)

(** [node.textContent = s]: on a text node it replaces the text; on an
    element it replaces all children by one new text node. *)
Definition set_text_content (st : vstate) (node : dom) (s : string) : vstate * dom :=
  match node with
  | DText id _ => (emit (MSetTextContent id s) st, DText id s)
  | DElem id tag ea _ =>
      if String.eqb s "" then (emit (MSetTextContent id s) st, DElem id tag ea [])
      else (emit (MSetTextContent id s) (bump st), DElem id tag ea [DText (next_id st) s])
  end.

Definition child_reconciler :=
  vstate -> nat -> list dom -> list vnode -> list vnode -> vstate * list dom.

(** [updateElement(parent, newNode, oldNode, index)] on the child list
    [kids] of the parent [pid]; [rc] is [reconcileChildren]. *)
Definition updateElement_body (rc : child_reconciler) (st : vstate) (pid : nat) (kids : list dom)
    (newNode oldNode : option vnode) (index : nat) : vstate * list dom :=
  match newNode with
  | None =>
      match nth_error kids index with
      | Some node =>
          let st1 := cleanupElement st node in
          (emit (MRemoveChild pid (dom_id node)) st1, remove_nth index kids)
      | None => (st, kids)
      end
  | Some nn =>
      match oldNode with
      | None =>
          let '(st1, el) := createDOMElement st nn in
          match nth_error kids index with
          | Some r => (emit (MInsertBefore pid (dom_id el) (Some (dom_id r))) st1, insert_at index el kids)
          | None => (emit (MAppendChild pid (dom_id el)) st1, kids ++ [el])
          end
      | Some on =>
          if hasNodeChanged nn on then
            match nth_error kids index with
            | Some oldEl =>
                let st1 := cleanupElement st oldEl in
                let '(st2, el) := createDOMElement st1 nn in
                (emit (MReplaceChild pid (dom_id el) (dom_id oldEl)) st2, replace_nth index el kids)
            | None =>
                let '(st1, el) := createDOMElement st nn in
                (emit (MAppendChild pid (dom_id el)) st1, kids ++ [el])
            end
          else
            match vvalue nn with
            | Some nv =>
                (* newNode.type === 'text' *)
                if negb (opt_str_eqb (Some nv) (vvalue on)) then
                  match nth_error kids index with
                  | Some node =>
                      let '(st1, node') := set_text_content st node nv in
                      (st1, replace_nth index node' kids)
                  | None => (st, kids)
                  end
                else (st, kids)
            | None =>
                match nth_error kids index with
                | Some (DElem eid etag ea ekids) =>
                    let '(st1, ea') := updateProps st eid etag ea (vprops nn) (vprops on) in
                    let '(st2, ekids') := rc st1 eid ekids (vchildren nn) (vchildren on) in
                    (st2, replace_nth index (DElem eid etag ea' ekids') kids)
                | _ => (st, kids)
                end
            end
      end
  end.

(** [reconcileChildrenByIndex(parent, newChildren, oldChildren)];
    [ue] is [updateElement]. *)
Definition reconcileChildrenByIndex
    (ue : vstate -> nat -> list dom -> option vnode -> option vnode -> nat -> vstate * list dom)
    (st : vstate) (pid : nat) (kids : list dom) (newChildren oldChildren : list vnode)
  : vstate * list dom :=
  let maxLength := Nat.max (List.length newChildren) (List.length oldChildren) in
  fold_left (fun acc i => ue (fst acc) pid (snd acc) (nth_error newChildren i) (nth_error oldChildren i) i)
            (seq 0 maxLength) (st, kids).

(** The key maps of [reconcileChildrenWithKeys]. *)
Definition build_oldKeyMap (oldChildren : list vnode) : list (pval * vnode) :=
  fold_left (fun m c => match vkey c with Some k => kset k c m | None => m end) oldChildren [].

(** Strategy 1: [data-id] attributes read back with [parseFloat]. *)
Definition dataid_map (oldKeyMap : list (pval * vnode)) (domElements : list dom) : list (pval * nat) :=
  fold_left (fun m d =>
               match attr_of d "data-id" with
               | Some s =>
                   if negb (String.eqb s "") then
                     match parseFloat s with
                     | Some z => if khas (PNum z) oldKeyMap then kset (PNum z) (dom_id d) m else m
                     | None => m
                     end
                   else m
               | None => m
               end) domElements [].

(** Strategy 2: positional correspondence. *)
Definition order_map (oldChildren : list vnode) (domElements : list dom) (m : list (pval * nat))
  : list (pval * nat) :=
  fold_left (fun m ci =>
               match vkey (fst ci), nth_error domElements (snd ci) with
               | Some k, Some d => kset k (dom_id d) m
               | _, _ => m
               end) (combine oldChildren (seq 0 (List.length oldChildren))) m.

Definition build_oldDomMap (oldChildren : list vnode) (domElements : list dom) : list (pval * nat) :=
  let m1 := dataid_map (build_oldKeyMap oldChildren) domElements in
  if Nat.eqb (List.length m1) 0 && Nat.eqb (List.length oldChildren) (List.length domElements)
  then order_map oldChildren domElements m1
  else m1.

(** The loop state of the "Process new children" pass: state, child list
    of the parent, created nodes not yet inserted, [processedNodes],
    [newKeySet]. *)
Definition pstate := (vstate * list dom * list dom * list nat * list (option pval))%type.

Definition process_new_child (rc : child_reconciler) (oldKeyMap : list (pval * vnode))
    (oldDomMap : list (pval * nat)) (acc : pstate) (newChild : vnode) : pstate :=
  let '(st, kids, pool, processed, keyset) := acc in
  let key := vkey newChild in
  let keyset' := keyset ++ [key] in
  let oldChild := match key with Some k => kget k oldKeyMap | None => None end in
  let oldDomNode := match key with Some k => kget k oldDomMap | None => None end in
  match oldChild, oldDomNode with
  | Some oc, Some nid =>
      if negb (same_object oc newChild) then
        match find_by_id nid kids with
        | Some (DElem eid etag ea ekids) =>
            let '(st1, ea') := updateProps st eid etag ea (vprops newChild) (vprops oc) in
            let '(st2, ekids') := rc st1 eid ekids (vchildren newChild) (vchildren oc) in
            (st2, replace_by_id nid (DElem eid etag ea' ekids') kids, pool, processed ++ [nid], keyset')
        | _ => (st, kids, pool, processed ++ [nid], keyset')
        end
      else (st, kids, pool, processed ++ [nid], keyset')
  | _, _ =>
      let '(st1, el) := createDOMElement st newChild in
      (st1, kids, pool ++ [el], processed ++ [dom_id el], keyset')
  end.

Definition key_in (k : pval) (keyset : list (option pval)) : bool :=
  existsb (fun o => match o with Some k' => strict_eq k k' | None => false end) keyset.

(** One iteration of "Remove old children that are no longer present". *)
Definition remove_old_child (pid : nat) (oldDomMap : list (pval * nat)) (keyset : list (option pval))
    (acc : vstate * list dom) (oldChild : vnode) : vstate * list dom :=
  let '(st, kids) := acc in
  match vkey oldChild with
  | Some k =>
      if key_in k keyset then (st, kids)
      else
        match kget k oldDomMap with
        | Some nid =>
            match find_by_id nid kids with
            | Some node =>
                let st1 := cleanupElement st node in
                (emit (MRemoveChild pid nid) st1, remove_by_id nid kids)
            | None => (st, kids)
            end
        | None => (st, kids)
        end
  | None => (st, kids)
  end.

(** One iteration of "Reorder/insert nodes to match new order". *)
Definition place_node (pid : nat) (acc : vstate * list dom * list dom * nat) (nid : nat)
  : vstate * list dom * list dom * nat :=
  let '(st, kids, pool, index) := acc in
  let current := nth_error kids index in
  if match current with Some c => Nat.eqb (dom_id c) nid | None => false end
  then (st, kids, pool, S index)
  else
    let ref := option_map dom_id current in
    match find_by_id nid kids with
    | Some node =>
        (emit (MInsertBefore pid nid ref) st, insert_before node ref (remove_by_id nid kids), pool, S index)
    | None =>
        match find_by_id nid pool with
        | Some node =>
            (emit (MInsertBefore pid nid ref) st, insert_before node ref kids, remove_by_id nid pool, S index)
        | None => (st, kids, pool, S index)
        end
    end.

(** [reconcileChildrenWithKeys(parent, newChildren, oldChildren)] *)
Definition reconcileChildrenWithKeys (rc : child_reconciler) (st : vstate) (pid : nat)
    (kids : list dom) (newChildren oldChildren : list vnode) : vstate * list dom :=
  let domElements := filter is_elem kids in
  let oldKeyMap := build_oldKeyMap oldChildren in
  let oldDomMap := build_oldDomMap oldChildren domElements in
  let '(st1, kids1, pool, processed, keyset) :=
    fold_left (process_new_child rc oldKeyMap oldDomMap) newChildren (st, kids, [], [], []) in
  let '(st2, kids2) := fold_left (remove_old_child pid oldDomMap keyset) oldChildren (st1, kids1) in
  let '(st3, kids3, _, _) := fold_left (place_node pid) processed (st2, kids2, pool, 0) in
  (st3, kids3).

Definition has_key (c : vnode) : bool := match vkey c with Some _ => true | None => false end.

(** [reconcileChildren(parent, newChildren, oldChildren)].  The recursion
    descends one level of the new description per call; [render] gives it
    the depth of the description, so the [O] case is never reached from
    [render]. *)
Fixpoint reconcileChildren (fuel : nat) (st : vstate) (pid : nat) (kids : list dom)
    (newChildren oldChildren : list vnode) : vstate * list dom :=
  match fuel with
  | O => (st, kids)
  | S f =>
      if existsb has_key newChildren || existsb has_key oldChildren
      then reconcileChildrenWithKeys (reconcileChildren f) st pid kids newChildren oldChildren
      else reconcileChildrenByIndex (updateElement_body (reconcileChildren f)) st pid kids
             newChildren oldChildren
  end.

Definition updateElement (fuel : nat) := updateElement_body (reconcileChildren fuel).

(** [render(vnode, container)] *)
Definition render (st : vstate) (container : dom) (v : vnode) : vstate * dom :=
  match container with
  | DElem cid ctag cea ckids =>
      let '(st1, kids1) :=
        match nget cid (trees st) with
        | Some currentTree => updateElement (vdepth v) st cid ckids (Some v) (Some currentTree) 0
        | None =>
            let '(st1, el) := createDOMElement st v in
            (emit (MAppendChild cid (dom_id el)) (emit (MClearChildren cid) st1), [el])
        end in
      (set_trees (nset cid v (trees st1)) st1, DElem cid ctag cea kids1)
  | DText _ _ => (st, container)
  end.

End Host.

End VDom.

(** * Event dispatch *)
Module Dispatch.
Import VDom.

(** Calls that may throw: a small exception monad. *)
Inductive result (A : Type) := Ok (a : A) | Exn (err : nat).
Arguments Ok {A} a.
Arguments Exn {A} err.

Definition ret {A} (a : A) : result A := Ok a.
Definition bind {A B} (m : result A) (k : A -> result B) : result B :=
  match m with Ok a => k a | Exn e => Exn e end.
(** [try { m } catch (error) { h(error) }] *)
Definition try_catch {A} (m : result A) (h : nat -> result A) : result A :=
  match m with Ok a => Ok a | Exn e => h e end.

Notation "x <- m ;; k" := (bind m (fun x => k)) (at level 61, m at next level, right associativity).

(** What the dispatch observably does: the handler invocations
    [(element, handler)] in order, and the [console.error] lines. *)
Record dstate := mkD { invoked : list (nat * nat); console : list nat }.

Definition record_call (s : dstate) (el h : nat) : dstate :=
  mkD (invoked s ++ [(el, h)]) (console s).
Definition console_error (s : dstate) (e : nat) : dstate :=
  mkD (invoked s) (console s ++ [e]).

Section Walk.
(** [handler.call(currentElement, event)] for handler [h] at element [el];
    handlers do not change the registration table. *)
Variable call : nat -> nat -> result unit.

(** [handlers.forEach(handler => { try { ... } catch (error) { console.error(...) } })] *)
Fixpoint for_each_handler (el : nat) (hs : list nat) (s : dstate) : result dstate :=
  match hs with
  | [] => ret s
  | h :: hs' =>
      s' <- (let s1 := record_call s el h in
             try_catch (_ <- call h el ;; ret s1) (fun e => ret (console_error s1 e))) ;;
      for_each_handler el hs' s'
  end.

(** The [while] loop of [handleDirectEvents], over the chain [target],
    [target.parentElement], ... up to (excluding) [document]. *)
Fixpoint walk (m : hmap) (ty : string) (chain : list nat) (s : dstate) : result dstate :=
  match chain with
  | [] => ret s
  | el :: up =>
      s' <- for_each_handler el (handlers_for m el ty) s ;;
      walk m ty up s'
  end.

Definition handleDirectEvents (m : hmap) (ty : string) (chain : list nat) : result dstate :=
  walk m ty chain (mkD [] []).

(** What the spec asks for: every handler at every level is invoked, and
    each exception is logged. *)
Definition all_calls (m : hmap) (ty : string) (chain : list nat) : list (nat * nat) :=
  List.concat (map (fun el => map (fun h => (el, h)) (handlers_for m el ty)) chain).

Definition thrown (m : hmap) (ty : string) (chain : list nat) : list nat :=
  List.concat (map (fun el => List.concat (map (fun h => match call h el with
                                                          | Ok _ => []
                                                          | Exn e => [e] end)
                                                 (handlers_for m el ty))) chain).
End Walk.

End Dispatch.

(** * The registration API of [EventSystem] *)
Module ES.
Import VDom Dispatch.

(** A [delegate] selector: a CSS selector string, a predicate function, or
    an element compared with [===]. *)
Inductive selector :=
| SelStr (s : string)
| SelFun (f : nat)
| SelElem (el : nat).

(** The object [{ selector, handler, container }] pushed by [delegate];
    [dobj] is its identity, which its unsubscribe function compares with
    [indexOf]. *)
Record dentry := mkDE { dobj : nat; dsel : selector; dhandler : nat; dcontainer : nat }.

(** The four maps of an [EventSystem].  [eventHandlers] and
    [globalHandlers] are only reached through the maps, so they hold their
    arrays by value.  [delegateHandlers] and [customEvents] hold arrays that
    the unsubscribe functions returned by [delegate] and [subscribe] capture:
    these maps hold array identities, and the arrays live in [darrays] and
    [larrays], which [cleanup] does not touch.  [globalHandlers] keeps the
    [handler] field of each [{ handler, options }] entry: nothing reads
    [options].  [next_obj] is the next fresh object identity. *)
Record estate := mkES {
  eventHandlers : hmap;
  globalHandlers : list (string * list nat);
  delegateHandlers : list (string * nat);
  customEvents : list (string * nat);
  darrays : list (nat * list dentry);
  larrays : list (nat * list nat);
  next_obj : nat
}.

(** [new EventSystem()] *)
Definition es_init : estate := mkES [] [] [] [] [] [] 0.

Definition set_eventHandlers m (s : estate) : estate :=
  mkES m (globalHandlers s) (delegateHandlers s) (customEvents s) (darrays s) (larrays s) (next_obj s).
Definition set_globalHandlers g (s : estate) : estate :=
  mkES (eventHandlers s) g (delegateHandlers s) (customEvents s) (darrays s) (larrays s) (next_obj s).

Definition darray (s : estate) (a : nat) : list dentry :=
  match nget a (darrays s) with Some l => l | None => [] end.
Definition larray (s : estate) (a : nat) : list nat :=
  match nget a (larrays s) with Some l => l | None => [] end.

(** The unsubscribe functions returned by [on], [onGlobal], [delegate] and
    [subscribe], with what each closure captures. *)
Inductive unsub :=
| UOff (el : nat) (ty : string) (h : nat)      (* () => this.off(element, eventType, handler) *)
| UOffGlobal (ty : string) (h : nat)           (* () => this.offGlobal(eventType, handler) *)
| UDelegate (arr : nat) (obj : nat)            (* delegateHandlers, delegateHandler *)
| USubscribe (arr : nat) (l : nat).            (* listeners, listener *)

(** Truthiness of the [eventType] argument of [off]. *)
Definition ty_truthy (ty : option string) : bool :=
  match ty with Some t => negb (String.eqb t "") | None => false end.

(** [on(element, eventType, handler)] for an element. *)
Definition on (s : estate) (el : nat) (ty : string) (h : nat) : estate * unsub :=
  (set_eventHandlers (es_on (eventHandlers s) el ty h) s, UOff el ty h).

(** [off(element, eventType, handler)] for an element; [None] is an
    omitted argument (handlers are functions, hence truthy). *)
Definition off (s : estate) (el : nat) (ty : option string) (h : option nat) : estate :=
  match nget el (eventHandlers s) with
  | None => s
  | Some eh =>
      match ty, h with
      | Some t, Some f =>
          if ty_truthy ty then set_eventHandlers (es_off (eventHandlers s) el t f) s
          else set_eventHandlers (ndel el (eventHandlers s)) s
      | Some t, None =>
          if ty_truthy ty then set_eventHandlers (nset el (adel t eh) (eventHandlers s)) s
          else set_eventHandlers (ndel el (eventHandlers s)) s
      | None, _ => set_eventHandlers (ndel el (eventHandlers s)) s
      end
  end.

(** [onGlobal(eventType, handler)] *)
Definition onGlobal (s : estate) (ty : string) (h : nat) : estate * unsub :=
  let hs := match aget ty (globalHandlers s) with Some l => l | None => [] end in
  (set_globalHandlers (aset ty (hs ++ [h]) (globalHandlers s)) s, UOffGlobal ty h).

(** [offGlobal(eventType, handler)]: [findIndex] and [splice]. *)
Definition offGlobal (s : estate) (ty : string) (h : nat) : estate :=
  match aget ty (globalHandlers s) with
  | None => s
  | Some hs => set_globalHandlers (aset ty (remove_first h hs) (globalHandlers s)) s
  end.

(** [delegate(eventType, selector, handler, container)] *)
Definition delegate (s : estate) (ty : string) (sel : selector) (h : nat) (container : nat)
  : estate * unsub :=
  let '(s1, a) :=
    match aget ty (delegateHandlers s) with
    | Some a => (s, a)
    | None =>
        (mkES (eventHandlers s) (globalHandlers s) (aset ty (next_obj s) (delegateHandlers s))
              (customEvents s) (nset (next_obj s) [] (darrays s)) (larrays s) (S (next_obj s)),
         next_obj s)
    end in
  let o := next_obj s1 in
  (mkES (eventHandlers s1) (globalHandlers s1) (delegateHandlers s1) (customEvents s1)
        (nset a (darray s1 a ++ [mkDE o sel h container]) (darrays s1)) (larrays s1) (S o),
   UDelegate a o).

(** [subscribe(eventType, listener)] *)
Definition subscribe (s : estate) (ty : string) (l : nat) : estate * unsub :=
  let '(s1, a) :=
    match aget ty (customEvents s) with
    | Some a => (s, a)
    | None =>
        (mkES (eventHandlers s) (globalHandlers s) (delegateHandlers s)
              (aset ty (next_obj s) (customEvents s)) (darrays s)
              (nset (next_obj s) [] (larrays s)) (S (next_obj s)),
         next_obj s)
    end in
  (mkES (eventHandlers s1) (globalHandlers s1) (delegateHandlers s1) (customEvents s1)
        (darrays s1) (nset a (larray s1 a ++ [l]) (larrays s1)) (next_obj s1),
   USubscribe a l).

(** [[ x ].splice(index, 1)] after [indexOf] on object identity. *)
Fixpoint remove_obj (o : nat) (l : list dentry) : list dentry :=
  match l with
  | [] => []
  | d :: l' => if Nat.eqb (dobj d) o then l' else d :: remove_obj o l'
  end.

(** Calling an unsubscribe function. *)
Definition run_unsub (s : estate) (u : unsub) : estate :=
  match u with
  | UOff el ty h => off s el (Some ty) (Some h)
  | UOffGlobal ty h => offGlobal s ty h
  | UDelegate a o =>
      mkES (eventHandlers s) (globalHandlers s) (delegateHandlers s) (customEvents s)
           (nset a (remove_obj o (darray s a)) (darrays s)) (larrays s) (next_obj s)
  | USubscribe a l =>
      mkES (eventHandlers s) (globalHandlers s) (delegateHandlers s) (customEvents s)
           (darrays s) (nset a (remove_first l (larray s a)) (larrays s)) (next_obj s)
  end.

(** [cleanup()]: the four [clear()] calls. *)
Definition cleanup (s : estate) : estate :=
  mkES [] [] [] [] (darrays s) (larrays s) (next_obj s).

(** The registrations of an event type, as the maps hold them. *)
Definition global_for (s : estate) (ty : string) : list nat :=
  match aget ty (globalHandlers s) with Some l => l | None => [] end.
Definition listeners_for (s : estate) (ty : string) : list nat :=
  match aget ty (customEvents s) with Some a => larray s a | None => [] end.
Definition delegates_for (s : estate) (ty : string) : list dentry :=
  match aget ty (delegateHandlers s) with Some a => darray s a | None => [] end.

Section Delegated.
(** The rest of the program state, which the callbacks may read and change. *)
Variable W : Type.
(** [element.matches(selector)], which throws on a malformed selector. *)
Variable matches : nat -> string -> result bool.
(** [selector(element)] for a predicate function [f] (its truthiness), and
    [handler.call(currentElement, event)] for handler [h]: user code, which
    may change the event system and the rest of the state, and may throw. *)
Variable pred : nat -> nat -> estate * W -> (estate * W) * result bool.
Variable call : nat -> nat -> estate * W -> (estate * W) * result unit.

(** [elementMatches(element, selector)] *)
Definition elementMatches (el : nat) (sel : selector) (cs : estate * W)
  : (estate * W) * result bool :=
  match sel with
  | SelStr q => (cs, matches el q)
  | SelFun f => pred f el cs
  | SelElem e => (cs, Ok (Nat.eqb el e))
  end.

(** The [forEach] of [handleDelegatedEvents] at element [el] over the live
    array [a]: the indices [ks] are those below the length the array had
    when the [forEach] started, each entry is read when its index is
    reached, and an index no longer in the array is skipped.  The selector
    test is outside the [try]. *)
Fixpoint for_each_delegate (a el : nat) (ks : list nat) (cs : estate * W) (d : dstate)
  : (estate * W) * result dstate :=
  match ks with
  | [] => (cs, Ok d)
  | k :: ks' =>
      match nth_error (darray (fst cs) a) k with
      | None => for_each_delegate a el ks' cs d
      | Some x =>
          let '(cs1, b) := elementMatches el (dsel x) cs in
          match b with
          | Exn e => (cs1, Exn e)
          | Ok false => for_each_delegate a el ks' cs1 d
          | Ok true =>
              let d1 := record_call d el (dhandler x) in
              let '(cs2, r) := call (dhandler x) el cs1 in
              match r with
              | Ok _ => for_each_delegate a el ks' cs2 d1
              | Exn e => for_each_delegate a el ks' cs2 (console_error d1 e)
              end
          end
      end
  end.

(** The [while] loop over the chain [target], [target.parentElement], ...
    up to (excluding) [document]. *)
Fixpoint walk_delegated (a : nat) (chain : list nat) (cs : estate * W) (d : dstate)
  : (estate * W) * result dstate :=
  match chain with
  | [] => (cs, Ok d)
  | el :: up =>
      let '(cs1, r) := for_each_delegate a el (seq 0 (List.length (darray (fst cs) a))) cs d in
      match r with
      | Exn e => (cs1, Exn e)
      | Ok d1 => walk_delegated a up cs1 d1
      end
  end.

(** [handleDelegatedEvents(event, eventType, target)], continuing the
    observations [d]: the array [delegateHandlers.get(eventType)] is looked
    up once. *)
Definition handleDelegatedEvents (ty : string) (chain : list nat) (cs : estate * W) (d : dstate)
  : (estate * W) * result dstate :=
  match aget ty (delegateHandlers (fst cs)) with
  | None => (cs, Ok d)
  | Some a => walk_delegated a chain cs d
  end.
End Delegated.

Arguments elementMatches {W} matches pred el sel cs.
Arguments for_each_delegate {W} matches pred call a el ks cs d.
Arguments walk_delegated {W} matches pred call a chain cs d.
Arguments handleDelegatedEvents {W} matches pred call ty chain cs d.

(** ** Observations and registry properties used by the facts below *)

(** Every handler list [handleDirectEvents] can read is duplicate-free. *)
Definition hm_nodup (m : hmap) : Prop := forall el ty, NoDup (handlers_for m el ty).

(** No element keeps an event type whose handler array is empty. *)
Definition hm_no_empty (m : hmap) : Prop :=
  forall el eh ty hs, nget el m = Some eh -> aget ty eh = Some hs -> hs <> [].


(** The state with the [container] field of every delegate entry replaced
    by [0]. *)
Definition erase_entry (x : dentry) : dentry := mkDE (dobj x) (dsel x) (dhandler x) 0.
Definition erase_containers (s : estate) : estate :=
  mkES (eventHandlers s) (globalHandlers s) (delegateHandlers s) (customEvents s)
       (map (fun p => (fst p, map erase_entry (snd p))) (darrays s)) (larrays s) (next_obj s).

(** A callback that cannot tell apart two states that differ only in
    the containers of delegate entries. *)
Definition container_blind {W A : Type} (f : nat -> nat -> estate * W -> (estate * W) * result A) : Prop :=
  forall a b s1 s2 (w : W), erase_containers s1 = erase_containers s2 ->
    erase_containers (fst (fst (f a b (s1, w)))) = erase_containers (fst (fst (f a b (s2, w)))) /\
    snd (fst (f a b (s1, w))) = snd (fst (f a b (s2, w))) /\
    snd (f a b (s1, w)) = snd (f a b (s2, w)).

End ES.

(** * Predicates used to state properties of the reconciler *)
Module VDomPreds.
Import VDom.

(** [name] is one of the live-property names. *)
Definition live_prop_name (name : string) : bool :=
  String.eqb name "checked" || String.eqb name "value" || String.eqb name "selected".

(** A mutation that does not write [checked], [value] or [selected] as a
    string attribute. *)
Definition no_live_prop_attr (m : mutation) : Prop :=
  match m with MSetAttribute _ name _ => live_prop_name name = false | _ => True end.

(** Mutations of one element's attributes, properties, style or
    listeners (no structural change). *)
Definition attr_level (m : mutation) : Prop :=
  match m with
  | MSetAttribute _ _ _ | MRemoveAttribute _ _ | MSetProperty _ _ _ | MAssignStyle _ _
  | MClearStyle _ | MListen _ _ _ | MUnlisten _ _ _ => True
  | _ => False
  end.

Definition is_removal (m : mutation) : bool :=
  match m with MRemoveChild _ _ => true | _ => false end.

(** [st'] is reached from [st] by appending to the log mutations that
    satisfy [P] and to the trace events that satisfy [T], fresh identities
    only growing, and the mount registry and the event-system
    configuration untouched. *)
Definition grows (P : mutation -> Prop) (T : tevent -> Prop) (st st' : vstate) : Prop :=
  next_id st <= next_id st' /\ has_es st' = has_es st /\ trees st' = trees st /\
  (exists d, log st' = log st ++ d /\ Forall P d) /\
  (exists t, trace st' = trace st ++ t /\ Forall T t).

(** Mutations of [setProps] and [updateProps]. *)
Definition AP (m : mutation) : Prop := attr_level m /\ no_live_prop_attr m.

(** Mutations of [cleanupElement]. *)
Definition unlisten_all (m : mutation) : Prop := exists id, m = MUnlistenAll id.

(** A live node materialised from a description: same shape and tags,
    same text, and no [data-id] attribute unless the description has one. *)
Inductive corresponds : vnode -> dom -> Prop :=
| corr_text : forall s id, corresponds (VText s) (DText id s)
| corr_elem : forall o t p ch id ea kids,
    (aget "data-id" p = None -> aget "data-id" (attrs ea) = None) ->
    Forall2 corresponds ch kids ->
    corresponds (VElem o t p ch) (DElem id t ea kids).

Definition key_of (c : vnode) : pval := match vkey c with Some k => k | None => PUndef end.

(** A sibling group handled by the keyed path without surprises: element
    children only, each with a key, no [data-id] attribute, keys pairwise
    distinct. *)
Definition keyed_group (ch : list vnode) : Prop :=
  Forall (fun c => exists o t p cs, c = VElem o t p cs /\ has_key c = true /\
                                     aget "data-id" p = None) ch /\
  ForallOrdPairs (fun a b => strict_eq a b = false) (map key_of ch).

(** Well-formed description for the idempotence property: props objects
    have distinct names and no [NaN] value, and every sibling group that
    carries a key is a [keyed_group]. *)
Inductive wf : vnode -> Prop :=
| wf_text : forall s, wf (VText s)
| wf_elem : forall o t p ch,
    NoDup (map fst p) ->
    Forall (fun kv => snd kv <> PNaN) p ->
    (existsb has_key ch = true -> keyed_group ch) ->
    Forall wf ch ->
    wf (VElem o t p ch).

(** The spec's definition of a changed node: differing leaf/element kind,
    tag name or reconciliation key. *)
Definition differs_kind_tag_key (n o : vnode) : bool :=
  match n, o with
  | VText _, VText _ => false
  | VElem _ t1 _ _, VElem _ t2 _ _ =>
      negb (String.eqb t1 t2) || negb (key_eqb (vkey n) (vkey o))
  | _, _ => true
  end.

(** A host element that exposes none of the prop names as a property. *)
Definition ie_none (tag key : string) : bool := false.

(** The reconciler [rc] only appends mutations without live-property
    attribute writes, and keeps the registry and event-system flag. *)
Definition rc_grows (rc : child_reconciler) : Prop :=
  forall st pid kids nc oc, grows no_live_prop_attr (fun _ => True) st (fst (rc st pid kids nc oc)).

(** The vstate component of the process loop's accumulator. *)
Definition pst (a : pstate) : vstate := fst (fst (fst (fst a))).

(** Keys pairwise different under [===]. *)
Definition kdistinct (l : list pval) : Prop := ForallOrdPairs (fun a b => strict_eq a b = false) l.

(** One iteration of strategy 2 of [build_oldDomMap], as a function. *)
Definition order_step (kids : list dom) (m : list (pval * nat)) (ci : vnode * nat) : list (pval * nat) :=
  match vkey (fst ci), nth_error kids (snd ci) with
  | Some k, Some d => kset k (dom_id d) m
  | _, _ => m
  end.

(** [rc] leaves an unchanged child list alone. *)
Definition rc_idem (rc : child_reconciler) : Prop :=
  forall st pid kids ch, Forall wf ch -> Forall2 corresponds ch kids ->
  (existsb has_key ch = true -> keyed_group ch) -> rc st pid kids ch ch = (st, kids).

(** A cleanup event of the trace. *)
Definition is_cleanup (e : tevent) : bool := match e with TCleanup _ => true | _ => false end.

(** The nodes [cleanupElement d] visits: [d], then the element children,
    each with its own descendants. *)
Fixpoint cleanup_order (d : dom) : list nat :=
  dom_id d :: match d with
              | DText _ _ => []
              | DElem _ _ _ kids => List.concat (map (fun k => if is_elem k then cleanup_order k else []) kids)
              end.

(** The tag of a live node ([None] for a text node). *)
Definition dom_tag (d : dom) : option string :=
  match d with DText _ _ => None | DElem _ t _ _ => Some t end.

(** The items at odd positions (second, fourth, ...) of a list. *)
Fixpoint odds {A} (l : list A) : list A :=
  match l with
  | _ :: y :: r => y :: odds r
  | _ => []
  end.

(** [st'] is [st] with the [lifecycleHooks] and [elementEventHandlers]
    entries of the nodes [ids] deleted, and their [eventHandlers] entries
    too when an [EventSystem] is attached. *)
Definition clears (st st' : vstate) (ids : list nat) : Prop :=
  has_es st' = has_es st /\
  forall id,
    (forall ty, handlers_for (handlers st') id ty =
                (if has_es st && existsb (Nat.eqb id) ids then [] else handlers_for (handlers st) id ty)) /\
    nget id (hooks st') = (if existsb (Nat.eqb id) ids then None else nget id (hooks st)) /\
    nget id (tracked st') = (if existsb (Nat.eqb id) ids then None else nget id (tracked st)).

End VDomPreds.

(** * Proofs about the builder *)
Module BuilderFacts.
Import Builder.

Lemma flatten_child_leaves : forall c, flatten_child c = filter renders (leaves_of c).
Proof.
  fix IH 1. intros c. destruct c as [| |b|z|s|f|fs|xs|v|t p k ch]; try reflexivity.
  - destruct b; reflexivity.
  - simpl. revert xs. fix IHl 1. intros [|x xs]; [reflexivity|].
    simpl. rewrite IH, IHl, filter_app. reflexivity.
Qed.

Lemma flattenChildren_leaves : forall cs, flattenChildren cs = filter renders (leaves cs).
Proof.
  unfold flattenChildren, leaves. induction cs as [|c cs IHcs]; [reflexivity|].
  simpl. rewrite flatten_child_leaves, IHcs, filter_app. reflexivity.
Qed.

Lemma leaves_app : forall l1 l2, leaves (l1 ++ l2) = leaves l1 ++ leaves l2.
Proof. intros. unfold leaves. rewrite map_app, concat_app. reflexivity. Qed.

Lemma leaves_flat1 : forall cs, leaves (flat1 cs) = leaves cs.
Proof.
  induction cs as [|c cs IHcs]; [reflexivity|].
  unfold flat1 in *. simpl. rewrite leaves_app, IHcs.
  destruct c; simpl; try reflexivity.
Qed.

Lemma list_nesting_cons : forall c cs,
  list_nesting (c :: cs) = Nat.max (nesting c) (list_nesting cs).
Proof. reflexivity. Qed.

Lemma list_nesting_app : forall l1 l2,
  list_nesting (l1 ++ l2) = Nat.max (list_nesting l1) (list_nesting l2).
Proof.
  induction l1 as [|c l1 IH]; intros l2; [reflexivity|].
  simpl app. rewrite !list_nesting_cons, IH. lia.
Qed.

Lemma nesting_arr : forall xs, nesting (JArr xs) = S (list_nesting xs).
Proof. reflexivity. Qed.

Lemma flat1_cons : forall c cs,
  flat1 (c :: cs) = match c with JArr xs => xs | _ => [c] end ++ flat1 cs.
Proof. reflexivity. Qed.

Lemma list_nesting_flat1 : forall cs, list_nesting (flat1 cs) <= pred (list_nesting cs).
Proof.
  induction cs as [|c cs IHcs]; [simpl; lia|].
  rewrite flat1_cons, list_nesting_app, list_nesting_cons.
  destruct c; try (simpl nesting; simpl list_nesting at 1; lia).
  rewrite nesting_arr. lia.
Qed.

Lemma leaves_flat : forall cs, list_nesting cs = 0 -> leaves cs = cs.
Proof.
  induction cs as [|c cs IHcs]; intros H; [reflexivity|].
  rewrite list_nesting_cons in H.
  unfold leaves in *. simpl. rewrite IHcs by lia.
  destruct c; try reflexivity. rewrite nesting_arr in H. lia.
Qed.

Lemma iter_flat1 : forall n cs, list_nesting cs <= n ->
  leaves (Nat.iter n flat1 cs) = leaves cs /\ list_nesting (Nat.iter n flat1 cs) = 0.
Proof.
  induction n as [|n IH]; intros cs H.
  - simpl. split; [reflexivity|lia].
  - rewrite Nat.iter_succ_r.
    pose proof (list_nesting_flat1 cs).
    destruct (IH (flat1 cs)) as [H1 H2]; [lia|].
    split; [rewrite H1, leaves_flat1; reflexivity|exact H2].
Qed.

(** C9: children are flattened level by level into one ordered sequence
    (the code's recursive [flattenChildren] agrees with the spec's
    level-by-level flattening followed by dropping [null], [undefined] and
    [false]); no array, [null], [undefined], [false], string or number is
    left among the children of the built [VNode]: strings and numbers have
    become text leaves. *)
Theorem createElement_children_normalised :
  forall (tag : jsval) (fields : list (string * jsval)) (children : list jsval),
    flattenChildren children = spec_flatten children /\
    (exists key, createElement (tag :: JObj fields :: children) =
                 Some (JVNode tag (JObj fields) key (map coerce_child (spec_flatten children)))) /\
    Forall (fun c => match c with
                     | JArr _ | JNull | JUndef | JBool false | JStr _ | JNum _ => False
                     | _ => True end)
           (map coerce_child (flattenChildren children)).
Proof.
  intros tag fields children.
  assert (Hspec : flattenChildren children = spec_flatten children).
  { unfold spec_flatten. rewrite flattenChildren_leaves.
    destruct (iter_flat1 (list_nesting children) children (le_n _)) as [H1 H2].
    rewrite <- H1, (leaves_flat _ H2). reflexivity. }
  split; [exact Hspec|split].
  - eexists. rewrite <- Hspec. destruct tag; reflexivity.
  - rewrite flattenChildren_leaves. apply Forall_map.
    apply Forall_forall. intros c Hc. apply filter_In in Hc as [Hin Hr].
    assert (Hleaf : forall d x, In x (leaves_of d) -> match x with JArr _ => False | _ => True end).
    { fix IH 1. intros d x Hx. destruct d; simpl in Hx;
        try (destruct Hx as [<-|[]]; exact I).
      revert xs Hx. fix IHl 1. intros [|y ys] Hx; [destruct Hx|].
      simpl in Hx. apply in_app_or in Hx as [Hx|Hx]; [exact (IH y x Hx)|exact (IHl ys Hx)]. }
    unfold leaves in Hin. apply in_concat in Hin as [l [Hl Hx]].
    apply in_map_iff in Hl as [d [<- _]].
    specialize (Hleaf d c Hx).
    destruct c as [| |[]|z|s|f|fs|xs|v|t p k ch]; simpl in *; try discriminate; tauto.
Qed.

(** C10: a single string argument builds a text leaf carrying that string;
    the same string with a props object builds an element with that tag. *)
Theorem createElement_single_string_is_text : forall s : string,
  createElement [JStr s] = Some (JText s) /\
  createElement [JStr s; JObj []] = Some (JVNode (JStr s) (JObj []) JNull []).
Proof. intros s. split; reflexivity. Qed.

End BuilderFacts.

(** * Proofs about event dispatch *)
Module DispatchFacts.
Import VDom Dispatch.

Section WithCall.
Variable call : nat -> nat -> result unit.

Lemma for_each_handler_ok : forall el hs s,
  for_each_handler call el hs s =
  Ok (mkD (invoked s ++ map (fun h => (el, h)) hs)
          (console s ++ List.concat (map (fun h => match call h el with
                                                   | Ok _ => [] | Exn e => [e] end) hs))).
Proof.
  intros el hs. induction hs as [|h hs IH]; intros s.
  - simpl. rewrite !app_nil_r. destruct s; reflexivity.
  - simpl. destruct (call h el) as [u|e]; simpl; rewrite IH; simpl;
      rewrite <- !app_assoc; reflexivity.
Qed.

Lemma walk_ok : forall m ty chain s,
  walk call m ty chain s =
  Ok (mkD (invoked s ++ all_calls m ty chain) (console s ++ thrown call m ty chain)).
Proof.
  intros m ty chain. induction chain as [|el up IH]; intros s.
  - simpl. rewrite !app_nil_r. destruct s; reflexivity.
  - simpl. rewrite for_each_handler_ok. simpl. rewrite IH. simpl.
    unfold all_calls, thrown. simpl. rewrite <- !app_assoc. reflexivity.
Qed.

(** C8: whatever the handlers throw, the direct-dispatch walk returns
    normally, every handler registered at the origin and at every ancestor
    is invoked in order, and each thrown error is logged once. *)
Theorem handleDirectEvents_isolates_exceptions : forall m ty chain,
  handleDirectEvents call m ty chain =
  Ok (mkD (all_calls m ty chain) (thrown call m ty chain)).
Proof. intros. unfold handleDirectEvents. rewrite walk_ok. reflexivity. Qed.

End WithCall.
End DispatchFacts.

(** * Proofs about the reconciler *)
Module VDomFacts.
Import VDom VDomPreds.

(** ** State growth *)

Lemma grows_refl : forall P T st, grows P T st st.
Proof.
  intros. unfold grows. repeat split; try lia.
  - exists []. rewrite app_nil_r. auto.
  - exists []. rewrite app_nil_r. auto.
Qed.

Lemma grows_trans : forall P T a b c, grows P T a b -> grows P T b c -> grows P T a c.
Proof.
  unfold grows. intros P T a b c (H1 & H2 & H3 & [d1 [H4 H4']] & [t1 [H5 H5']])
                           (G1 & G2 & G3 & [d2 [G4 G4']] & [t2 [G5 G5']]).
  repeat split; try lia; try congruence.
  - exists (d1 ++ d2). rewrite G4, H4, app_assoc. split; [reflexivity|]. apply Forall_app; auto.
  - exists (t1 ++ t2). rewrite G5, H5, app_assoc. split; [reflexivity|]. apply Forall_app; auto.
Qed.

Lemma grows_mono : forall (P Q : mutation -> Prop) (T U : tevent -> Prop) a b,
  (forall m, P m -> Q m) -> (forall e, T e -> U e) -> grows P T a b -> grows Q U a b.
Proof.
  unfold grows. intros P Q T U a b HPQ HTU (H1 & H2 & H3 & [d [H4 H4']] & [t [H5 H5']]).
  repeat split; auto.
  - exists d. split; auto. eapply Forall_impl; eauto.
  - exists t. split; auto. eapply Forall_impl; eauto.
Qed.

Lemma grows_emit : forall (P : mutation -> Prop) T m st, P m -> grows P T st (emit m st).
Proof.
  intros. unfold grows, emit; simpl. repeat split; auto.
  - exists [m]. auto.
  - exists []. rewrite app_nil_r. auto.
Qed.

Lemma grows_note : forall P (T : tevent -> Prop) e st, T e -> grows P T st (note e st).
Proof.
  intros. unfold grows, note; simpl. repeat split; auto.
  - exists []. rewrite app_nil_r. auto.
  - exists [e]. auto.
Qed.

Ltac grows_field :=
  intros; unfold grows; simpl; repeat split; auto;
  [exists []; rewrite app_nil_r; auto | exists []; rewrite app_nil_r; auto].

Lemma grows_bump : forall P T st, grows P T st (bump st).
Proof. grows_field. Qed.
Lemma grows_set_handlers : forall P T h st, grows P T st (set_handlers h st).
Proof. grows_field. Qed.
Lemma grows_set_tracked : forall P T h st, grows P T st (set_tracked h st).
Proof. grows_field. Qed.
Lemma grows_set_native : forall P T h st, grows P T st (set_native h st).
Proof. grows_field. Qed.
Lemma grows_set_hooks : forall P T h st, grows P T st (set_hooks h st).
Proof. grows_field. Qed.

Create HintDb grows_db.
#[export] Hint Resolve grows_refl grows_bump grows_set_handlers grows_set_tracked
  grows_set_native grows_set_hooks : grows_db.

(** Chains a growth step: [grows P T a b] from [grows P T a c] and
    [grows P T c b]. *)
Ltac step c := apply (grows_trans _ _ _ c).


Ltac gstep :=
  match goal with
  | |- grows _ _ ?a ?a => apply grows_refl
  | |- grows _ _ ?a (emit ?m ?b) => apply (grows_trans _ _ a b); [|apply grows_emit]
  | |- grows _ _ ?a (note ?e ?b) => apply (grows_trans _ _ a b); [|apply grows_note]
  | |- grows _ _ ?a (bump ?b) => apply (grows_trans _ _ a b); [|apply grows_bump]
  | |- grows _ _ ?a (set_handlers ?h ?b) => apply (grows_trans _ _ a b); [|apply grows_set_handlers]
  | |- grows _ _ ?a (set_tracked ?h ?b) => apply (grows_trans _ _ a b); [|apply grows_set_tracked]
  | |- grows _ _ ?a (set_native ?h ?b) => apply (grows_trans _ _ a b); [|apply grows_set_native]
  | |- grows _ _ ?a (set_hooks ?h ?b) => apply (grows_trans _ _ a b); [|apply grows_set_hooks]
  end.

Ltac ap := unfold AP, attr_level, no_live_prop_attr; simpl; auto.

Lemma live_prop_name_prefix : forall key,
  starts_with "data-" key || starts_with "aria-" key = true -> live_prop_name key = false.
Proof.
  intros key H. destruct (live_prop_name key) eqn:E; [|reflexivity].
  unfold live_prop_name in E.
  repeat (apply orb_true_iff in E as [E|E]);
    apply String.eqb_eq in E; subst; simpl in H; discriminate.
Qed.


Lemma aget_aset_other : forall {V} k k' (v : V) l, k <> k' -> aget k (aset k' v l) = aget k l.
Proof.
  intros V k k' v l Hk. induction l as [|[k0 v0] l IH]; simpl.
  - apply String.eqb_neq in Hk. rewrite Hk. reflexivity.
  - destruct (String.eqb k' k0) eqn:E.
    + apply String.eqb_eq in E. subst k0. simpl.
      apply String.eqb_neq in Hk. rewrite Hk. reflexivity.
    + simpl. rewrite IH. reflexivity.
Qed.

Lemma aget_adel_None : forall {V} k k' (l : list (string * V)),
  aget k l = None -> aget k (adel k' l) = None.
Proof.
  intros V k k' l. induction l as [|[k0 v0] l IH]; simpl; intros H; [reflexivity|].
  destruct (String.eqb k k0) eqn:E; [discriminate|].
  destruct (negb (String.eqb k' k0)); simpl; [rewrite E|]; auto.
Qed.

Lemma aget_None_Forall : forall {V} k (l : list (string * V)),
  aget k l = None -> Forall (fun kv => fst kv <> k) l.
Proof.
  intros V k l. induction l as [|[k0 v0] l IH]; simpl; intros H; constructor.
  - simpl. intros E. subst k0. rewrite String.eqb_refl in H. discriminate.
  - destruct (String.eqb k k0); [discriminate|auto].
Qed.

Lemma aget_In : forall {V} k (v : V) l, aget k l = Some v -> In (k, v) l.
Proof.
  intros V k v l. induction l as [|[k0 v0] l IH]; simpl; intros H; [discriminate|].
  destruct (String.eqb k k0) eqn:E; [|right; auto].
  apply String.eqb_eq in E. subst k0. injection H as <-. left; reflexivity.
Qed.

Lemma nget_nset_eq : forall {V} k (v : V) m, nget k (nset k v m) = Some v.
Proof.
  intros V k v m. induction m as [|[k' v'] m IH]; simpl; [rewrite Nat.eqb_refl; reflexivity|].
  destruct (Nat.eqb k k') eqn:E; simpl; [rewrite Nat.eqb_refl; reflexivity|rewrite E; exact IH].
Qed.

Lemma nget_nset_neq : forall {V} k k' (v : V) m, k <> k' -> nget k (nset k' v m) = nget k m.
Proof.
  intros V k k' v m Hk. apply Nat.eqb_neq in Hk.
  induction m as [|[k0 v0] m IH]; simpl; [rewrite Hk; reflexivity|].
  destruct (Nat.eqb k' k0) eqn:E; simpl.
  - apply Nat.eqb_eq in E. subst k0. rewrite Hk. reflexivity.
  - rewrite IH. reflexivity.
Qed.

Lemma nset_nset : forall {V} k (v w : V) m, nset k v (nset k w m) = nset k v m.
Proof.
  intros V k v w m. induction m as [|[k' v'] m IH]; simpl; [rewrite Nat.eqb_refl; reflexivity|].
  destruct (Nat.eqb k k') eqn:E; simpl; rewrite ?Nat.eqb_refl, ?E; [reflexivity|rewrite IH; reflexivity].
Qed.

Lemma replace_nth_length : forall {A} i (x : A) l, List.length (replace_nth i x l) = List.length l.
Proof. intros A i x l. revert i. induction l as [|y l IH]; intros [|i]; simpl; auto. Qed.

Lemma nth_replace_nth_eq : forall {A} i (x : A) l, i < List.length l -> nth_error (replace_nth i x l) i = Some x.
Proof.
  intros A i x l. revert i. induction l as [|y l IH]; intros [|i] H; simpl in *; try lia; auto.
  apply IH. lia.
Qed.

Lemma nth_replace_nth_neq : forall {A} i j (x : A) l, j <> i -> nth_error (replace_nth i x l) j = nth_error l j.
Proof.
  intros A i j x l. revert i j. induction l as [|y l IH]; intros [|i] [|j] H; simpl; auto; try lia.
  all: try (apply IH; lia).
Qed.

Section Host.
Variable ie : string -> string -> bool.

Lemma listen_grows : forall (P : mutation -> Prop) T st el ty h,
  P (MListen el ty h) -> grows P T st (listen st el ty h).
Proof.
  intros. unfold listen. destruct (has_es st); repeat gstep; auto.
Qed.

Lemma unlisten_grows : forall (P : mutation -> Prop) T st el ty h,
  P (MUnlisten el ty h) -> grows P T st (unlisten st el ty h).
Proof.
  intros. unfold unlisten. destruct (has_es st).
  - destruct (nget el (tracked st)); [|gstep].
    destruct (find_index _ _); repeat gstep; auto.
  - repeat gstep; auto.
Qed.

Lemma set_plain_grows : forall T st id tag ea key v,
  grows AP T st (fst (set_plain ie st id tag ea key v)).
Proof.
  intros. unfold set_plain, set_property, set_attribute, remove_attribute.
  destruct (String.eqb key "checked" || String.eqb key "value" || String.eqb key "selected") eqn:E.
  - simpl. gstep; [gstep|ap].
  - destruct (is_boolean v); [destruct (truthy v)|destruct (ie tag key)];
      simpl; gstep; try gstep; ap.
Qed.

Lemma set_prop_entry_grows : forall T st id tag ea kv,
  grows AP T st (fst (set_prop_entry ie id tag (st, ea) kv)).
Proof.
  intros T st id tag ea [key value]. unfold set_prop_entry.
  unfold set_property, assign_style, set_attribute.
  destruct (String.eqb key "className"); [simpl; gstep; [gstep|ap]|].
  destruct (String.eqb key "style" && is_object value); [simpl; gstep; [gstep|ap]|].
  destruct (starts_with "on" key && is_function value); [apply listen_grows; ap|].
  destruct (starts_with "data-" key || starts_with "aria-" key) eqn:E.
  { simpl. gstep; [gstep|]. split; [exact I|]. simpl. apply live_prop_name_prefix; exact E. }
  destruct (String.eqb key "autofocus" || String.eqb key "autoFocus").
  { destruct (truthy value); simpl; [gstep; [gstep|ap]|gstep]. }
  destruct (String.eqb key "htmlFor"); [simpl; gstep; [gstep|ap]|].
  destruct (String.eqb key "onMount" || String.eqb key "onUnmount"); [simpl; gstep|].
  destruct (negb (String.eqb key "key") && negb (String.eqb key "children"));
    [apply set_plain_grows|simpl; gstep].
Qed.

Lemma fold_grows : forall {A} (f : vstate * eattrs -> A -> vstate * eattrs) P T,
  (forall st ea x, grows P T st (fst (f (st, ea) x))) ->
  forall l st ea, grows P T st (fst (fold_left f l (st, ea))).
Proof.
  intros A f P T Hf l. induction l as [|x l IH]; intros st ea; [apply grows_refl|].
  simpl. pose proof (Hf st ea x) as H. destruct (f (st, ea) x) as [st1 ea1].
  eapply grows_trans; [exact H|apply IH].
Qed.

Lemma setProps_grows : forall T props st id tag ea,
  grows AP T st (fst (setProps ie st id tag ea props)).
Proof.
  intros. unfold setProps.
  apply (fold_grows _ AP T (fun st ea kv => set_prop_entry_grows T st id tag ea kv)).
Qed.

Lemma remove_prop_entry_grows : forall T st id ea newProps oldProps key,
  grows AP T st (fst (remove_prop_entry id newProps oldProps (st, ea) key)).
Proof.
  intros. unfold remove_prop_entry, set_property, remove_attribute.
  destruct (ahas key newProps); [apply grows_refl|].
  destruct (String.eqb key "className"); [simpl; gstep; [gstep|ap]|].
  destruct (String.eqb key "style"); [simpl; gstep; [gstep|ap]|].
  destruct (starts_with "on" key && is_function _); [apply unlisten_grows; ap|].
  destruct (_ && negb (String.eqb key "onUnmount")); simpl; [gstep; [gstep|ap]|gstep].
Qed.

Lemma update_prop_entry_grows : forall T st id tag ea oldProps kv,
  grows AP T st (fst (update_prop_entry ie id tag oldProps (st, ea) kv)).
Proof.
  intros T st0 id tag ea oldProps [key value]. unfold update_prop_entry.
  destruct (strict_eq _ value); [apply grows_refl|].
  cbv zeta.
  match goal with |- context [if ?c then unlisten ?a ?b ?x ?y else ?a] =>
    assert (Hst : grows AP T st0 (if c then unlisten a b x y else a))
      by (destruct c; [apply unlisten_grows; ap|apply grows_refl]);
    generalize dependent (if c then unlisten a b x y else a) end.
  intros st Hst. eapply grows_trans; [exact Hst|].
  unfold set_property, assign_style, set_attribute, remove_attribute.
  destruct (String.eqb key "className"); [simpl; gstep; [gstep|ap]|].
  destruct (String.eqb key "style" && is_object value); [simpl; gstep; [gstep|ap]|].
  destruct (starts_with "on" key && is_function value); [apply listen_grows; ap|].
  destruct (starts_with "data-" key || starts_with "aria-" key) eqn:E.
  { simpl. gstep; [gstep|]. split; [exact I|]. simpl. apply live_prop_name_prefix; exact E. }
  destruct (String.eqb key "autofocus" || String.eqb key "autoFocus").
  { destruct (truthy value); simpl; gstep; try gstep; ap. }
  destruct (String.eqb key "htmlFor"); [simpl; gstep; [gstep|ap]|].
  destruct (String.eqb key "onMount" || String.eqb key "onUnmount").
  { destruct (match nget id (hooks st) with Some h => h | None => _ end) as [m u].
    simpl. gstep. gstep. }
  destruct (negb (String.eqb key "key") && negb (String.eqb key "children"));
    [apply set_plain_grows|simpl; gstep].
Qed.

Lemma updateProps_grows : forall T st id tag ea newProps oldProps,
  grows AP T st (fst (updateProps ie st id tag ea newProps oldProps)).
Proof.
  intros. unfold updateProps.
  pose proof (fold_grows _ AP T (fun st ea k => remove_prop_entry_grows T st id ea newProps oldProps k)
                (map fst oldProps) st ea) as H1.
  destruct (fold_left _ (map fst oldProps) (st, ea)) as [st1 ea1]. simpl in H1.
  eapply grows_trans; [exact H1|].
  apply (fold_grows _ AP T (fun st ea kv => update_prop_entry_grows T st id tag ea oldProps kv)).
Qed.

Ltac dataid_solve :=
  repeat match goal with
         | |- context [if ?c then _ else _] => destruct c
         | |- context [let '(_, _) := ?p in _] => destruct p
         end; simpl; auto;
  try (rewrite aget_aset_other; [assumption|discriminate||congruence]);
  try (apply aget_adel_None; assumption).

Lemma set_prop_entry_dataid : forall st id tag ea kv,
  fst kv <> "data-id" -> aget "data-id" (attrs ea) = None ->
  aget "data-id" (attrs (snd (set_prop_entry ie id tag (st, ea) kv))) = None.
Proof.
  intros st id tag ea [key value] Hk H. simpl in Hk.
  unfold set_prop_entry, set_plain, set_property, assign_style, set_attribute, remove_attribute.
  dataid_solve.
Qed.

Lemma setProps_dataid : forall props st id tag ea,
  aget "data-id" props = None -> aget "data-id" (attrs ea) = None ->
  aget "data-id" (attrs (snd (setProps ie st id tag ea props))) = None.
Proof.
  intros props st id tag ea Hp. apply aget_None_Forall in Hp. unfold setProps.
  revert st ea. induction Hp as [|kv props Hkv Hp IH]; intros st ea H; [exact H|].
  cbn [fold_left]. pose proof (set_prop_entry_dataid st id tag ea kv Hkv H) as H1.
  destruct (set_prop_entry ie id tag (st, ea) kv) as [st1 ea1]. apply IH. exact H1.
Qed.

Lemma createDOMElement_spec : forall v st,
  grows no_live_prop_attr (fun _ => False) st (fst (createDOMElement ie st v)) /\
  dom_id (snd (createDOMElement ie st v)) = next_id st /\
  next_id st < next_id (fst (createDOMElement ie st v)) /\
  corresponds v (snd (createDOMElement ie st v)).
Proof.
  fix IH 1. intros v st. destruct v as [s | o tag p ch].
  - simpl. refine (conj _ (conj _ (conj _ _))); [repeat gstep; exact I|reflexivity|simpl; lia|constructor].
  - cbn [createDOMElement].
    set (nid := next_id st).
    pose proof (setProps_grows (fun _ => False) p (emit (MCreateElement nid tag) (bump st)) nid tag empty_ea) as Hsp.
    pose proof (setProps_dataid p (emit (MCreateElement nid tag) (bump st)) nid tag empty_ea) as Hdi.
    destruct (setProps ie (emit (MCreateElement nid tag) (bump st)) nid tag empty_ea p) as [st2 ea] eqn:Esp.
    simpl in Hsp, Hdi.
    match goal with |- context [?F ?s3 ch []] => is_fix F; set (LOOP := F);
      assert (Hs3 : grows no_live_prop_attr (fun _ => False) st2 s3)
        by (destruct (aget "onMount" p) as [m|]; [destruct (truthy m && is_function m)|]; repeat gstep);
      generalize dependent s3 end.
    intros s3 Hs3.
    assert (Hloop : forall s acc, grows no_live_prop_attr (fun _ => False) s (fst (LOOP s ch acc)) /\
                                  exists ks, snd (LOOP s ch acc) = acc ++ ks /\ Forall2 corresponds ch ks).
    { subst LOOP. clear - IH. revert ch. fix IHl 1. intros [|c cs] s acc.
      - simpl. split; [apply grows_refl|exists []; rewrite app_nil_r; auto].
      - cbn [fst snd]. pose proof (IH c s) as (G1 & G2 & G3 & G4).
        destruct (createDOMElement ie s c) as [s1 d1]. simpl in G1, G2, G3, G4.
        destruct (IHl cs (emit (MAppendChild nid (dom_id d1)) s1) (acc ++ [d1])) as [L1 [ks [L2 L3]]].
        split.
        + eapply grows_trans; [exact G1|]. eapply grows_trans; [|exact L1]. repeat gstep; exact I.
        + exists (d1 :: ks). rewrite L2, <- app_assoc. split; [reflexivity|constructor; auto]. }
    destruct (Hloop s3 []) as [L1 [ks [L2 L3]]].
    destruct (LOOP s3 ch []) as [st4 kids]. simpl in L1, L2 |- *. subst kids.
    assert (Hst2 : grows no_live_prop_attr (fun _ => False) st st2).
    { eapply grows_trans; [|eapply grows_mono; [| |exact Hsp]].
      - repeat gstep; exact I.
      - intros m [_ Hm]; exact Hm.
      - auto. }
    refine (conj _ (conj _ (conj _ _))).
    + eapply grows_trans; [exact Hst2|]. eapply grows_trans; [exact Hs3|exact L1].
    + reflexivity.
    + destruct Hsp as [Hn _]. destruct Hs3 as [Hn3 _]. destruct L1 as [Hn4 _].
      simpl in Hn. unfold nid in *. lia.
    + constructor; [|exact L3]. intros Hp. apply Hdi; auto.
Qed.


Lemma cleanupElement_spec : forall d st,
  grows unlisten_all (fun _ => True) st (cleanupElement st d) /\
  next_id (cleanupElement st d) = next_id st /\
  exists t, trace (cleanupElement st d) = trace st ++ TCleanup (dom_id d) :: t.
Proof.
  fix IH 1. intros d st.
  assert (Hpre : forall st0, let st1 := note (TCleanup (dom_id d)) st0 in
    let st2 := match nget (dom_id d) (hooks st1) with
               | Some (_, u) => if truthy u && is_function u then note (TUnmount (dom_id d) (fun_id u)) st1 else st1
               | None => st1 end in
    let st3 := set_hooks (ndel (dom_id d) (hooks st2)) st2 in
    let st4 := if has_es st3 then emit (MUnlistenAll (dom_id d)) (set_handlers (es_off_all (handlers st3) (dom_id d)) st3) else st3 in
    let st5 := set_tracked (ndel (dom_id d) (tracked st4)) st4 in
    grows unlisten_all (fun _ => True) st0 st5 /\ next_id st5 = next_id st0 /\
    exists t, trace st5 = trace st0 ++ TCleanup (dom_id d) :: t).
  { intros st0. cbv zeta.
    destruct (nget (dom_id d) (hooks (note (TCleanup (dom_id d)) st0))) as [[m u]|];
      [destruct (truthy u && is_function u)|];
      (destruct (has_es _); [split; [repeat gstep; try exact I; eexists; reflexivity|split; [reflexivity|]]
                            |split; [repeat gstep; try exact I|split; [reflexivity|]]]);
      simpl; eexists; try rewrite <- app_assoc; reflexivity. }
  destruct d as [id s | id tag ea kids].
  - exact (Hpre st).
  - cbn [cleanupElement]. cbv zeta in Hpre |- *.
    match goal with |- context [?F ?s5 kids] => is_fix F; set (LOOP := F);
      pose proof (Hpre st) as Hs5; generalize dependent s5 end.
    intros s5 Hs5.
    assert (Hloop : forall s, grows unlisten_all (fun _ => True) s (LOOP s kids) /\
                              next_id (LOOP s kids) = next_id s /\
                              exists t, trace (LOOP s kids) = trace s ++ t).
    { subst LOOP. clear - IH. revert kids. fix IHl 1. intros [|k ks] s.
      - simpl. split; [apply grows_refl|split; [reflexivity|exists []; rewrite app_nil_r; auto]].
      - cbn. destruct (IHl ks (if is_elem k then cleanupElement s k else s)) as (L1 & L2 & [t L3]).
        assert (Hk : grows unlisten_all (fun _ => True) s (if is_elem k then cleanupElement s k else s) /\
                     next_id (if is_elem k then cleanupElement s k else s) = next_id s /\
                     exists t, trace (if is_elem k then cleanupElement s k else s) = trace s ++ t).
        { destruct (is_elem k).
          - destruct (IH k s) as (K1 & K2 & [t' K3]). split; [exact K1|split; [exact K2|]].
            exists (TCleanup (dom_id k) :: t'). exact K3.
          - split; [apply grows_refl|split; [reflexivity|exists []; rewrite app_nil_r; auto]]. }
        destruct Hk as (K1 & K2 & [t' K3]).
        split; [eapply grows_trans; eauto|split; [congruence|]].
        exists (t' ++ t). rewrite L3, K3, app_assoc. reflexivity. }
    destruct Hs5 as (H1 & H2 & [t H3]). destruct (Hloop s5) as (L1 & L2 & [t' L3]).
    split; [eapply grows_trans; eauto|split; [congruence|]].
    exists (t ++ t'). rewrite L3, H3, <- app_assoc. reflexivity.
Qed.

Lemma createDOMElement_grows : forall v st,
  grows no_live_prop_attr (fun _ => True) st (fst (createDOMElement ie st v)).
Proof.
  intros v st. destruct (createDOMElement_spec v st) as [H _].
  eapply grows_mono; [| |exact H]; auto.
Qed.

Lemma cleanupElement_grows : forall d st,
  grows no_live_prop_attr (fun _ => True) st (cleanupElement st d).
Proof.
  intros d st. destruct (cleanupElement_spec d st) as [H _].
  apply (grows_mono unlisten_all _ (fun _ => True)); [intros m [i ->]; exact I|auto|exact H].
Qed.

Lemma updateProps_grows_NL : forall st id tag ea newProps oldProps,
  grows no_live_prop_attr (fun _ => True) st (fst (updateProps ie st id tag ea newProps oldProps)).
Proof.
  intros. apply (grows_mono AP _ (fun _ => True)); [intros m [_ H]; exact H|auto|apply updateProps_grows].
Qed.

Lemma updateElement_body_grows : forall rc, rc_grows rc ->
  forall st pid kids n o i,
  grows no_live_prop_attr (fun _ => True) st (fst (updateElement_body ie rc st pid kids n o i)).
Proof.
  intros rc Hrc st pid kids n o i. unfold updateElement_body.
  destruct n as [nn|].
  2:{ destruct (nth_error kids i) as [node|]; [|apply grows_refl].
      simpl. gstep; [apply cleanupElement_grows|exact I]. }
  destruct o as [on|].
  2:{ pose proof (createDOMElement_grows nn st) as Hc.
    destruct (createDOMElement ie st nn) as [st1 el]. simpl in Hc.
    destruct (nth_error kids i); simpl; gstep; auto; exact I. }
  destruct (hasNodeChanged nn on).
  { destruct (nth_error kids i) as [oldEl|].
    - pose proof (cleanupElement_grows oldEl st) as Hc.
      pose proof (createDOMElement_grows nn (cleanupElement st oldEl)) as Hd.
      destruct (createDOMElement ie (cleanupElement st oldEl) nn) as [st2 el]. simpl in Hd |- *.
      gstep; [eapply grows_trans; eauto|exact I].
    - pose proof (createDOMElement_grows nn st) as Hc.
      destruct (createDOMElement ie st nn) as [st1 el]. simpl in Hc |- *. gstep; auto; exact I. }
  destruct (vvalue nn) as [nv|].
  { destruct (negb _); [|apply grows_refl].
    destruct (nth_error kids i) as [node|]; [|apply grows_refl].
    unfold set_text_content. destruct node as [nid t|nid tag ea ks].
    - simpl. gstep; [gstep|exact I].
    - destruct (String.eqb nv ""); simpl; repeat gstep; exact I. }
  destruct (nth_error kids i) as [[nid t|eid etag ea ekids]|]; try apply grows_refl.
  pose proof (updateProps_grows_NL st eid etag ea (vprops nn) (vprops on)) as H1.
  destruct (updateProps ie st eid etag ea (vprops nn) (vprops on)) as [st1 ea'].
  pose proof (Hrc st1 eid ekids (vchildren nn) (vchildren on)) as H2.
  destruct (rc st1 eid ekids (vchildren nn) (vchildren on)) as [st2 ekids'].
  simpl in *. eapply grows_trans; eauto.
Qed.

Lemma fold_grows_gen : forall {A B} (proj : A -> vstate) (g : A -> B -> A) P T,
  (forall a x, grows P T (proj a) (proj (g a x))) ->
  forall l a, grows P T (proj a) (proj (fold_left g l a)).
Proof.
  intros A B proj g P T Hg l. induction l as [|x l IH]; intros a; [apply grows_refl|].
  simpl. eapply grows_trans; [apply Hg|apply IH].
Qed.

Lemma reconcileChildrenByIndex_grows : forall rc, rc_grows rc ->
  rc_grows (reconcileChildrenByIndex (updateElement_body ie rc)).
Proof.
  intros rc Hrc st pid kids nc oc. unfold reconcileChildrenByIndex.
  refine (fold_grows_gen fst (fun acc i => updateElement_body ie rc (fst acc) pid (snd acc)
                                 (nth_error nc i) (nth_error oc i) i) _ _ _ _ (st, kids)).
  intros [s k] i. apply updateElement_body_grows. exact Hrc.
Qed.

Lemma process_new_child_grows : forall rc, rc_grows rc -> forall okm odm a c,
  grows no_live_prop_attr (fun _ => True) (pst a) (pst (process_new_child ie rc okm odm a c)).
Proof.
  intros rc Hrc okm odm [[[[st kids] pool] processed] keyset] c.
  unfold process_new_child, pst. cbn [fst].
  destruct (match vkey c with Some k => kget k okm | None => None end) as [oc|];
  [destruct (match vkey c with Some k => kget k odm | None => None end) as [nid|]|].
  1: destruct (negb (same_object oc c)); [|apply grows_refl].
  1: destruct (find_by_id nid kids) as [[i t|eid etag ea ekids]|]; try apply grows_refl.
  1: { pose proof (updateProps_grows_NL st eid etag ea (vprops c) (vprops oc)) as H1.
       destruct (updateProps ie st eid etag ea (vprops c) (vprops oc)) as [st1 ea'].
       pose proof (Hrc st1 eid ekids (vchildren c) (vchildren oc)) as H2.
       destruct (rc st1 eid ekids (vchildren c) (vchildren oc)) as [st2 ekids'].
       simpl in *. eapply grows_trans; eauto. }
  all: pose proof (createDOMElement_grows c st) as H;
       destruct (createDOMElement ie st c) as [st1 el]; exact H.
Qed.

Lemma remove_old_child_grows : forall pid odm keyset a c,
  grows no_live_prop_attr (fun _ => True) (fst a) (fst (remove_old_child pid odm keyset a c)).
Proof.
  intros pid odm keyset [st kids] c. unfold remove_old_child. cbn [fst].
  destruct (vkey c) as [k|]; [|apply grows_refl].
  destruct (key_in k keyset); [apply grows_refl|].
  destruct (kget k odm) as [nid|]; [|apply grows_refl].
  destruct (find_by_id nid kids) as [node|]; [|apply grows_refl].
  simpl. gstep; [apply cleanupElement_grows|exact I].
Qed.

Lemma place_node_grows : forall pid a nid,
  grows no_live_prop_attr (fun _ => True) (fst (fst (fst a))) (fst (fst (fst (place_node pid a nid)))).
Proof.
  intros pid [[[st kids] pool] index] nid. unfold place_node. cbn [fst].
  destruct (match nth_error kids index with Some c => _ | None => false end); [apply grows_refl|].
  destruct (find_by_id nid kids); [|destruct (find_by_id nid pool)];
    simpl; repeat gstep; exact I.
Qed.

Lemma reconcileChildrenWithKeys_grows : forall rc, rc_grows rc ->
  rc_grows (reconcileChildrenWithKeys ie rc).
Proof.
  intros rc Hrc st pid kids nc oc. unfold reconcileChildrenWithKeys.
  set (okm := build_oldKeyMap oc). set (odm := build_oldDomMap oc (filter is_elem kids)).
  pose proof (fold_grows_gen pst (process_new_child ie rc okm odm) _ _
                (process_new_child_grows rc Hrc okm odm) nc (st, kids, [], [], [])) as H1.
  destruct (fold_left (process_new_child ie rc okm odm) nc (st, kids, [], [], []))
    as [[[[st1 kids1] pool] processed] keyset].
  pose proof (fold_grows_gen fst (remove_old_child pid odm keyset) _ _
                (remove_old_child_grows pid odm keyset) oc (st1, kids1)) as H2.
  destruct (fold_left (remove_old_child pid odm keyset) oc (st1, kids1)) as [st2 kids2].
  pose proof (fold_grows_gen (fun a => fst (fst (fst a))) (place_node pid) _ _
                (place_node_grows pid) processed (st2, kids2, pool, 0)) as H3.
  destruct (fold_left (place_node pid) processed (st2, kids2, pool, 0)) as [[[st3 kids3] p3] i3].
  unfold pst in H1. simpl in *. eapply grows_trans; [exact H1|]. eapply grows_trans; eauto.
Qed.

Lemma reconcileChildren_grows : forall fuel, rc_grows (reconcileChildren ie fuel).
Proof.
  induction fuel as [|f IH]; intros st pid kids nc oc; [apply grows_refl|].
  simpl. destruct (existsb has_key nc || existsb has_key oc).
  - apply reconcileChildrenWithKeys_grows. exact IH.
  - apply reconcileChildrenByIndex_grows. exact IH.
Qed.

Lemma render_log : forall st c v,
  exists d, log (fst (render ie st c v)) = log st ++ d /\ Forall no_live_prop_attr d.
Proof.
  intros st c v. unfold render. destruct c as [i t|cid ctag cea ckids].
  - exists []. rewrite app_nil_r. auto.
  - assert (H : grows no_live_prop_attr (fun _ => True) st
                  (fst (match nget cid (trees st) with
                        | Some currentTree => updateElement ie (vdepth v) st cid ckids (Some v) (Some currentTree) 0
                        | None => let '(st1, el) := createDOMElement ie st v in
                                  (emit (MAppendChild cid (dom_id el)) (emit (MClearChildren cid) st1), [el])
                        end))).
    { destruct (nget cid (trees st)) as [cur|].
      - apply updateElement_body_grows, reconcileChildren_grows.
      - pose proof (createDOMElement_grows v st) as Hc.
        destruct (createDOMElement ie st v) as [st1 el]. simpl in *. repeat gstep; try exact I; exact Hc. }
    destruct (match nget cid (trees st) with Some _ => _ | None => _ end) as [st1 kids1].
    destruct H as (_ & _ & _ & [d [Hd Hf]] & _). exists d. simpl. split; assumption.
Qed.

Lemma listen_es : forall st el ty h, has_es st = true ->
  handlers (listen st el ty h) = es_on (handlers st) el ty h /\
  tracked (listen st el ty h) =
    nset el (match nget el (tracked st) with Some l => l | None => [] end ++ [(ty, h)]) (tracked st) /\
  has_es (listen st el ty h) = true /\ trees (listen st el ty h) = trees st.
Proof. intros st el ty h H. unfold listen. rewrite H. simpl. auto. Qed.

Lemma unlisten_es : forall st el ty h, has_es st = true -> nget el (tracked st) = Some [(ty, h)] ->
  handlers (unlisten st el ty h) = es_off (handlers st) el ty h /\
  has_es (unlisten st el ty h) = true /\ trees (unlisten st el ty h) = trees st /\
  nget el (tracked (unlisten st el ty h)) = Some [].
Proof.
  intros st el ty h H Ht. unfold unlisten. rewrite H, Ht. simpl.
  rewrite String.eqb_refl, Nat.eqb_refl. simpl. rewrite nget_nset_eq. auto.
Qed.

(** C7: an element rendered with [onClick] handler [h1] and re-rendered
    with handler [h2] keeps its live node and ends with exactly one
    registration for [(element, "click")], namely [h2]; a dispatched click
    at the element then invokes [h2] only. *)
Theorem updateProps_replaces_click_handler : forall st0 cid ctag cea ckids tag o1 o2 h1 h2,
  has_es st0 = true -> nget cid (trees st0) = None ->
  nget (next_id st0) (handlers st0) = None -> nget (next_id st0) (tracked st0) = None ->
  h1 <> h2 ->
  let '(st1, c1) := render ie st0 (DElem cid ctag cea ckids) (VElem o1 tag [("onClick", PFun h1)] []) in
  let '(st2, c2) := render ie st1 c1 (VElem o2 tag [("onClick", PFun h2)] []) in
  (exists ea, c2 = DElem cid ctag cea [DElem (next_id st0) tag ea []]) /\
  handlers_for (handlers st2) (next_id st0) "click" = [h2] /\
  forall call, exists s, Dispatch.handleDirectEvents call (handlers st2) "click" [next_id st0] = Dispatch.Ok s
                    /\ Dispatch.invoked s = [(next_id st0, h2)].
Proof.
  intros st0 cid ctag cea ckids tag o1 o2 h1 h2 Hes Htr Hh Ht Hne.
  apply Nat.eqb_neq in Hne. set (e := next_id st0) in *.
  set (v1 := VElem o1 tag [("onClick", PFun h1)] []).
  set (sA := listen (emit (MCreateElement e tag) (bump st0)) e "click" h1).
  set (st1 := set_trees (nset cid v1 (trees sA)) (emit (MAppendChild cid e) (emit (MClearChildren cid) sA))).
  assert (E1 : render ie st0 (DElem cid ctag cea ckids) v1 = (st1, DElem cid ctag cea [DElem e tag empty_ea []])).
  { unfold render. rewrite Htr. reflexivity. }
  rewrite E1. cbv iota beta.
  destruct (listen_es (emit (MCreateElement e tag) (bump st0)) e "click" h1 Hes) as (A1 & A2 & A3 & A4).
  fold sA in A1, A2, A3, A4.
  assert (Es1 : has_es st1 = true) by exact A3.
  assert (Ht1 : nget e (tracked st1) = Some [("click", h1)]).
  { change (tracked st1) with (tracked sA). rewrite A2. simpl. rewrite Ht. apply nget_nset_eq. }
  destruct (unlisten_es st1 e "click" h1 Es1 Ht1) as (B1 & B2 & B3 & B4).
  set (sB := unlisten st1 e "click" h1) in *.
  assert (E2 : render ie st1 (DElem cid ctag cea [DElem e tag empty_ea []]) (VElem o2 tag [("onClick", PFun h2)] []) =
               (set_trees (nset cid (VElem o2 tag [("onClick", PFun h2)] []) (trees (listen sB e "click" h2)))
                          (listen sB e "click" h2),
                DElem cid ctag cea [DElem e tag empty_ea []])).
  { unfold render. change (trees st1) with (nset cid v1 (trees sA)). rewrite nget_nset_eq.
    simpl. unfold hasNodeChanged. simpl. rewrite String.eqb_refl. simpl.
    unfold updateProps. simpl. rewrite Hne. reflexivity. }
  rewrite E2. cbv iota beta. split; [eexists; reflexivity|].
  assert (Hfor : handlers_for (handlers (set_trees (nset cid (VElem o2 tag [("onClick", PFun h2)] [])
                   (trees (listen sB e "click" h2))) (listen sB e "click" h2))) e "click" = [h2]).
  2:{ split; [exact Hfor|]. intros call. unfold Dispatch.handleDirectEvents. cbn [Dispatch.walk]. rewrite Hfor. simpl.
      destruct (call h2 e); eexists; split; reflexivity. }
  simpl. destruct (listen_es sB e "click" h2 B2) as (C1 & _). rewrite C1, B1.
  change (handlers st1) with (handlers sA). rewrite A1. simpl. unfold es_on at 2. rewrite Hh. simpl.
  unfold es_off. rewrite nget_nset_eq. simpl. rewrite Nat.eqb_refl. simpl.
  unfold es_on, handlers_for. rewrite nget_nset_eq. simpl. rewrite !nget_nset_eq. reflexivity.
Qed.

(** C5: no render, initial or update, ever writes [checked], [value] or
    [selected] as a string attribute; rendering an element with
    [checked: true] and then with [checked: false] sets the live [checked]
    property to [true] and then to [false], with no attribute written. *)
Theorem setProps_live_props_as_properties :
  (forall st c v, exists d, log (fst (render ie st c v)) = log st ++ d /\ Forall no_live_prop_attr d) /\
  (forall st0 cid ctag cea ckids tag o1 o2,
    nget cid (trees st0) = None ->
    let e := next_id st0 in
    let '(st1, c1) := render ie st0 (DElem cid ctag cea ckids) (VElem o1 tag [("checked", PBool true)] []) in
    let '(st2, c2) := render ie st1 c1 (VElem o2 tag [("checked", PBool false)] []) in
    c1 = DElem cid ctag cea [DElem e tag (mkEa [] [("checked", PBool true)] []) []] /\
    log st1 = log st0 ++ [MCreateElement e tag; MSetProperty e "checked" (PBool true);
                          MClearChildren cid; MAppendChild cid e] /\
    c2 = DElem cid ctag cea [DElem e tag (mkEa [] [("checked", PBool false)] []) []] /\
    log st2 = log st1 ++ [MSetProperty e "checked" (PBool false)]).
Proof.
  split; [exact render_log|].
  intros st0 cid ctag cea ckids tag o1 o2 Htr e.
  set (v1 := VElem o1 tag [("checked", PBool true)] []).
  set (sA := emit (MSetProperty e "checked" (PBool true)) (emit (MCreateElement e tag) (bump st0))).
  set (st1 := set_trees (nset cid v1 (trees st0)) (emit (MAppendChild cid e) (emit (MClearChildren cid) sA))).
  assert (E1 : render ie st0 (DElem cid ctag cea ckids) v1 =
               (st1, DElem cid ctag cea [DElem e tag (mkEa [] [("checked", PBool true)] []) []])).
  { unfold render. rewrite Htr. reflexivity. }
  rewrite E1. cbv iota beta.
  assert (E2 : render ie st1 (DElem cid ctag cea [DElem e tag (mkEa [] [("checked", PBool true)] []) []])
                 (VElem o2 tag [("checked", PBool false)] []) =
               (set_trees (nset cid (VElem o2 tag [("checked", PBool false)] []) (trees st1))
                          (emit (MSetProperty e "checked" (PBool false)) st1),
                DElem cid ctag cea [DElem e tag (mkEa [] [("checked", PBool false)] []) []])).
  { unfold render. change (trees st1) with (nset cid v1 (trees st0)). rewrite nget_nset_eq.
    simpl. unfold hasNodeChanged. simpl. rewrite String.eqb_refl. reflexivity. }
  rewrite E2. cbv iota beta. simpl. rewrite <- !app_assoc. auto.
Qed.

Lemma set_text_content_id : forall st node s, dom_id (snd (set_text_content st node s)) = dom_id node.
Proof.
  intros st [i t|i tag ea ks] s; simpl; [reflexivity|]. destruct (String.eqb s ""); reflexivity.
Qed.

Lemma hasNodeChanged_spec : forall n o, hasNodeChanged n o = differs_kind_tag_key n o.
Proof.
  intros [s|o1 t1 p1 c1] [t|o2 t2 p2 c2]; unfold hasNodeChanged; simpl; try reflexivity.
Qed.

(** C4: at a position holding a live node [x], patching old description
    [o] to new description [n] replaces the node exactly when the two
    differ in kind, tag or key: then [x] goes through [cleanupElement] and
    a node with a fresh identity takes its place, with a [replaceChild];
    otherwise the node keeps its identity.  Two text leaves with different
    strings only overwrite the live text, with a single [textContent]
    write and no cleanup.  The other positions are untouched. *)
Theorem updateElement_replacement_rule : forall fuel st pid kids n o i x,
  nth_error kids i = Some x -> dom_id x < next_id st ->
  let '(st', kids') := updateElement ie fuel st pid kids (Some n) (Some o) i in
  hasNodeChanged n o = differs_kind_tag_key n o /\
  List.length kids' = List.length kids /\
  (forall j, j <> i -> nth_error kids' j = nth_error kids j) /\
  exists y, nth_error kids' i = Some y /\
    (hasNodeChanged n o = true ->
       dom_id y <> dom_id x /\ next_id st <= dom_id y /\
       In (TCleanup (dom_id x)) (trace st') /\
       exists l, log st' = l ++ [MReplaceChild pid (dom_id y) (dom_id x)]) /\
    (hasNodeChanged n o = false -> dom_id y = dom_id x) /\
    (forall s t, n = VText s -> o = VText t -> x = DText (dom_id x) t -> s <> t ->
       y = DText (dom_id x) s /\ log st' = log st ++ [MSetTextContent (dom_id x) s] /\
       trace st' = trace st).
Proof.
  intros fuel st pid kids n o i x Hx Hlt.
  assert (Hi : i < List.length kids) by (apply nth_error_Some; congruence).
  unfold updateElement, updateElement_body. rewrite <- hasNodeChanged_spec.
  destruct (hasNodeChanged n o) eqn:Hc.
  - rewrite Hx.
    destruct (cleanupElement_spec x st) as (C1 & C2 & [t C3]).
    destruct (createDOMElement_spec n (cleanupElement st x)) as (D1 & D2 & D3 & D4).
    destruct (createDOMElement ie (cleanupElement st x) n) as [st2 el]. simpl in D1, D2, D3.
    split; [reflexivity|]. split; [apply replace_nth_length|].
    split; [intros j Hj; apply nth_replace_nth_neq; exact Hj|].
    exists el. split; [apply nth_replace_nth_eq; exact Hi|].
    split; [|split; [discriminate|intros s t' -> -> _ _; discriminate]].
    intros _. destruct D1 as (_ & _ & _ & _ & [t2 [T2 T2']]).
    assert (t2 = []) by (destruct t2; [reflexivity|inversion T2'; contradiction]). subst t2.
    split; [lia|split; [lia|split]].
    + simpl. rewrite T2, app_nil_r, C3. apply in_or_app. right. left. reflexivity.
    + exists (log st2). reflexivity.
  - destruct (vvalue n) as [nv|] eqn:Hv.
    + destruct (negb (opt_str_eqb (Some nv) (vvalue o))) eqn:Hneq.
      * rewrite Hx. pose proof (set_text_content_id st x nv) as Hid.
        destruct (set_text_content st x nv) as [st1 node'] eqn:Est. simpl in Hid.
        split; [reflexivity|]. split; [apply replace_nth_length|].
        split; [intros j Hj; apply nth_replace_nth_neq; exact Hj|].
        exists node'. split; [apply nth_replace_nth_eq; exact Hi|].
        split; [discriminate|split; [intros _; exact Hid|]].
        intros s t -> -> Hxt Hst. rewrite Hxt in Est. simpl in Hv, Est. injection Hv as <-.
        injection Est as <- <-. simpl. auto.
      * split; [reflexivity|]. split; [reflexivity|]. split; [reflexivity|].
        exists x. split; [exact Hx|]. split; [discriminate|split; [reflexivity|]].
        intros s t -> -> _ Hst. simpl in Hv, Hneq. injection Hv as <-.
        apply String.eqb_neq in Hst. rewrite Hst in Hneq. discriminate.
    + rewrite Hx. destruct x as [xid xt|eid etag ea ekids].
      * split; [reflexivity|]. split; [reflexivity|]. split; [reflexivity|].
        exists (DText xid xt). split; [exact Hx|]. split; [discriminate|split; [reflexivity|]].
        intros s t -> _ _ _. discriminate.
      * destruct (updateProps ie st eid etag ea (vprops n) (vprops o)) as [st1 ea'].
        destruct (reconcileChildren ie fuel st1 eid ekids (vchildren n) (vchildren o)) as [st2 ekids'].
        split; [reflexivity|]. split; [apply replace_nth_length|].
        split; [intros j Hj; apply nth_replace_nth_neq; exact Hj|].
        exists (DElem eid etag ea' ekids'). split; [apply nth_replace_nth_eq; exact Hi|].
        split; [discriminate|split; [reflexivity|]].
        intros s t -> _ _ _. discriminate.
Qed.

End Host.

Lemma updateProps_replaces_click_handler_witness :
  let '(st1, c1) := render ie_none (mkSt 1 true [] [] [] [] [] [] []) (DElem 0 "div" empty_ea [])
                            (VElem 1 "button" [("onClick", PFun 7)] []) in
  let '(st2, c2) := render ie_none st1 c1 (VElem 2 "button" [("onClick", PFun 8)] []) in
  (exists ea, c2 = DElem 0 "div" empty_ea [DElem 1 "button" ea []]) /\
  handlers_for (handlers st2) 1 "click" = [8] /\
  forall call, exists s, Dispatch.handleDirectEvents call (handlers st2) "click" [1] = Dispatch.Ok s
                    /\ Dispatch.invoked s = [(1, 8)].
Proof.
  exact (updateProps_replaces_click_handler ie_none (mkSt 1 true [] [] [] [] [] [] []) 0 "div" empty_ea []
           "button" 1 2 7 8 eq_refl eq_refl eq_refl eq_refl ltac:(discriminate)).
Defined.

Lemma updateElement_replacement_rule_witness :
  nth_error [DText 3 "a"] 0 = Some (DText 3 "a") /\ 3 < 5 /\
  let '(st', kids') := updateElement ie_none 1 (mkSt 5 true [] [] [] [] [] [] []) 0 [DText 3 "a"]
                                     (Some (VText "b")) (Some (VText "a")) 0 in
  hasNodeChanged (VText "b") (VText "a") = differs_kind_tag_key (VText "b") (VText "a") /\
  List.length kids' = List.length [DText 3 "a"] /\
  (forall j, j <> 0 -> nth_error kids' j = nth_error [DText 3 "a"] j) /\
  exists y, nth_error kids' 0 = Some y /\
    (hasNodeChanged (VText "b") (VText "a") = true ->
       dom_id y <> dom_id (DText 3 "a") /\ next_id (mkSt 5 true [] [] [] [] [] [] []) <= dom_id y /\
       In (TCleanup (dom_id (DText 3 "a"))) (trace st') /\
       exists l, log st' = l ++ [MReplaceChild 0 (dom_id y) (dom_id (DText 3 "a"))]) /\
    (hasNodeChanged (VText "b") (VText "a") = false -> dom_id y = dom_id (DText 3 "a")) /\
    (forall s t, VText "b" = VText s -> VText "a" = VText t -> DText 3 "a" = DText (dom_id (DText 3 "a")) t -> s <> t ->
       y = DText (dom_id (DText 3 "a")) s /\
       log st' = log (mkSt 5 true [] [] [] [] [] [] []) ++ [MSetTextContent (dom_id (DText 3 "a")) s] /\
       trace st' = trace (mkSt 5 true [] [] [] [] [] [] [])).
Proof.
  split; [reflexivity|split; [lia|]].
  exact (updateElement_replacement_rule ie_none 1 (mkSt 5 true [] [] [] [] [] [] []) 0 [DText 3 "a"]
           (VText "b") (VText "a") 0 (DText 3 "a") eq_refl ltac:(simpl; lia)).
Defined.

Lemma setProps_live_props_as_properties_witness :
  nget 0 (trees (mkSt 1 true [] [] [] [] [] [] [])) = None /\
  let e := 1 in
  let '(st1, c1) := render ie_none (mkSt 1 true [] [] [] [] [] [] []) (DElem 0 "div" empty_ea [])
                            (VElem 1 "input" [("checked", PBool true)] []) in
  let '(st2, c2) := render ie_none st1 c1 (VElem 2 "input" [("checked", PBool false)] []) in
  c1 = DElem 0 "div" empty_ea [DElem e "input" (mkEa [] [("checked", PBool true)] []) []] /\
  log st1 = [] ++ [MCreateElement e "input"; MSetProperty e "checked" (PBool true);
                   MClearChildren 0; MAppendChild 0 e] /\
  c2 = DElem 0 "div" empty_ea [DElem e "input" (mkEa [] [("checked", PBool false)] []) []] /\
  log st2 = log st1 ++ [MSetProperty e "checked" (PBool false)].
Proof.
  split; [reflexivity|].
  exact (proj2 (setProps_live_props_as_properties ie_none) (mkSt 1 true [] [] [] [] [] [] []) 0 "div"
           empty_ea [] "input" 1 2 eq_refl).
Defined.

(** C6, failing run: an [input] rendered with [checked: true] and then with
    no props gets [removeAttribute('checked')]; the live [checked]
    property, which is what the first render set, stays [true].  Likewise
    a [label] rendered with [htmlFor] and then without keeps its [for]
    attribute, since the removal targets an attribute named [htmlFor]. *)
Lemma updateProps_removed_live_prop_persists :
  (let '(st1, c1) := render ie_none (mkSt 1 true [] [] [] [] [] [] []) (DElem 0 "div" empty_ea [])
                             (VElem 1 "input" [("checked", PBool true)] []) in
   let '(st2, c2) := render ie_none st1 c1 (VElem 2 "input" [] []) in
   c2 = DElem 0 "div" empty_ea [DElem 1 "input" (mkEa [] [("checked", PBool true)] []) []] /\
   log st2 = log st1 ++ [MRemoveAttribute 1 "checked"]) /\
  (let '(st1, c1) := render ie_none (mkSt 1 true [] [] [] [] [] [] []) (DElem 0 "div" empty_ea [])
                             (VElem 1 "label" [("htmlFor", PStr "name")] []) in
   let '(st2, c2) := render ie_none st1 c1 (VElem 2 "label" [] []) in
   c2 = DElem 0 "div" empty_ea [DElem 1 "label" (mkEa [("for", "name")] [] []) []] /\
   log st2 = log st1 ++ [MRemoveAttribute 1 "htmlFor"]).
Proof. vm_compute. split; split; reflexivity. Qed.

End VDomFacts.

(** * Re-rendering an unchanged description *)
Module VDomIdem.
Import VDom VDomPreds VDomFacts.

Lemma strict_eq_refl : forall v, v <> PNaN -> strict_eq v v = true.
Proof.
  intros [| |b|z| |s|f|o fs] H; simpl; try reflexivity.
  - destruct b; reflexivity.
  - apply Z.eqb_refl.
  - contradiction.
  - apply String.eqb_refl.
  - apply Nat.eqb_refl.
  - apply Nat.eqb_refl.
Qed.

Lemma strict_eq_sym : forall a b, strict_eq a b = strict_eq b a.
Proof.
  intros [| |b1|z1| |s1|f1|o1 fs1] [| |b2|z2| |s2|f2|o2 fs2]; simpl; try reflexivity.
  - destruct b1, b2; reflexivity.
  - apply Z.eqb_sym.
  - apply String.eqb_sym.
  - apply Nat.eqb_sym.
  - apply Nat.eqb_sym.
Qed.

Lemma truthy_not_nan : forall v, truthy v = true -> v <> PNaN.
Proof. intros v H ->. discriminate. Qed.

Lemma key_eqb_refl : forall c, key_eqb (vkey c) (vkey c) = true.
Proof.
  intros [s|o t p ch]; simpl; [reflexivity|].
  destruct (aget "key" p) as [k|]; [|reflexivity].
  destruct (truthy k) eqn:E; [|reflexivity]. simpl. apply strict_eq_refl, truthy_not_nan, E.
Qed.

Lemma hasNodeChanged_refl : forall c, hasNodeChanged c c = false.
Proof.
  intros c. unfold hasNodeChanged. rewrite key_eqb_refl.
  destruct c; simpl; rewrite ?String.eqb_refl; reflexivity.
Qed.

Lemma fold_left_fix : forall {A B} (f : A -> B -> A) l a,
  (forall x, In x l -> f a x = a) -> fold_left f l a = a.
Proof.
  intros A B f l. induction l as [|x l IH]; intros a H; [reflexivity|].
  simpl. rewrite H by (left; reflexivity). apply IH. intros y Hy. apply H. right. exact Hy.
Qed.

Lemma aget_NoDup : forall {V} k (v : V) l, NoDup (map fst l) -> In (k, v) l -> aget k l = Some v.
Proof.
  intros V k v l. induction l as [|[k0 v0] l IH]; simpl; intros Hnd Hin; [destruct Hin|].
  inversion Hnd as [|? ? Hnot Hnd']; subst.
  destruct Hin as [Heq|Hin].
  - injection Heq as -> ->. rewrite String.eqb_refl. reflexivity.
  - destruct (String.eqb k k0) eqn:E.
    + apply String.eqb_eq in E. subst k0. exfalso. apply Hnot.
      apply (in_map fst) in Hin. exact Hin.
    + apply IH; assumption.
Qed.

Lemma ahas_In : forall {V} k (l : list (string * V)), In k (map fst l) -> ahas k l = true.
Proof.
  intros V k l. induction l as [|[k0 v0] l IH]; simpl; intros H; [destruct H|].
  unfold ahas. simpl. destruct (String.eqb k k0) eqn:E; [reflexivity|].
  destruct H as [H|H]; [subst k0; rewrite String.eqb_refl in E; discriminate|].
  apply IH in H. exact H.
Qed.

Lemma replace_nth_same : forall {A} i (x : A) l, nth_error l i = Some x -> replace_nth i x l = l.
Proof.
  intros A i x l. revert i. induction l as [|y l IH]; intros [|i] H; simpl in *; try discriminate.
  - injection H as ->. reflexivity.
  - rewrite IH; auto.
Qed.

Lemma FOP_before : forall {A} (R : A -> A -> Prop) l1 x l2,
  ForallOrdPairs R (l1 ++ x :: l2) -> forall y, In y l1 -> R y x.
Proof.
  intros A R l1 x l2. induction l1 as [|z l1 IH]; intros H y Hy; [destruct Hy|].
  inversion H as [|? ? Hz H']; subst. destruct Hy as [<-|Hy].
  - rewrite Forall_forall in Hz. apply Hz. apply in_or_app. right. left. reflexivity.
  - apply IH; assumption.
Qed.

Lemma kset_fresh : forall {V} k (v : V) m,
  (forall kv, In kv m -> strict_eq k (fst kv) = false) -> kset k v m = m ++ [(k, v)].
Proof.
  intros V k v m. induction m as [|[k0 v0] m IH]; intros H; [reflexivity|].
  simpl. pose proof (H (k0, v0) (or_introl eq_refl)) as E. simpl in E. rewrite E.
  rewrite IH; [reflexivity|]. intros kv Hkv. apply H. right. exact Hkv.
Qed.

Lemma kset_fold : forall {V} (l acc : list (pval * V)),
  kdistinct (map fst (acc ++ l)) ->
  fold_left (fun m kv => kset (fst kv) (snd kv) m) l acc = acc ++ l.
Proof.
  intros V l. induction l as [|[k v] l IH]; intros acc H; simpl; [rewrite app_nil_r; reflexivity|].
  rewrite kset_fresh.
  - rewrite IH; [rewrite <- app_assoc; reflexivity|]. rewrite <- app_assoc. exact H.
  - intros kv Hkv. rewrite map_app in H. simpl in H.
    pose proof (FOP_before _ _ _ _ H (fst kv) (in_map fst _ _ Hkv)) as E.
    rewrite strict_eq_sym. exact E.
Qed.

Lemma kget_distinct : forall {V} k (v : V) l,
  kdistinct (map fst l) -> In (k, v) l -> strict_eq k k = true -> kget k l = Some v.
Proof.
  intros V k v l. induction l as [|[k0 v0] l IH]; simpl; intros Hd Hin Hk; [destruct Hin|].
  inversion Hd as [|? ? Hk0 Hd']; subst.
  destruct Hin as [Heq|Hin].
  - injection Heq as -> ->. rewrite Hk. reflexivity.
  - rewrite Forall_forall in Hk0.
    pose proof (Hk0 k (in_map fst _ _ Hin)) as E. simpl in E.
    rewrite strict_eq_sym, E. apply IH; assumption.
Qed.

Lemma map_fst_combine : forall {A B} (l1 : list A) (l2 : list B),
  List.length l1 = List.length l2 -> map fst (combine l1 l2) = l1.
Proof.
  intros A B l1. induction l1 as [|a l1 IH]; intros [|b l2] H; simpl in *; try discriminate; auto.
  rewrite IH; auto.
Qed.

Lemma combine_map : forall {A B C D} (f : A -> C) (g : B -> D) l1 l2,
  combine (map f l1) (map g l2) = map (fun p => (f (fst p), g (snd p))) (combine l1 l2).
Proof.
  intros A B C D f g l1. induction l1 as [|a l1 IH]; intros [|b l2]; simpl; auto.
  rewrite IH. reflexivity.
Qed.

Lemma Forall2_combine_In : forall {A B} (R : A -> B -> Prop) l1 l2,
  Forall2 R l1 l2 -> Forall2 (fun a b => R a b /\ In (a, b) (combine l1 l2)) l1 l2.
Proof.
  intros A B R l1 l2 H. induction H as [|a b l1 l2 Hab H IH]; constructor.
  - split; [exact Hab|left; reflexivity].
  - eapply Forall2_impl; [|exact IH]. intros x y [Hxy Hin]. split; [exact Hxy|right; exact Hin].
Qed.

Lemma Forall2_nth_error : forall {A B} (R : A -> B -> Prop) l1 l2 i a,
  Forall2 R l1 l2 -> nth_error l1 i = Some a -> exists b, nth_error l2 i = Some b /\ R a b.
Proof.
  intros A B R l1 l2 i a H. revert i. induction H as [|x y l1 l2 Hxy H IH]; intros [|i] Hi;
    simpl in *; try discriminate.
  - injection Hi as <-. exists y. auto.
  - apply IH. exact Hi.
Qed.

Lemma vkey_truthy : forall c k, vkey c = Some k -> truthy k = true.
Proof.
  intros [s|o t p ch] k H; simpl in H; [discriminate|].
  destruct (aget "key" p) as [k'|]; [|discriminate].
  destruct (truthy k') eqn:E; [|discriminate]. injection H as <-. exact E.
Qed.

Lemma vkey_key_of : forall c, has_key c = true -> vkey c = Some (key_of c).
Proof. intros c H. unfold has_key, key_of in *. destruct (vkey c); [reflexivity|discriminate]. Qed.

Lemma cleanup_trace : forall d st, exists t,
  trace (cleanupElement st d) = trace st ++ t /\ filter is_cleanup t = map TCleanup (cleanup_order d).
Proof.
  fix IH 1. intros d st.
  assert (Hpre : forall st0, let st1 := note (TCleanup (dom_id d)) st0 in
    let st2 := match nget (dom_id d) (hooks st1) with
               | Some (_, u) => if truthy u && is_function u then note (TUnmount (dom_id d) (fun_id u)) st1 else st1
               | None => st1 end in
    let st3 := set_hooks (ndel (dom_id d) (hooks st2)) st2 in
    let st4 := if has_es st3 then emit (MUnlistenAll (dom_id d)) (set_handlers (es_off_all (handlers st3) (dom_id d)) st3) else st3 in
    let st5 := set_tracked (ndel (dom_id d) (tracked st4)) st4 in
    exists t, trace st5 = trace st0 ++ TCleanup (dom_id d) :: t /\ filter is_cleanup t = []).
  { intros st0. cbv zeta.
    destruct (nget (dom_id d) (hooks (note (TCleanup (dom_id d)) st0))) as [[m u]|];
      [destruct (truthy u && is_function u)|]; destruct (has_es _); simpl;
      first [exists [TUnmount (dom_id d) (fun_id u)];
             (split; [rewrite <- ?app_assoc; reflexivity|reflexivity])
            | exists []; (split; [rewrite <- ?app_assoc; reflexivity|reflexivity])]. }
  destruct d as [id s | id tag ea kids].
  - destruct (Hpre st) as [t [H1 H2]]. exists (TCleanup id :: t). split; [exact H1|simpl; rewrite H2; reflexivity].
  - cbn [cleanupElement]. cbv zeta in Hpre |- *.
    match goal with |- context [?F ?s5 kids] => is_fix F; set (LOOP := F);
      pose proof (Hpre st) as Hs5; generalize dependent s5 end.
    intros s5 Hs5.
    assert (Hloop : forall s, exists t, trace (LOOP s kids) = trace s ++ t /\
              filter is_cleanup t = map TCleanup (List.concat (map (fun k => if is_elem k then cleanup_order k else []) kids))).
    { subst LOOP. clear - IH. revert kids. fix IHl 1. intros [|k ks] s.
      - exists []. split; [rewrite app_nil_r|]; reflexivity.
      - cbn [List.concat map]. destruct (IHl ks (if is_elem k then cleanupElement s k else s)) as (t & L1 & L2).
        assert (Hk : exists t', trace (if is_elem k then cleanupElement s k else s) = trace s ++ t' /\
                     filter is_cleanup t' = map TCleanup (if is_elem k then cleanup_order k else [])).
        { destruct (is_elem k); [exact (IH k s)|exists []; split; [rewrite app_nil_r|]; reflexivity]. }
        destruct Hk as (t' & K1 & K2). exists (t' ++ t).
        split; [rewrite L1, K1, app_assoc; reflexivity|].
        rewrite filter_app, map_app, K2, L2. reflexivity. }
    destruct Hs5 as (t & H1 & H2). destruct (Hloop s5) as (t' & L1 & L2).
    exists (TCleanup id :: t ++ t'). split; [rewrite L1, H1, <- app_assoc; reflexivity|].
    simpl. rewrite filter_app, H2, L2. reflexivity.
Qed.

Lemma unlisten_no_removal : forall l, Forall unlisten_all l -> filter is_removal l = [].
Proof. intros l H. induction H as [|m l [i ->] H IH]; [reflexivity|exact IH]. Qed.

Lemma remove_all : forall pid odm items xs st,
  Forall2 (fun c x => exists k, vkey c = Some k /\ kget k odm = Some (dom_id x)) items xs ->
  exists st', fold_left (remove_old_child pid odm []) items (st, xs) = (st', []) /\
    (exists l, log st' = log st ++ l /\ filter is_removal l = map (fun x => MRemoveChild pid (dom_id x)) xs) /\
    (exists t, trace st' = trace st ++ t /\
               filter is_cleanup t = map TCleanup (List.concat (map cleanup_order xs))).
Proof.
  intros pid odm items xs st H. revert st.
  induction H as [|c x items xs (k & Hk & Hodm) H IH]; intros st.
  - exists st. split; [reflexivity|split; exists []; rewrite app_nil_r; split; reflexivity].
  - cbn [fold_left].
    assert (E : remove_old_child pid odm [] (st, x :: xs) c =
                (emit (MRemoveChild pid (dom_id x)) (cleanupElement st x), xs)).
    { unfold remove_old_child. rewrite Hk. cbn [key_in existsb negb]. rewrite Hodm.
      cbn [find_by_id remove_by_id]. rewrite Nat.eqb_refl. reflexivity. }
    rewrite E. destruct (IH (emit (MRemoveChild pid (dom_id x)) (cleanupElement st x)))
      as (st' & F & (l & L1 & L2) & (t & T1 & T2)).
    exists st'. split; [exact F|].
    destruct (cleanupElement_spec x st) as ((_ & _ & _ & (l0 & C1 & C2) & _) & _).
    destruct (cleanup_trace x st) as (t0 & D1 & D2).
    split.
    + exists (l0 ++ MRemoveChild pid (dom_id x) :: l). split.
      * rewrite L1. cbn [log emit]. rewrite C1, <- !app_assoc. reflexivity.
      * rewrite filter_app, unlisten_no_removal by exact C2. simpl. rewrite L2. reflexivity.
    + exists (t0 ++ t). split.
      * rewrite T1. cbn [trace emit]. rewrite D1, <- app_assoc. reflexivity.
      * rewrite filter_app, D2, T2. simpl. rewrite map_app. reflexivity.
Qed.

Lemma find_by_id_id : forall i l d, find_by_id i l = Some d -> dom_id d = i.
Proof.
  intros i l d. induction l as [|x l IH]; simpl; [discriminate|].
  destruct (Nat.eqb (dom_id x) i) eqn:E; [intros H; injection H as <-; apply Nat.eqb_eq; exact E|exact IH].
Qed.

Lemma replace_by_id_ids : forall i x l, dom_id x = i -> map dom_id (replace_by_id i x l) = map dom_id l.
Proof.
  intros i x l Hx. induction l as [|d l IH]; simpl; [reflexivity|].
  destruct (Nat.eqb (dom_id d) i) eqn:E; simpl.
  - apply Nat.eqb_eq in E. rewrite Hx, E. reflexivity.
  - rewrite IH. reflexivity.
Qed.

Lemma remove_keep : forall pid odm keyset st kids old,
  Forall (fun c => forall k, vkey c = Some k -> key_in k keyset = true) old ->
  fold_left (remove_old_child pid odm keyset) old (st, kids) = (st, kids).
Proof.
  intros pid odm keyset st kids old H. apply fold_left_fix. intros c Hc.
  rewrite Forall_forall in H. unfold remove_old_child.
  destruct (vkey c) as [k|] eqn:Ek; [rewrite (H c Hc k Ek)|]; reflexivity.
Qed.

Lemma place_rotate : forall pid st ya yb yc,
  NoDup [dom_id ya; dom_id yb; dom_id yc] ->
  fold_left (place_node pid) [dom_id yc; dom_id ya; dom_id yb] (st, [ya; yb; yc], [], 0) =
  (emit (MInsertBefore pid (dom_id yc) (Some (dom_id ya))) st, [yc; ya; yb], [], 3).
Proof.
  intros pid st ya yb yc H.
  assert (Hac : Nat.eqb (dom_id ya) (dom_id yc) = false).
  { apply Nat.eqb_neq. intros E. inversion H as [|? ? Hn _]. apply Hn. rewrite E. right; left; reflexivity. }
  assert (Hbc : Nat.eqb (dom_id yb) (dom_id yc) = false).
  { apply Nat.eqb_neq. intros E. inversion H as [|? ? _ H']. inversion H' as [|? ? Hn _].
    apply Hn. rewrite E. left; reflexivity. }
  cbn [fold_left]. unfold place_node. cbn [nth_error option_map find_by_id remove_by_id].
  rewrite Hac, Hbc, Nat.eqb_refl. cbn [insert_before nth_error]. rewrite Nat.eqb_refl.
  cbn. rewrite ?Nat.eqb_refl. cbn. rewrite ?Nat.eqb_refl. reflexivity.
Qed.

Section Host.
Variable ie : string -> string -> bool.

Lemma updateProps_idem : forall st id tag ea p,
  NoDup (map fst p) -> Forall (fun kv => snd kv <> PNaN) p ->
  updateProps ie st id tag ea p p = (st, ea).
Proof.
  intros st id tag ea p Hnd Hnan. unfold updateProps.
  rewrite (fold_left_fix (remove_prop_entry id p p)).
  2:{ intros key Hk. unfold remove_prop_entry. cbv beta iota zeta. rewrite ahas_In by exact Hk. reflexivity. }
  apply fold_left_fix. intros [key v] Hkv. unfold update_prop_entry. cbv beta iota zeta.
  rewrite (aget_NoDup key v p Hnd Hkv).
  rewrite strict_eq_refl; [reflexivity|].
  rewrite Forall_forall in Hnan. exact (Hnan _ Hkv).
Qed.

Lemma keyed_kids_elem : forall ch kids, keyed_group ch -> Forall2 corresponds ch kids ->
  filter is_elem kids = kids.
Proof.
  intros ch kids [Hk _] H. induction H as [|c x ch kids Hcx H IH]; [reflexivity|].
  inversion Hk as [|? ? (o & t & p & cs & -> & _ & _) Hk']; subst.
  inversion Hcx; subst. simpl. rewrite IH by exact Hk'. reflexivity.
Qed.

Lemma build_oldKeyMap_keyed : forall ch, keyed_group ch ->
  build_oldKeyMap ch = map (fun c => (key_of c, c)) ch.
Proof.
  intros ch [Hk Hd]. unfold build_oldKeyMap.
  transitivity (fold_left (fun m kv => kset (fst kv) (snd kv) m) (map (fun c => (key_of c, c)) ch) []).
  - clear Hd. generalize (@nil (pval * vnode)). induction Hk as [|c ch (o & t & p & cs & -> & Hh & _) Hk IH];
      intros m; [reflexivity|].
    cbn [fold_left map]. rewrite (vkey_key_of _ Hh). apply IH.
  - apply kset_fold. simpl. rewrite map_map. simpl. exact Hd.
Qed.

Lemma dataid_map_none : forall okm kids,
  Forall (fun d => attr_of d "data-id" = None) kids -> dataid_map okm kids = [].
Proof.
  intros okm kids H. unfold dataid_map. apply fold_left_fix. intros d Hd.
  rewrite Forall_forall in H. rewrite (H d Hd). reflexivity.
Qed.

Lemma keyed_no_dataid : forall ch kids, keyed_group ch -> Forall2 corresponds ch kids ->
  Forall (fun d => attr_of d "data-id" = None) kids.
Proof.
  intros ch kids [Hk _] H. induction H as [|c x ch kids Hcx H IH]; constructor.
  - inversion Hk as [|? ? (o & t & p & cs & -> & _ & Hp) _]; subst.
    inversion Hcx as [|? ? ? ? ? ? ? Hda _]; subst. simpl. apply Hda. exact Hp.
  - apply IH. inversion Hk; assumption.
Qed.

Lemma order_map_gen : forall kids chs j m,
  Forall (fun c => has_key c = true) chs -> j + List.length chs <= List.length kids ->
  fold_left (order_step kids) (combine chs (seq j (List.length chs))) m =
  fold_left (fun m kv => kset (fst kv) (snd kv) m)
            (combine (map key_of chs) (map dom_id (firstn (List.length chs) (skipn j kids)))) m.
Proof.
  intros kids chs. induction chs as [|c chs IH]; intros j m Hk Hlen; [reflexivity|].
  inversion Hk as [|? ? Hc Hk']; subst. simpl in Hlen.
  destruct (nth_error kids j) as [d|] eqn:Ed.
  2:{ apply nth_error_None in Ed. lia. }
  assert (Hs : skipn j kids = d :: skipn (S j) kids).
  { clear - Ed. revert j Ed. induction kids as [|x kids IHk]; intros [|j] Ed; simpl in *;
      try discriminate; [injection Ed as ->; reflexivity|]. apply IHk. exact Ed. }
  simpl List.length. simpl seq. simpl combine. rewrite Hs. simpl.
  unfold order_step at 2. simpl. rewrite (vkey_key_of _ Hc), Ed.
  apply IH; [exact Hk'|lia].
Qed.

Lemma build_oldDomMap_keyed : forall ch kids, keyed_group ch -> Forall2 corresponds ch kids ->
  build_oldDomMap ch (filter is_elem kids) = combine (map key_of ch) (map dom_id kids).
Proof.
  intros ch kids Hg H. rewrite (keyed_kids_elem ch kids Hg H).
  pose proof (Forall2_length H) as Hlen.
  unfold build_oldDomMap. rewrite (dataid_map_none _ _ (keyed_no_dataid ch kids Hg H)).
  replace (Nat.eqb (List.length ch) (List.length kids)) with true
    by (rewrite Hlen; symmetry; apply Nat.eqb_refl).
  simpl. unfold order_map.
  change (fun m ci => match vkey (fst ci), nth_error kids (snd ci) with
                      | Some k, Some d => kset k (dom_id d) m | _, _ => m end) with (order_step kids).
  rewrite order_map_gen.
  - rewrite skipn_O, Hlen, firstn_all. apply kset_fold. simpl.
    rewrite map_fst_combine by (rewrite !length_map; exact Hlen). exact (proj2 Hg).
  - destruct Hg as [Hk _]. eapply Forall_impl; [|exact Hk].
    intros c (o & t & p & cs & _ & Hh & _). exact Hh.
  - lia.
Qed.

Lemma process_idem : forall rc okm odm st kids chs xs P K,
  Forall2 (fun c x => (exists o t p cs, c = VElem o t p cs) /\
                      exists k, vkey c = Some k /\ kget k okm = Some c /\ kget k odm = Some (dom_id x))
          chs xs ->
  fold_left (process_new_child ie rc okm odm) chs (st, kids, [], P, K) =
  (st, kids, [], P ++ map dom_id xs, K ++ map vkey chs).
Proof.
  intros rc okm odm st kids chs xs P K H. revert P K.
  induction H as [|c x chs xs [(o & t & p & cs & ->) (k & Hk & Hokm & Hodm)] H IH]; intros P K;
    cbn [fold_left map]; [rewrite !app_nil_r; reflexivity|].
  assert (E : process_new_child ie rc okm odm (st, kids, [], P, K) (VElem o t p cs) =
              (st, kids, [], P ++ [dom_id x], K ++ [vkey (VElem o t p cs)])).
  { unfold process_new_child. cbv beta iota zeta. rewrite Hk, Hokm, Hodm.
    cbn [same_object]. rewrite Nat.eqb_refl. reflexivity. }
  rewrite E, IH, <- !app_assoc. reflexivity.
Qed.

Lemma remove_idem : forall pid odm st kids ch,
  Forall (fun c => has_key c = true) ch ->
  fold_left (remove_old_child pid odm (map vkey ch)) ch (st, kids) = (st, kids).
Proof.
  intros pid odm st kids ch Hk. apply fold_left_fix. intros c Hc.
  rewrite Forall_forall in Hk. pose proof (vkey_key_of c (Hk c Hc)) as Hv.
  unfold remove_old_child. rewrite Hv.
  replace (key_in (key_of c) (map vkey ch)) with true; [reflexivity|].
  symmetry. unfold key_in. apply existsb_exists. exists (vkey c). split; [apply in_map; exact Hc|].
  rewrite Hv. apply strict_eq_refl, truthy_not_nan, (vkey_truthy c), Hv.
Qed.

Lemma place_idem : forall pid st kids pool l j,
  (forall i d, nth_error l i = Some d -> nth_error kids (j + i) = Some d) ->
  fold_left (place_node pid) (map dom_id l) (st, kids, pool, j) = (st, kids, pool, j + List.length l).
Proof.
  intros pid st kids pool l. induction l as [|d l IH]; intros j H; cbn [fold_left map List.length];
    [rewrite Nat.add_0_r; reflexivity|].
  assert (E : place_node pid (st, kids, pool, j) (dom_id d) = (st, kids, pool, S j)).
  { unfold place_node. cbv beta iota zeta. rewrite <- (Nat.add_0_r j), (H 0 d) by reflexivity.
    rewrite Nat.eqb_refl, Nat.add_0_r. reflexivity. }
  rewrite E, IH; [f_equal; lia|]. intros i d' Hi. rewrite <- (H (S i) d') by exact Hi. f_equal. lia.
Qed.

Lemma keyed_maps : forall ch kids, keyed_group ch -> Forall2 corresponds ch kids ->
  Forall2 (fun c x => (exists o t p cs, c = VElem o t p cs) /\
                      exists k, vkey c = Some k /\ kget k (map (fun c => (key_of c, c)) ch) = Some c /\
                                kget k (combine (map key_of ch) (map dom_id kids)) = Some (dom_id x))
          ch kids.
Proof.
  intros ch kids Hg H.
  assert (HF : Forall2 (fun c x => In (c, x) (combine ch kids)) ch kids).
  { eapply Forall2_impl; [|exact (Forall2_combine_In _ _ _ H)]. intros ? ? [_ Hi]; exact Hi. }
  eapply Forall2_impl; [|exact HF]. intros c x Hin.
  assert (Hc : In c ch) by (apply in_combine_l in Hin; exact Hin).
  destruct Hg as [Hk Hd]. rewrite Forall_forall in Hk.
  destruct (Hk c Hc) as (o & t & p & cs & -> & Hh & _).
  split; [eauto 6|]. exists (key_of (VElem o t p cs)).
  rewrite (vkey_key_of _ Hh). split; [reflexivity|].
  assert (Hkk : strict_eq (key_of (VElem o t p cs)) (key_of (VElem o t p cs)) = true).
  { apply strict_eq_refl, truthy_not_nan, (vkey_truthy (VElem o t p cs)), vkey_key_of, Hh. }
  split; apply kget_distinct; auto.
  + rewrite map_map. exact Hd.
  + apply in_map_iff. exists (VElem o t p cs). split; [reflexivity|exact Hc].
  + rewrite map_fst_combine by (rewrite !length_map; exact (Forall2_length H)). exact Hd.
  + rewrite combine_map. apply in_map_iff. exists (VElem o t p cs, x). auto.
Qed.

Lemma keyed_idem : forall rc st pid kids ch,
  keyed_group ch -> Forall2 corresponds ch kids ->
  reconcileChildrenWithKeys ie rc st pid kids ch ch = (st, kids).
Proof.
  intros rc st pid kids ch Hg H. unfold reconcileChildrenWithKeys.
  rewrite (build_oldDomMap_keyed ch kids Hg H), (build_oldKeyMap_keyed ch Hg).
  rewrite (process_idem rc _ _ st kids ch kids [] []).
  2:{ exact (keyed_maps ch kids Hg H). }
  simpl. rewrite remove_idem.
  2:{ destruct Hg as [Hk _]. eapply Forall_impl; [|exact Hk]. intros c (o & t & p & cs & _ & Hh & _). exact Hh. }
  rewrite place_idem; [reflexivity|]. intros i d Hi. exact Hi.
Qed.

Lemma ue_idem : forall rc, rc_idem rc -> forall st pid kids n x i,
  wf n -> nth_error kids i = Some x -> corresponds n x ->
  updateElement_body ie rc st pid kids (Some n) (Some n) i = (st, kids).
Proof.
  intros rc Hrc st pid kids n x i Hw Hx Hc. unfold updateElement_body.
  rewrite hasNodeChanged_refl. inversion Hc as [s id|o t p ch id ea ekids Hd Hch]; subst; simpl.
  - rewrite String.eqb_refl. reflexivity.
  - rewrite Hx. inversion Hw as [|? ? ? ? Hnd Hnan Hkg Hwch]; subst.
    rewrite (updateProps_idem st id t ea p Hnd Hnan).
    rewrite (Hrc st id ekids ch Hwch Hch Hkg). rewrite (replace_nth_same i _ kids Hx). reflexivity.
Qed.

Lemma byindex_idem : forall ue st pid kids ch,
  (forall st i n x, wf n -> nth_error kids i = Some x -> corresponds n x ->
     ue st pid kids (Some n) (Some n) i = (st, kids)) ->
  Forall wf ch -> Forall2 corresponds ch kids ->
  reconcileChildrenByIndex ue st pid kids ch ch = (st, kids).
Proof.
  intros ue st pid kids ch Hue Hw H. unfold reconcileChildrenByIndex.
  rewrite Nat.max_id. apply fold_left_fix. intros i Hi. apply in_seq in Hi.
  destruct (nth_error ch i) as [n|] eqn:En; [|apply nth_error_None in En; lia].
  destruct (Forall2_nth_error _ _ _ _ _ H En) as (x & Ex & Hc).
  apply (Hue st i n x); auto.
  rewrite Forall_forall in Hw. apply Hw. eapply nth_error_In; exact En.
Qed.

Lemma reconcileChildren_idem : forall fuel, rc_idem (reconcileChildren ie fuel).
Proof.
  induction fuel as [|f IH]; intros st pid kids ch Hw H Hkg; [reflexivity|].
  simpl. rewrite orb_diag. destruct (existsb has_key ch) eqn:Ek.
  - apply keyed_idem; auto.
  - apply byindex_idem; auto. intros st' i n x Hwn Hx Hc. apply (ue_idem _ IH st' pid kids n x i); auto.
Qed.

Lemma render_corresponds_idem : forall st cid ctag cea x v,
  wf v -> nget cid (trees st) = Some v -> corresponds v x ->
  render ie st (DElem cid ctag cea [x]) v = (set_trees (nset cid v (trees st)) st, DElem cid ctag cea [x]).
Proof.
  intros st cid ctag cea x v Hw Ht Hc. unfold render. rewrite Ht. unfold updateElement.
  rewrite (ue_idem _ (reconcileChildren_idem (vdepth v)) st cid [x] v x 0 Hw eq_refl Hc).
  reflexivity.
Qed.

(** Render is idempotent on well-formed descriptions: for a description
    [d] with distinct prop names, no [NaN] prop value, and every child
    list either free of keys or made of keyed elements with pairwise
    distinct truthy keys and no [data-id] prop, rendering [d] into a mount
    point with no tree yet and then rendering [d] again: the second call
    returns the state and the container it was given, so it logs no
    mutation, runs no cleanup and changes no listener. *)
Theorem render_twice_no_mutation : forall st0 cid ctag cea ckids v,
  wf v -> nget cid (trees st0) = None ->
  let '(st1, c1) := render ie st0 (DElem cid ctag cea ckids) v in
  render ie st1 c1 v = (st1, c1).
Proof.
  intros st0 cid ctag cea ckids v Hw Ht. unfold render at 1. rewrite Ht.
  pose proof (createDOMElement_spec ie v st0) as (_ & _ & _ & Hc).
  destruct (createDOMElement ie st0 v) as [sA el]. simpl in Hc.
  cbv beta iota zeta.
  set (st1 := set_trees _ _).
  rewrite (render_corresponds_idem st1 cid ctag cea el v Hw) by (try exact Hc; apply nget_nset_eq).
  f_equal. unfold st1. unfold set_trees at 2. cbn [trees]. rewrite nset_nset. reflexivity.
Qed.

Lemma AP_no_removal : forall l, Forall AP l -> filter is_removal l = [].
Proof. intros l H. induction H as [|m l [Hm _] H IH]; [reflexivity|destruct m; try contradiction; exact IH]. Qed.

(** Emptying a keyed list: a keyed list [items] (element children with
    pairwise distinct truthy keys and no [data-id] prop) rendered as the
    children of one element into a fresh mount point, then the same
    element rendered with no children: the element keeps its live node
    and ends with no child, the removals logged by the second call are
    exactly one [removeChild] per item node, in list order, and the
    cleanups it runs are exactly those of the item nodes, each followed
    by its element descendants. *)
Theorem render_keyed_list_to_empty : forall st0 cid ctag cea ckids o tag p items o' p',
  keyed_group items -> nget cid (trees st0) = None ->
  hasNodeChanged (VElem o' tag p' []) (VElem o tag p items) = false ->
  let '(st1, c1) := render ie st0 (DElem cid ctag cea ckids) (VElem o tag p items) in
  let '(st2, c2) := render ie st1 c1 (VElem o' tag p' []) in
  exists u ea xs ea',
    c1 = DElem cid ctag cea [DElem u tag ea xs] /\
    c2 = DElem cid ctag cea [DElem u tag ea' []] /\
    List.length xs = List.length items /\
    (exists l, log st2 = log st1 ++ l /\
               filter is_removal l = map (fun x => MRemoveChild u (dom_id x)) xs) /\
    (exists t, trace st2 = trace st1 ++ t /\
               filter is_cleanup t = map TCleanup (List.concat (map cleanup_order xs))).
Proof.
  intros st0 cid ctag cea ckids o tag p items o' p' Hg Ht Hch. unfold render at 1. rewrite Ht.
  pose proof (createDOMElement_spec ie (VElem o tag p items) st0) as (_ & _ & _ & Hc).
  destruct (createDOMElement ie st0 (VElem o tag p items)) as [sA el]. simpl in Hc.
  inversion Hc as [|? ? ? ? u ea xs Hd Hxs]; subst.
  cbv beta iota zeta. set (st1 := set_trees _ _).
  unfold render. replace (nget cid (trees st1)) with (Some (VElem o tag p items)) by (symmetry; apply nget_nset_eq).
  unfold updateElement, updateElement_body. rewrite Hch. cbn [vvalue vdepth map list_max nth_error vprops vchildren].
  pose proof (updateProps_grows ie (fun _ => False) st1 u tag ea p' p) as Hup.
  destruct (updateProps ie st1 u tag ea p' p) as [sB ea'] eqn:Eup. cbn [fst] in Hup.
  destruct Hup as (_ & _ & _ & (l1 & U1 & U2) & (t1 & U3 & U4)).
  assert (t1 = []) as -> by (destruct t1; [reflexivity|inversion U4; contradiction]).
  rewrite app_nil_r in U3.
  cbn [reconcileChildren existsb orb]. destruct (existsb has_key items) eqn:Eh.
  - unfold reconcileChildrenWithKeys.
    rewrite (build_oldDomMap_keyed items xs Hg Hxs). cbn [fold_left].
    destruct (remove_all u (combine (map key_of items) (map dom_id xs)) items xs sB) as
      (st' & F & (l & L1 & L2) & (t & T1 & T2)).
    { eapply Forall2_impl; [|exact (keyed_maps items xs Hg Hxs)]. intros c x (_ & k & K1 & _ & K3). eauto. }
    rewrite F. cbn [fold_left].
    exists u, ea, xs, ea'. refine (conj eq_refl (conj eq_refl (conj _ (conj _ _)))).
    + symmetry. exact (Forall2_length Hxs).
    + exists (l1 ++ l). split; [cbn [log set_trees]; rewrite L1, U1, app_assoc; reflexivity|].
      rewrite filter_app, AP_no_removal, L2 by exact U2. reflexivity.
    + exists t. split; [cbn [trace set_trees]; rewrite T1, U3; reflexivity|exact T2].
  - assert (items = []) as ->.
    { destruct Hg as [Hk _]. destruct items as [|c items]; [reflexivity|].
      inversion Hk as [|? ? (? & ? & ? & ? & _ & Hh & _) _]; subst. simpl in Eh. rewrite Hh in Eh. discriminate. }
    inversion Hxs; subst. cbn [reconcileChildrenByIndex List.length Nat.max seq fold_left fst snd].
    exists u, ea, [], ea'. refine (conj eq_refl (conj eq_refl (conj eq_refl (conj _ _)))).
    + exists l1. split; [cbn [log set_trees]; exact U1|rewrite AP_no_removal by exact U2; reflexivity].
    + exists []. split; [cbn [trace set_trees]; rewrite U3, app_nil_r; reflexivity|reflexivity].
Qed.

Lemma createDOMElement_kids_nodup : forall st o tag p ch,
  match snd (createDOMElement ie st (VElem o tag p ch)) with
  | DElem _ _ _ kids => NoDup (map dom_id kids)
  | DText _ _ => True
  end.
Proof.
  intros st o tag p ch. cbn [createDOMElement].
  destruct (setProps ie _ _ tag empty_ea p) as [st2 ea]. cbv beta iota zeta.
  match goal with |- context [?F ?s ch []] => is_fix F; set (LOOP := F); generalize s end.
  intros s.
  assert (Hloop : forall cs s acc, NoDup (map dom_id acc) -> Forall (fun d => dom_id d < next_id s) acc ->
            NoDup (map dom_id (snd (LOOP s cs acc))) /\
            Forall (fun d => dom_id d < next_id (fst (LOOP s cs acc))) (snd (LOOP s cs acc))).
  { subst LOOP. induction cs as [|c cs IH]; intros s0 acc Hn Hf; [split; assumption|].
    cbn beta iota. pose proof (createDOMElement_spec ie c s0) as (_ & Hid & Hlt & _).
    destruct (createDOMElement ie s0 c) as [s1 cd]. cbn [fst snd] in Hid, Hlt.
    apply IH.
    - rewrite map_app. apply NoDup_app; [exact Hn|constructor; [intros []|constructor]|].
      intros a Ha [Heq|[]]. apply in_map_iff in Ha as (d & Hd & Hin). rewrite Forall_forall in Hf.
      specialize (Hf d Hin). simpl in Heq. lia.
    - apply Forall_app. split; [|constructor; [simpl; lia|constructor]].
      eapply Forall_impl; [|exact Hf]. intros d Hd. simpl in *. lia. }
  destruct (LOOP s ch []) as [s4 kids] eqn:E. simpl.
  pose proof (Hloop ch s [] (NoDup_nil _) (Forall_nil _)) as [H _]. rewrite E in H. exact H.
Qed.

Lemma process_keep : forall rc okm odm chs nids st kids P K,
  Forall2 (fun c nid => exists k oc, vkey c = Some k /\ kget k okm = Some oc /\ kget k odm = Some nid) chs nids ->
  exists st' kids', fold_left (process_new_child ie rc okm odm) chs (st, kids, [], P, K) =
                    (st', kids', [], P ++ nids, K ++ map vkey chs) /\ map dom_id kids' = map dom_id kids.
Proof.
  intros rc okm odm chs nids st kids P K H. revert st kids P K.
  induction H as [|c nid chs nids (k & oc & Hk & Hokm & Hodm) H IH]; intros st kids P K.
  - exists st, kids. rewrite !app_nil_r. split; reflexivity.
  - cbn [fold_left map].
    assert (E : exists st1 kids1, process_new_child ie rc okm odm (st, kids, [], P, K) c =
                  (st1, kids1, [], P ++ [nid], K ++ [vkey c]) /\ map dom_id kids1 = map dom_id kids).
    { unfold process_new_child. cbv beta iota zeta. rewrite Hk, Hokm, Hodm.
      destruct (negb (same_object oc c)); [|exists st, kids; split; reflexivity].
      destruct (find_by_id nid kids) as [[i s|eid etag ea ekids]|] eqn:Ef;
        try (exists st, kids; split; reflexivity).
      destruct (updateProps ie st eid etag ea (vprops c) (vprops oc)) as [st1 ea'].
      destruct (rc st1 eid ekids (vchildren c) (vchildren oc)) as [st2 ekids'].
      exists st2, (replace_by_id nid (DElem eid etag ea' ekids') kids). split; [reflexivity|].
      apply replace_by_id_ids. exact (find_by_id_id _ _ _ Ef). }
    destruct E as (st1 & kids1 & E1 & E2). rewrite E1.
    destruct (IH st1 kids1 (P ++ [nid]) (K ++ [vkey c])) as (st' & kids' & F1 & F2).
    exists st', kids'. rewrite F1, <- !app_assoc. split; [reflexivity|congruence].
Qed.

(** Reordering a keyed list keeps its nodes: three keyed elements [A],
    [B], [C] (pairwise distinct truthy keys, no [data-id] prop) rendered
    as the children of one element into a fresh mount point, then the
    same element rendered with children [C'], [A'], [B'] carrying the
    keys of [C], [A], [B]: the element keeps its live node, and its child
    list after the second call is the three live nodes of the first call
    (same identities), now in the order [C], [A], [B]. *)
Theorem render_keyed_reorder_keeps_nodes : forall st0 cid ctag cea ckids o tag p A B C o' p' A' B' C',
  keyed_group [A; B; C] -> vkey A' = vkey A -> vkey B' = vkey B -> vkey C' = vkey C ->
  nget cid (trees st0) = None ->
  hasNodeChanged (VElem o' tag p' [C'; A'; B']) (VElem o tag p [A; B; C]) = false ->
  let '(st1, c1) := render ie st0 (DElem cid ctag cea ckids) (VElem o tag p [A; B; C]) in
  let '(st2, c2) := render ie st1 c1 (VElem o' tag p' [C'; A'; B']) in
  exists u ea xa xb xc ea' ya yb yc,
    c1 = DElem cid ctag cea [DElem u tag ea [xa; xb; xc]] /\
    c2 = DElem cid ctag cea [DElem u tag ea' [yc; ya; yb]] /\
    dom_id ya = dom_id xa /\ dom_id yb = dom_id xb /\ dom_id yc = dom_id xc /\
    NoDup [dom_id xa; dom_id xb; dom_id xc].
Proof.
  intros st0 cid ctag cea ckids o tag p A B C o' p' A' B' C' Hg HA HB HC Ht Hch.
  unfold render at 1. rewrite Ht.
  pose proof (createDOMElement_spec ie (VElem o tag p [A; B; C]) st0) as (_ & _ & _ & Hc).
  pose proof (createDOMElement_kids_nodup st0 o tag p [A; B; C]) as Hnd.
  destruct (createDOMElement ie st0 (VElem o tag p [A; B; C])) as [sA el]. simpl in Hc, Hnd.
  inversion Hc as [|? ? ? ? u ea xs Hd Hxs]; subst.
  inversion Hxs as [|? xa ? ? _ Hxs1]; subst. inversion Hxs1 as [|? xb ? ? _ Hxs2]; subst.
  inversion Hxs2 as [|? xc ? ? _ Hxs3]; subst. inversion Hxs3; subst.
  cbv beta iota zeta. set (st1 := set_trees _ _).
  unfold render. replace (nget cid (trees st1)) with (Some (VElem o tag p [A; B; C])) by (symmetry; apply nget_nset_eq).
  unfold updateElement, updateElement_body. rewrite Hch. cbn [vvalue vdepth nth_error vprops vchildren].
  destruct (updateProps ie st1 u tag ea p' p) as [sB ea'].
  pose proof (keyed_maps _ _ Hg Hxs) as HM.
  inversion HM as [|? ? ? ? (_ & ka & KA1 & KA2 & KA3) HM1]; subst.
  inversion HM1 as [|? ? ? ? (_ & kb & KB1 & KB2 & KB3) HM2]; subst.
  inversion HM2 as [|? ? ? ? (_ & kc & KC1 & KC2 & KC3) _]; subst.
  cbn [reconcileChildren existsb]. unfold has_key at 1. rewrite HC, KC1. cbn [orb].
  unfold reconcileChildrenWithKeys.
  rewrite (build_oldDomMap_keyed _ _ Hg Hxs), (build_oldKeyMap_keyed _ Hg).
  destruct (process_keep (reconcileChildren ie (list_max (map vdepth [C'; A'; B'])))
              (map (fun c => (key_of c, c)) [A; B; C])
              (combine (map key_of [A; B; C]) (map dom_id [xa; xb; xc]))
              [C'; A'; B'] [dom_id xc; dom_id xa; dom_id xb] sB [xa; xb; xc] [] [])
    as (sC & kids1 & P1 & P2).
  { apply Forall2_cons; [exists kc, C; rewrite HC; auto|].
    apply Forall2_cons; [exists ka, A; rewrite HA; auto|].
    apply Forall2_cons; [exists kb, B; rewrite HB; auto|]. apply Forall2_nil. }
  rewrite P1. cbn [app map].
  rewrite remove_keep.
  2:{ rewrite HA, HB, HC, KA1, KB1, KC1.
      apply Forall_forall. intros c Hin k Hk. unfold key_in. apply existsb_exists.
      exists (Some k).
      assert (Hkk : strict_eq k k = true) by (apply strict_eq_refl, truthy_not_nan, (vkey_truthy c), Hk).
      split; [|exact Hkk].
      destruct Hin as [<-|[<-|[<-|[]]]]; [rewrite KA1 in Hk|rewrite KB1 in Hk|rewrite KC1 in Hk];
        injection Hk as <-; simpl; tauto. }
  destruct kids1 as [|ya [|yb [|yc [|? ?]]]]; try discriminate P2.
  injection P2 as Ea Eb Ec.
  cbn [map] in Hnd. rewrite <- Ea, <- Eb, <- Ec in Hnd |- *. rewrite (place_rotate u sC ya yb yc Hnd).
  exists u, ea, xa, xb, xc, ea', ya, yb, yc. repeat split; auto.
  rewrite <- Ea, <- Eb, <- Ec. exact Hnd.
Qed.

End Host.

Lemma render_twice_no_mutation_witness :
  wf (VElem 1 "ul" [("class", PStr "list")]
        [VElem 2 "li" [("key", PNum 1)] [VText "a"]; VElem 3 "li" [("key", PNum 2)] [VText "b"]]) /\
  nget 0 (trees (mkSt 1 true [] [] [] [] [] [] [])) = None /\
  (let '(st1, c1) := render ie_none (mkSt 1 true [] [] [] [] [] [] []) (DElem 0 "div" empty_ea [])
        (VElem 1 "ul" [("class", PStr "list")]
           [VElem 2 "li" [("key", PNum 1)] [VText "a"]; VElem 3 "li" [("key", PNum 2)] [VText "b"]]) in
   render ie_none st1 c1
        (VElem 1 "ul" [("class", PStr "list")]
           [VElem 2 "li" [("key", PNum 1)] [VText "a"]; VElem 3 "li" [("key", PNum 2)] [VText "b"]])
   = (st1, c1)).
Proof.
  assert (Hw : wf (VElem 1 "ul" [("class", PStr "list")]
        [VElem 2 "li" [("key", PNum 1)] [VText "a"]; VElem 3 "li" [("key", PNum 2)] [VText "b"]])).
  { constructor.
    - repeat constructor; simpl; intuition discriminate.
    - repeat constructor; discriminate.
    - intros _. split.
      + apply Forall_cons; [do 4 eexists; split; [reflexivity|split; reflexivity]|].
        apply Forall_cons; [do 4 eexists; split; [reflexivity|split; reflexivity]|].
        apply Forall_nil.
      + repeat constructor.
    - repeat constructor; simpl; try (intuition discriminate); intros H; discriminate. }
  split; [exact Hw|split; [reflexivity|]].
  exact (render_twice_no_mutation ie_none (mkSt 1 true [] [] [] [] [] [] []) 0 "div" empty_ea [] _ Hw eq_refl).
Defined.



Lemma render_keyed_list_to_empty_witness :
  keyed_group [VElem 2 "li" [("key", PNum 1)] [VText "a"]; VElem 3 "li" [("key", PNum 2)] [VText "b"]] /\
  nget 0 (trees (mkSt 1 true [] [] [] [] [] [] [])) = None /\
  hasNodeChanged (VElem 4 "ul" [] [])
    (VElem 1 "ul" [] [VElem 2 "li" [("key", PNum 1)] [VText "a"]; VElem 3 "li" [("key", PNum 2)] [VText "b"]])
  = false /\
  (let '(st1, c1) := render ie_none (mkSt 1 true [] [] [] [] [] [] []) (DElem 0 "div" empty_ea [])
        (VElem 1 "ul" [] [VElem 2 "li" [("key", PNum 1)] [VText "a"]; VElem 3 "li" [("key", PNum 2)] [VText "b"]]) in
   let '(st2, c2) := render ie_none st1 c1 (VElem 4 "ul" [] []) in
   exists u ea xs ea',
     c1 = DElem 0 "div" empty_ea [DElem u "ul" ea xs] /\
     c2 = DElem 0 "div" empty_ea [DElem u "ul" ea' []] /\
     List.length xs = 2 /\
     (exists l, log st2 = log st1 ++ l /\
                filter is_removal l = map (fun x => MRemoveChild u (dom_id x)) xs) /\
     (exists t, trace st2 = trace st1 ++ t /\
                filter is_cleanup t = map TCleanup (List.concat (map cleanup_order xs)))).
Proof.
  assert (Hg : keyed_group [VElem 2 "li" [("key", PNum 1)] [VText "a"]; VElem 3 "li" [("key", PNum 2)] [VText "b"]]).
  { split.
    - apply Forall_cons; [do 4 eexists; split; [reflexivity|split; reflexivity]|].
      apply Forall_cons; [do 4 eexists; split; [reflexivity|split; reflexivity]|].
      apply Forall_nil.
    - repeat constructor. }
  split; [exact Hg|split; [reflexivity|split; [reflexivity|]]].
  exact (render_keyed_list_to_empty ie_none (mkSt 1 true [] [] [] [] [] [] []) 0 "div" empty_ea [] 1 "ul" [] _ 4 []
           Hg eq_refl eq_refl).
Defined.



Lemma render_keyed_reorder_keeps_nodes_witness :
  keyed_group [VElem 2 "li" [("key", PNum 1)] [VText "a"]; VElem 3 "li" [("key", PNum 2)] [VText "b"];
               VElem 4 "li" [("key", PNum 3)] [VText "c"]] /\
  (let '(st1, c1) := render ie_none (mkSt 1 true [] [] [] [] [] [] []) (DElem 0 "div" empty_ea [])
        (VElem 1 "ul" [] [VElem 2 "li" [("key", PNum 1)] [VText "a"]; VElem 3 "li" [("key", PNum 2)] [VText "b"];
                          VElem 4 "li" [("key", PNum 3)] [VText "c"]]) in
   let '(st2, c2) := render ie_none st1 c1
        (VElem 5 "ul" [] [VElem 8 "li" [("key", PNum 3)] [VText "c!"]; VElem 6 "li" [("key", PNum 1)] [VText "a"];
                          VElem 7 "li" [("key", PNum 2)] [VText "b"]]) in
   exists u ea xa xb xc ea' ya yb yc,
     c1 = DElem 0 "div" empty_ea [DElem u "ul" ea [xa; xb; xc]] /\
     c2 = DElem 0 "div" empty_ea [DElem u "ul" ea' [yc; ya; yb]] /\
     dom_id ya = dom_id xa /\ dom_id yb = dom_id xb /\ dom_id yc = dom_id xc /\
     NoDup [dom_id xa; dom_id xb; dom_id xc]).
Proof.
  assert (Hg : keyed_group [VElem 2 "li" [("key", PNum 1)] [VText "a"]; VElem 3 "li" [("key", PNum 2)] [VText "b"];
                            VElem 4 "li" [("key", PNum 3)] [VText "c"]]).
  { split.
    - apply Forall_cons; [do 4 eexists; split; [reflexivity|split; reflexivity]|].
      apply Forall_cons; [do 4 eexists; split; [reflexivity|split; reflexivity]|].
      apply Forall_cons; [do 4 eexists; split; [reflexivity|split; reflexivity]|].
      apply Forall_nil.
    - repeat constructor. }
  split; [exact Hg|].
  exact (render_keyed_reorder_keeps_nodes ie_none (mkSt 1 true [] [] [] [] [] [] []) 0 "div" empty_ea [] 1 "ul" []
           (VElem 2 "li" [("key", PNum 1)] [VText "a"]) (VElem 3 "li" [("key", PNum 2)] [VText "b"])
           (VElem 4 "li" [("key", PNum 3)] [VText "c"]) 5 []
           (VElem 6 "li" [("key", PNum 1)] [VText "a"]) (VElem 7 "li" [("key", PNum 2)] [VText "b"])
           (VElem 8 "li" [("key", PNum 3)] [VText "c!"]) Hg eq_refl eq_refl eq_refl eq_refl eq_refl).
Defined.



(** C3: rendering the same description twice mutates the live tree when
    a child list holds a child with key [0] next to a keyed sibling.
    [props.key || null] turns the key [0] into [null], so that child is
    treated as unkeyed by the keyed path: on the second call it is created
    again and inserted, and its old node stays. *)
Lemma render_twice_key_zero_mutates :
  let '(st1, c1) := render ie_none (mkSt 1 true [] [] [] [] [] [] []) (DElem 0 "div" empty_ea [])
        (VElem 1 "ul" [] [VElem 2 "li" [("key", PNum 1)] []; VElem 3 "li" [("key", PNum 0)] []]) in
  let '(st2, c2) := render ie_none st1 c1
        (VElem 1 "ul" [] [VElem 2 "li" [("key", PNum 1)] []; VElem 3 "li" [("key", PNum 0)] []]) in
  log st2 = log st1 ++ [MCreateElement 4 "li"; MInsertBefore 1 4 (Some 3)] /\
  c1 = DElem 0 "div" empty_ea [DElem 1 "ul" empty_ea [DElem 2 "li" empty_ea []; DElem 3 "li" empty_ea []]] /\
  c2 = DElem 0 "div" empty_ea [DElem 1 "ul" empty_ea
         [DElem 2 "li" empty_ea []; DElem 4 "li" empty_ea []; DElem 3 "li" empty_ea []]].
Proof. vm_compute. split; [|split]; reflexivity. Qed.

(** C2: a list whose items carry the keys [0] and [1], emptied by a second
    render, keeps the item with key [0]: [props.key || null] turns that
    key into [null], so the keyed removal does not see the item; only the
    other item is removed and cleaned up. *)
Lemma render_keyed_key_zero_to_empty_leaves_child :
  let '(st1, c1) := render ie_none (mkSt 1 true [] [] [] [] [] [] []) (DElem 0 "div" empty_ea [])
        (VElem 1 "ul" [] [VElem 2 "li" [("key", PNum 0)] []; VElem 3 "li" [("key", PNum 1)] []]) in
  let '(st2, c2) := render ie_none st1 c1 (VElem 4 "ul" [] []) in
  c1 = DElem 0 "div" empty_ea [DElem 1 "ul" empty_ea [DElem 2 "li" empty_ea []; DElem 3 "li" empty_ea []]] /\
  c2 = DElem 0 "div" empty_ea [DElem 1 "ul" empty_ea [DElem 2 "li" empty_ea []]] /\
  log st2 = log st1 ++ [MUnlistenAll 3; MRemoveChild 1 3] /\
  trace st2 = trace st1 ++ [TCleanup 3].
Proof. vm_compute. split; [|split; [|split]]; reflexivity. Qed.

(** C1: a list keyed [0], [1], [2] reordered to [2], [0], [1]: the item with
    key [0] is created again (its key is turned into [null] by
    [props.key || null]) and its old node stays in the list. *)
Lemma render_keyed_reorder_key_zero_recreates :
  let '(st1, c1) := render ie_none (mkSt 1 true [] [] [] [] [] [] []) (DElem 0 "div" empty_ea [])
        (VElem 1 "ul" [] [VElem 2 "li" [("key", PNum 0)] []; VElem 3 "li" [("key", PNum 1)] [];
                          VElem 4 "li" [("key", PNum 2)] []]) in
  let '(st2, c2) := render ie_none st1 c1
        (VElem 5 "ul" [] [VElem 6 "li" [("key", PNum 2)] []; VElem 7 "li" [("key", PNum 0)] [];
                          VElem 8 "li" [("key", PNum 1)] []]) in
  c1 = DElem 0 "div" empty_ea [DElem 1 "ul" empty_ea
         [DElem 2 "li" empty_ea []; DElem 3 "li" empty_ea []; DElem 4 "li" empty_ea []]] /\
  c2 = DElem 0 "div" empty_ea [DElem 1 "ul" empty_ea
         [DElem 4 "li" empty_ea []; DElem 5 "li" empty_ea []; DElem 3 "li" empty_ea []; DElem 2 "li" empty_ea []]] /\
  log st2 = log st1 ++ [MCreateElement 5 "li"; MInsertBefore 1 4 (Some 2);
                        MInsertBefore 1 5 (Some 2); MInsertBefore 1 3 (Some 2)].
Proof. vm_compute. split; [|split]; reflexivity. Qed.

End VDomIdem.


Module ESFacts.
Import VDom Dispatch VDomFacts ES.

(** ** Lookups in the registry maps *)

Lemma aget_aset_eq : forall {V} k (v : V) l, aget k (aset k v l) = Some v.
Proof.
  intros V k v l. induction l as [|[k0 v0] l IH]; simpl; [rewrite String.eqb_refl; reflexivity|].
  destruct (String.eqb k k0) eqn:E; simpl; [rewrite String.eqb_refl; reflexivity|rewrite E; exact IH].
Qed.

Lemma aget_aset : forall {V} k k' (v : V) l,
  aget k (aset k' v l) = if String.eqb k k' then Some v else aget k l.
Proof.
  intros V k k' v l. destruct (String.eqb k k') eqn:E.
  - apply String.eqb_eq in E. subst. apply aget_aset_eq.
  - apply String.eqb_neq in E. apply aget_aset_other. exact E.
Qed.

Lemma aget_adel : forall {V} k k' (l : list (string * V)),
  aget k (adel k' l) = if String.eqb k k' then None else aget k l.
Proof.
  intros V k k' l. induction l as [|[k0 v0] l IH]; simpl.
  - destruct (String.eqb k k'); reflexivity.
  - destruct (String.eqb k' k0) eqn:E0; simpl.
    + apply String.eqb_eq in E0. subst k0. rewrite IH.
      destruct (String.eqb k k'); reflexivity.
    + rewrite IH. destruct (String.eqb k k0) eqn:E1; [|reflexivity].
      apply String.eqb_eq in E1. subst k0.
      destruct (String.eqb k k') eqn:E2; [|reflexivity].
      apply String.eqb_eq in E2. subst. rewrite String.eqb_refl in E0. discriminate.
Qed.

Lemma nget_nset : forall {V} k k' (v : V) m,
  nget k (nset k' v m) = if Nat.eqb k k' then Some v else nget k m.
Proof.
  intros V k k' v m. destruct (Nat.eqb k k') eqn:E.
  - apply Nat.eqb_eq in E. subst. apply nget_nset_eq.
  - apply Nat.eqb_neq in E. apply nget_nset_neq. exact E.
Qed.

Lemma nget_ndel : forall {V} k k' (m : list (nat * V)),
  nget k (ndel k' m) = if Nat.eqb k k' then None else nget k m.
Proof.
  intros V k k' m. induction m as [|[k0 v0] m IH]; simpl.
  - destruct (Nat.eqb k k'); reflexivity.
  - destruct (Nat.eqb k' k0) eqn:E0; simpl.
    + apply Nat.eqb_eq in E0. subst k0. rewrite IH.
      destruct (Nat.eqb k k'); reflexivity.
    + rewrite IH. destruct (Nat.eqb k k0) eqn:E1; [|reflexivity].
      apply Nat.eqb_eq in E1. subst k0.
      destruct (Nat.eqb k k') eqn:E2; [|reflexivity].
      apply Nat.eqb_eq in E2. subst. rewrite Nat.eqb_refl in E0. discriminate.
Qed.

Lemma nset_same : forall {V} k (v : V) m, nget k m = Some v -> nset k v m = m.
Proof.
  intros V k v m. induction m as [|[k0 v0] m IH]; simpl; intros H; [discriminate|].
  destruct (Nat.eqb k k0) eqn:E.
  - injection H as <-. apply Nat.eqb_eq in E. subst. reflexivity.
  - rewrite IH; auto.
Qed.

Lemma aset_same : forall {V} k (v : V) l, aget k l = Some v -> aset k v l = l.
Proof.
  intros V k v l. induction l as [|[k0 v0] l IH]; simpl; intros H; [discriminate|].
  destruct (String.eqb k k0) eqn:E.
  - injection H as <-. apply String.eqb_eq in E. subst. reflexivity.
  - rewrite IH; auto.
Qed.

Lemma handlers_for_nset : forall m el el' ty' eh,
  handlers_for (nset el eh m) el' ty' =
  if Nat.eqb el' el then match aget ty' eh with Some l => l | None => [] end
  else handlers_for m el' ty'.
Proof.
  intros. unfold handlers_for. rewrite nget_nset. destruct (Nat.eqb el' el); reflexivity.
Qed.

Lemma handlers_for_es_on : forall m el ty h el' ty',
  handlers_for (es_on m el ty h) el' ty' =
  if Nat.eqb el' el && String.eqb ty' ty then
    (let hs := handlers_for m el ty in if existsb (Nat.eqb h) hs then hs else hs ++ [h])
  else handlers_for m el' ty'.
Proof.
  intros. unfold es_on. rewrite handlers_for_nset.
  destruct (Nat.eqb el' el) eqn:E; simpl.
  - apply Nat.eqb_eq in E. subst el'. rewrite aget_aset.
    unfold handlers_for. destruct (String.eqb ty' ty) eqn:E2.
    + apply String.eqb_eq in E2. subst ty'. destruct (nget el m); reflexivity.
    + destruct (nget el m); reflexivity.
  - reflexivity.
Qed.

Lemma handlers_for_es_off : forall m el ty h el' ty',
  handlers_for (es_off m el ty h) el' ty' =
  if Nat.eqb el' el && String.eqb ty' ty then remove_first h (handlers_for m el ty)
  else handlers_for m el' ty'.
Proof.
  intros. unfold es_off.
  destruct (nget el m) as [eh|] eqn:Em.
  - destruct (aget ty eh) as [hs|] eqn:Ea.
    + assert (Hhs : handlers_for m el ty = hs) by (unfold handlers_for; rewrite Em, Ea; reflexivity).
      rewrite Hhs.
      destruct (remove_first h hs) as [|x r] eqn:Er; rewrite handlers_for_nset;
        destruct (Nat.eqb el' el) eqn:E; simpl; try reflexivity;
        apply Nat.eqb_eq in E; subst el'.
      * rewrite aget_adel. destruct (String.eqb ty' ty); [reflexivity|].
        unfold handlers_for. rewrite Em. reflexivity.
      * rewrite aget_aset. destruct (String.eqb ty' ty); [reflexivity|].
        unfold handlers_for. rewrite Em. reflexivity.
    + destruct (Nat.eqb el' el && String.eqb ty' ty) eqn:E; [|reflexivity].
      apply andb_true_iff in E as [E1 E2]. apply Nat.eqb_eq in E1. apply String.eqb_eq in E2.
      subst. unfold handlers_for. rewrite Em, Ea. reflexivity.
  - destruct (Nat.eqb el' el && String.eqb ty' ty) eqn:E; [|reflexivity].
    apply andb_true_iff in E as [E1 E2]. apply Nat.eqb_eq in E1. apply String.eqb_eq in E2.
    subst. unfold handlers_for. rewrite Em. reflexivity.
Qed.

Lemma handlers_for_ndel : forall m el el' ty',
  handlers_for (ndel el m) el' ty' = if Nat.eqb el' el then [] else handlers_for m el' ty'.
Proof.
  intros. unfold handlers_for. rewrite nget_ndel. destruct (Nat.eqb el' el); reflexivity.
Qed.

Lemma handlers_for_None : forall m el ty, nget el m = None -> handlers_for m el ty = [].
Proof. intros m el ty H. unfold handlers_for. rewrite H. reflexivity. Qed.

(** [off] as seen by the dispatcher. *)
Lemma handlers_for_off : forall s el ty h el' ty',
  handlers_for (eventHandlers (off s el ty h)) el' ty' =
  if Nat.eqb el' el then
    match ty with
    | Some t =>
        if ty_truthy ty then
          (if String.eqb ty' t then
             match h with Some f => remove_first f (handlers_for (eventHandlers s) el t) | None => [] end
           else handlers_for (eventHandlers s) el' ty')
        else []
    | None => []
    end
  else handlers_for (eventHandlers s) el' ty'.
Proof.
  intros. unfold off.
  destruct (nget el (eventHandlers s)) as [eh|] eqn:Em.
  - destruct ty as [t|]; [destruct h as [f|]|]; cbn [eventHandlers set_eventHandlers];
      [destruct (ty_truthy (Some t)) eqn:Et; cbn [eventHandlers set_eventHandlers]
      |destruct (ty_truthy (Some t)) eqn:Et; cbn [eventHandlers set_eventHandlers]
      |].
    + rewrite handlers_for_es_off. destruct (Nat.eqb el' el) eqn:E; simpl; [|reflexivity].
      apply Nat.eqb_eq in E; subst el'. destruct (String.eqb ty' t) eqn:E2; reflexivity.
    + rewrite handlers_for_ndel. reflexivity.
    + rewrite handlers_for_nset. destruct (Nat.eqb el' el) eqn:E; [|reflexivity].
      apply Nat.eqb_eq in E; subst el'. rewrite aget_adel.
      destruct (String.eqb ty' t); [reflexivity|]. unfold handlers_for. rewrite Em. reflexivity.
    + rewrite handlers_for_ndel. reflexivity.
    + rewrite handlers_for_ndel. reflexivity.
  - destruct (Nat.eqb el' el) eqn:E; [|reflexivity].
    apply Nat.eqb_eq in E; subst el'. rewrite !handlers_for_None by exact Em.
    destruct ty as [t|]; [|reflexivity]. destruct (ty_truthy (Some t)); [|reflexivity].
    destruct (String.eqb ty' t); [|reflexivity].
    destruct h; [rewrite (handlers_for_None _ el t Em)|]; reflexivity.
Qed.

(** ** List helpers *)

Lemma remove_first_app_notin : forall h l x, ~ In h l -> remove_first h (l ++ [x]) = l ++ remove_first h [x].
Proof.
  intros h l x Hn. induction l as [|y l IH]; simpl; [reflexivity|].
  destruct (Nat.eqb y h) eqn:E.
  - apply Nat.eqb_eq in E. subst. exfalso. apply Hn. left. reflexivity.
  - rewrite IH; [reflexivity|]. intros Hi. apply Hn. right. exact Hi.
Qed.

Lemma remove_first_app_in : forall h l x, In h l -> remove_first h (l ++ [x]) = remove_first h l ++ [x].
Proof.
  intros h l x Hi. induction l as [|y l IH]; simpl in *; [contradiction|].
  destruct (Nat.eqb y h) eqn:E; [reflexivity|].
  destruct Hi as [->|Hi]; [rewrite Nat.eqb_refl in E; discriminate|].
  rewrite IH by exact Hi. reflexivity.
Qed.

Lemma remove_first_notin_app_self : forall h l, ~ In h l -> remove_first h (l ++ [h]) = l.
Proof.
  intros h l Hn. rewrite remove_first_app_notin by exact Hn. simpl. rewrite Nat.eqb_refl, app_nil_r. reflexivity.
Qed.

Lemma remove_first_incl : forall h l x, In x (remove_first h l) -> In x l.
Proof.
  intros h l x. induction l as [|y l IH]; simpl; [auto|].
  destruct (Nat.eqb y h); simpl; [auto|]. intros [->|Hi]; auto.
Qed.

Lemma remove_first_NoDup : forall h l, NoDup l -> NoDup (remove_first h l).
Proof.
  intros h l Hnd. induction Hnd as [|y l Hy Hnd IH]; simpl; [constructor|].
  destruct (Nat.eqb y h); [exact Hnd|].
  constructor; [|exact IH]. intros Hi. apply Hy. eapply remove_first_incl. exact Hi.
Qed.

Lemma NoDup_snoc : forall (l : list nat) x, NoDup l -> ~ In x l -> NoDup (l ++ [x]).
Proof.
  intros l x Hnd. induction Hnd as [|y l Hy Hnd IH]; simpl; intros Hx.
  - constructor; [intros []|constructor].
  - constructor.
    + intros Hi. apply in_app_or in Hi as [Hi|[<-|[]]]; [contradiction|]. apply Hx. left. reflexivity.
    + apply IH. intros Hi. apply Hx. right. exact Hi.
Qed.

Lemma existsb_eqb_In : forall h l, existsb (Nat.eqb h) l = true <-> In h l.
Proof.
  intros h l. rewrite existsb_exists. split.
  - intros [x [Hx E]]. apply Nat.eqb_eq in E. subst. exact Hx.
  - intros Hi. exists h. split; [exact Hi|apply Nat.eqb_refl].
Qed.

Lemma handlers_for_In : forall m el ty h, In h (handlers_for m el ty) ->
  exists eh hs, nget el m = Some eh /\ aget ty eh = Some hs /\ In h hs.
Proof.
  intros m el ty h. unfold handlers_for.
  destruct (nget el m) as [eh|]; [|intros []].
  destruct (aget ty eh) as [hs|] eqn:Ea; [|intros []].
  intros Hi. exists eh, hs. repeat split; auto.
Qed.

Lemma on_lookup : forall s el ty h el' ty',
  handlers_for (eventHandlers (fst (on s el ty h))) el' ty' =
  if Nat.eqb el' el && String.eqb ty' ty then
    (let hs := handlers_for (eventHandlers s) el ty in if existsb (Nat.eqb h) hs then hs else hs ++ [h])
  else handlers_for (eventHandlers s) el' ty'.
Proof. intros. unfold on. cbn [fst eventHandlers set_eventHandlers]. apply handlers_for_es_on. Qed.

(** ** [on] and [off] on [eventHandlers] *)

(** [on] with a handler already registered for the element and event type
    changes nothing. *)
Theorem on_registered_handler_noop : forall s el ty h,
  In h (handlers_for (eventHandlers s) el ty) -> fst (on s el ty h) = s.
Proof.
  intros s el ty h Hi.
  destruct (handlers_for_In _ _ _ _ Hi) as [eh [hs [Em [Ea Hh]]]].
  unfold on, es_on. cbn [fst]. rewrite Em, Ea.
  assert (E : existsb (Nat.eqb h) hs = true) by (apply existsb_eqb_In; exact Hh).
  rewrite E, (aset_same _ _ _ Ea), (nset_same _ _ _ Em).
  destruct s; reflexivity.
Qed.

(** After [on(el, ty, h)] the handlers of [(el, ty)] are the previous ones
    with [h] appended unless it was there; other pairs are untouched. *)
Theorem on_then_lookup : forall s el ty h el' ty',
  handlers_for (eventHandlers (fst (on s el ty h))) el' ty' =
  if Nat.eqb el' el && String.eqb ty' ty then
    (if existsb (Nat.eqb h) (handlers_for (eventHandlers s) el ty)
     then handlers_for (eventHandlers s) el ty
     else handlers_for (eventHandlers s) el ty ++ [h])
  else handlers_for (eventHandlers s) el' ty'.
Proof. intros. rewrite on_lookup. reflexivity. Qed.

(** Calling the unsubscribe function returned by [on] for a fresh handler
    and a non-empty event type restores every handler list. *)
Theorem on_unsubscribe_restores : forall s el ty h,
  ty <> "" -> ~ In h (handlers_for (eventHandlers s) el ty) ->
  forall el' ty',
    handlers_for (eventHandlers (run_unsub (fst (on s el ty h)) (snd (on s el ty h)))) el' ty' =
    handlers_for (eventHandlers s) el' ty'.
Proof.
  intros s el ty h Hty Hn el' ty'.
  change (snd (on s el ty h)) with (UOff el ty h). cbn [run_unsub].
  rewrite handlers_for_off.
  assert (Ht : ty_truthy (Some ty) = true).
  { unfold ty_truthy. apply String.eqb_neq in Hty. rewrite Hty. reflexivity. }
  rewrite Ht, !on_lookup, Nat.eqb_refl, String.eqb_refl. cbn [andb].
  assert (E : existsb (Nat.eqb h) (handlers_for (eventHandlers s) el ty) = false).
  { destruct (existsb _ _) eqn:E; [apply existsb_eqb_In in E; contradiction|reflexivity]. }
  rewrite E.
  destruct (Nat.eqb el' el) eqn:E1; cbn [andb]; [|reflexivity].
  apply Nat.eqb_eq in E1. subst el'.
  destruct (String.eqb ty' ty) eqn:E2.
  - apply String.eqb_eq in E2. subst ty'. apply remove_first_notin_app_self. exact Hn.
  - rewrite ?Nat.eqb_refl; cbn [andb]; reflexivity.
Qed.

(** [off] with no event type, or with the empty string as event type,
    removes every handler of the element and touches no other element. *)
Theorem off_falsy_type_clears_element : forall s el ty h,
  ty_truthy ty = false ->
  forall el' ty',
    handlers_for (eventHandlers (off s el ty h)) el' ty' =
    if Nat.eqb el' el then [] else handlers_for (eventHandlers s) el' ty'.
Proof.
  intros s el ty h Ht el' ty'. rewrite handlers_for_off.
  destruct (Nat.eqb el' el); [|reflexivity].
  destruct ty as [t|]; [rewrite Ht|]; reflexivity.
Qed.

(** Consequently, the unsubscribe function that [on] returns for the empty
    event type removes all the element's handlers. *)
Theorem on_empty_type_unsubscribe_clears_element : forall s el h el' ty',
  handlers_for (eventHandlers (run_unsub (fst (on s el "" h)) (snd (on s el "" h)))) el' ty' =
  if Nat.eqb el' el then [] else handlers_for (eventHandlers s) el' ty'.
Proof.
  intros s el h el' ty'.
  change (snd (on s el "" h)) with (UOff el "" h). cbn [run_unsub]. rewrite handlers_for_off.
  cbn [ty_truthy String.eqb negb].
  destruct (Nat.eqb el' el) eqn:E; [reflexivity|].
  rewrite on_lookup, E. reflexivity.
Qed.

(** [off(el, ty)] without a handler drops the whole list of [(el, ty)] and
    nothing else. *)
Theorem off_type_clears_pair : forall s el ty,
  ty <> "" ->
  forall el' ty',
    handlers_for (eventHandlers (off s el (Some ty) None)) el' ty' =
    if Nat.eqb el' el && String.eqb ty' ty then [] else handlers_for (eventHandlers s) el' ty'.
Proof.
  intros s el ty Hty el' ty'. rewrite handlers_for_off.
  assert (Ht : ty_truthy (Some ty) = true).
  { unfold ty_truthy. apply String.eqb_neq in Hty. rewrite Hty. reflexivity. }
  rewrite Ht. destruct (Nat.eqb el' el) eqn:E; cbn [andb]; [|reflexivity].
  apply Nat.eqb_eq in E. subst el'. destruct (String.eqb ty' ty); reflexivity.
Qed.

(** Every handler list stays duplicate-free under [on] and [off]. *)
Theorem on_off_keep_handlers_nodup : forall s,
  hm_nodup (eventHandlers s) ->
  (forall el ty h, hm_nodup (eventHandlers (fst (on s el ty h)))) /\
  (forall el ty h, hm_nodup (eventHandlers (off s el ty h))).
Proof.
  intros s Hnd. split.
  - intros el ty h el' ty'. rewrite on_lookup.
    destruct (Nat.eqb el' el && String.eqb ty' ty) eqn:E; [|apply Hnd].
    apply andb_true_iff in E as [E1 E2]. apply Nat.eqb_eq in E1. apply String.eqb_eq in E2. subst.
    cbv zeta. destruct (existsb _ _) eqn:Ex; [apply Hnd|].
    apply NoDup_snoc; [apply Hnd|]. intros Hi. apply existsb_eqb_In in Hi. congruence.
  - intros el ty h el' ty'. rewrite handlers_for_off.
    destruct (Nat.eqb el' el) eqn:E; [|apply Hnd].
    destruct ty as [t|]; [|constructor].
    destruct (ty_truthy (Some t)); [|constructor].
    destruct (String.eqb ty' t); [|apply Hnd].
    destruct h; [apply remove_first_NoDup, Hnd|constructor].
Qed.

(** No element ever keeps an event type with an empty handler array:
    [on] only stores non-empty arrays and [off] deletes a type whose
    array it empties. *)
Theorem on_off_keep_no_empty_arrays : forall s,
  hm_no_empty (eventHandlers s) ->
  (forall el ty h, hm_no_empty (eventHandlers (fst (on s el ty h)))) /\
  (forall el ty h, hm_no_empty (eventHandlers (off s el ty h))).
Proof.
  intros s Hne. split.
  - intros el ty h el' eh' ty' hs'. unfold on, es_on. cbn [fst eventHandlers set_eventHandlers].
    rewrite nget_nset. destruct (Nat.eqb el' el) eqn:E.
    + intros Eh. injection Eh as <-. rewrite aget_aset.
      destruct (String.eqb ty' ty) eqn:E2.
      * intros Eh. injection Eh as <-.
        destruct (existsb (Nat.eqb h) _) eqn:Ex.
        -- apply existsb_eqb_In in Ex. intros Ee. rewrite Ee in Ex. contradiction.
        -- destruct (match _ with Some l => l | None => [] end); discriminate.
      * apply Nat.eqb_eq in E. subst el'.
        destruct (nget el (eventHandlers s)) as [eh|] eqn:Em; [|discriminate].
        apply (Hne el eh ty' hs' Em).
    + apply Hne.
  - intros el ty h el' eh' ty' hs'. unfold off.
    destruct (nget el (eventHandlers s)) as [eh|] eqn:Em; [|apply Hne].
    assert (Hdel : nget el' (ndel el (eventHandlers s)) = Some eh' -> aget ty' eh' = Some hs' -> hs' <> []).
    { rewrite nget_ndel. destruct (Nat.eqb el' el); [discriminate|apply Hne]. }
    destruct ty as [t|]; [destruct h as [f|]; destruct (ty_truthy (Some t))|];
      cbn [eventHandlers set_eventHandlers]; try exact Hdel.
    + unfold es_off. rewrite Em.
      destruct (aget t eh) as [hs|] eqn:Ea; [|apply Hne].
      destruct (remove_first f hs) as [|x r] eqn:Er; rewrite nget_nset;
        (destruct (Nat.eqb el' el) eqn:E; [|apply Hne]); intros Eh; injection Eh as <-.
      * rewrite aget_adel. destruct (String.eqb ty' t); [discriminate|]. apply (Hne el eh ty' hs' Em).
      * rewrite aget_aset. destruct (String.eqb ty' t).
        -- intros Eh. injection Eh as <-. discriminate.
        -- apply (Hne el eh ty' hs' Em).
    + rewrite nget_nset. destruct (Nat.eqb el' el) eqn:E; [|apply Hne].
      intros Eh. injection Eh as <-. rewrite aget_adel.
      destruct (String.eqb ty' t); [discriminate|]. apply (Hne el eh ty' hs' Em).
Qed.

(** ** [onGlobal] and [offGlobal] *)

Lemma onGlobal_lookup : forall s ty h ty',
  global_for (fst (onGlobal s ty h)) ty' =
  if String.eqb ty' ty then global_for s ty ++ [h] else global_for s ty'.
Proof.
  intros. unfold onGlobal, global_for. cbn [fst globalHandlers set_globalHandlers].
  rewrite aget_aset. destruct (String.eqb ty' ty) eqn:E; [|reflexivity].
  apply String.eqb_eq in E. subst. reflexivity.
Qed.

Lemma offGlobal_lookup : forall s ty h ty',
  global_for (offGlobal s ty h) ty' =
  if String.eqb ty' ty then remove_first h (global_for s ty) else global_for s ty'.
Proof.
  intros. unfold offGlobal, global_for.
  destruct (aget ty (globalHandlers s)) as [hs|] eqn:E.
  - cbn [globalHandlers set_globalHandlers]. rewrite aget_aset.
    destruct (String.eqb ty' ty); reflexivity.
  - destruct (String.eqb ty' ty) eqn:E2; [|reflexivity].
    apply String.eqb_eq in E2. subst. rewrite E. reflexivity.
Qed.

(** The unsubscribe function of [onGlobal] restores the global handlers
    when the handler was not registered for that type. *)
Theorem onGlobal_unsubscribe_restores : forall s ty h,
  ~ In h (global_for s ty) ->
  forall ty', global_for (run_unsub (fst (onGlobal s ty h)) (snd (onGlobal s ty h))) ty' =
              global_for s ty'.
Proof.
  intros s ty h Hn ty'.
  change (snd (onGlobal s ty h)) with (UOffGlobal ty h). cbn [run_unsub].
  rewrite offGlobal_lookup, !onGlobal_lookup, String.eqb_refl.
  destruct (String.eqb ty' ty) eqn:E; [|reflexivity].
  apply String.eqb_eq in E. subst. apply remove_first_notin_app_self. exact Hn.
Qed.

(** [onGlobal] does not deduplicate and [offGlobal] removes the first
    match: registering an already registered global handler and calling the
    returned unsubscribe moves that handler to the end of the list. *)
Theorem onGlobal_unsubscribe_moves_registered : forall s ty h,
  In h (global_for s ty) ->
  global_for (run_unsub (fst (onGlobal s ty h)) (snd (onGlobal s ty h))) ty =
  remove_first h (global_for s ty) ++ [h].
Proof.
  intros s ty h Hi.
  change (snd (onGlobal s ty h)) with (UOffGlobal ty h). cbn [run_unsub].
  rewrite offGlobal_lookup, onGlobal_lookup, String.eqb_refl.
  apply remove_first_app_in. exact Hi.
Qed.

(** ** [subscribe] *)

Lemma subscribe_lookup : forall s ty l,
  listeners_for (fst (subscribe s ty l)) ty = listeners_for s ty ++ [l].
Proof.
  intros. unfold subscribe, listeners_for, larray.
  destruct (aget ty (customEvents s)) as [a|] eqn:E; cbn [fst customEvents larrays next_obj].
  - rewrite E, nget_nset_eq. reflexivity.
  - rewrite aget_aset_eq, !nget_nset_eq. reflexivity.
Qed.

Lemma subscribe_unsub : forall s ty l,
  exists a, snd (subscribe s ty l) = USubscribe a l /\
            aget ty (customEvents (fst (subscribe s ty l))) = Some a /\
            ((forall a', aget ty (customEvents s) = Some a' -> a' < next_obj s) ->
             a < next_obj (fst (subscribe s ty l))).
Proof.
  intros. unfold subscribe.
  destruct (aget ty (customEvents s)) as [a|] eqn:E; cbn [fst snd customEvents next_obj].
  - exists a. rewrite E. repeat split; auto.
  - exists (next_obj s). rewrite aget_aset_eq. repeat split; auto.
Qed.

Lemma subscribe_keep : forall s ty l a,
  aget ty (customEvents s) = Some a -> customEvents (fst (subscribe s ty l)) = customEvents s.
Proof. intros s ty l a E. unfold subscribe. rewrite E. reflexivity. Qed.

Lemma unsub_subscribe_lookup : forall s ty a l,
  aget ty (customEvents s) = Some a ->
  listeners_for (run_unsub s (USubscribe a l)) ty = remove_first l (listeners_for s ty) /\
  customEvents (run_unsub s (USubscribe a l)) = customEvents s.
Proof.
  intros s ty a l E. unfold listeners_for, larray. cbn [run_unsub customEvents larrays].
  rewrite E, nget_nset_eq. split; reflexivity.
Qed.

(** The unsubscribe function of [subscribe] restores the listeners of the
    event type when the listener was not subscribed to it. *)
Theorem subscribe_unsubscribe_restores : forall s ty l,
  ~ In l (listeners_for s ty) ->
  listeners_for (run_unsub (fst (subscribe s ty l)) (snd (subscribe s ty l))) ty = listeners_for s ty.
Proof.
  intros s ty l Hn.
  destruct (subscribe_unsub s ty l) as [a [Hu [Ha _]]]. rewrite Hu.
  destruct (unsub_subscribe_lookup _ _ _ l Ha) as [-> _].
  rewrite subscribe_lookup. apply remove_first_notin_app_self. exact Hn.
Qed.

(** The unsubscribe function of [subscribe] removes the listener by value,
    not the subscription it came from: after subscribing the same listener
    twice, calling the first unsubscribe function twice removes both. *)
Theorem subscribe_twice_first_unsubscribe_twice : forall s ty l,
  ~ In l (listeners_for s ty) ->
  let s1 := fst (subscribe s ty l) in
  let u1 := snd (subscribe s ty l) in
  let s2 := fst (subscribe s1 ty l) in
  listeners_for (run_unsub (run_unsub s2 u1) u1) ty = listeners_for s ty.
Proof.
  intros s ty l Hn. cbv zeta.
  destruct (subscribe_unsub s ty l) as [a [Hu [Ha _]]]. rewrite Hu.
  set (s1 := fst (subscribe s ty l)) in *.
  set (s2 := fst (subscribe s1 ty l)).
  assert (Ha2 : aget ty (customEvents s2) = Some a).
  { unfold s2. rewrite (subscribe_keep s1 ty l a Ha). exact Ha. }
  destruct (unsub_subscribe_lookup _ _ _ l Ha2) as [E1 C1].
  assert (Ha3 : aget ty (customEvents (run_unsub s2 (USubscribe a l))) = Some a) by (rewrite C1; exact Ha2).
  destruct (unsub_subscribe_lookup _ _ _ l Ha3) as [E2 _].
  rewrite E2, E1. unfold s2, s1. rewrite !subscribe_lookup.
  rewrite remove_first_app_in by (apply in_or_app; right; left; reflexivity).
  rewrite (remove_first_notin_app_self _ _ Hn).
  apply remove_first_notin_app_self. exact Hn.
Qed.

(** [cleanup] clears [customEvents] but an unsubscribe function keeps the
    listener array it captured: one obtained before [cleanup] has no effect
    on what is subscribed afterwards. *)
Theorem cleanup_detaches_subscribe_unsubscribe : forall s ty l,
  (forall a, aget ty (customEvents s) = Some a -> a < next_obj s) ->
  forall ty' l',
    listeners_for (run_unsub (fst (subscribe (cleanup (fst (subscribe s ty l))) ty' l'))
                             (snd (subscribe s ty l))) ty' = [l'].
Proof.
  intros s ty l Hwf ty' l'.
  destruct (subscribe_unsub s ty l) as [a [Hu [_ Hlt]]]. specialize (Hlt Hwf).
  rewrite Hu. set (s1 := fst (subscribe s ty l)) in *.
  unfold subscribe at 1, cleanup. cbn [customEvents aget].
  unfold listeners_for, larray. cbn [run_unsub customEvents larrays next_obj fst].
  rewrite aget_aset_eq, nget_nset_neq by lia. rewrite !nget_nset_eq. reflexivity.
Qed.

(** By contrast the unsubscribe function of [on] calls [off] on the maps of
    the moment: one obtained before [cleanup] removes the same handler
    registered again afterwards. *)
Theorem cleanup_stale_on_unsubscribe_removes_new : forall s el ty h,
  handlers_for (eventHandlers (run_unsub (fst (on (cleanup (fst (on s el ty h))) el ty h))
                                         (snd (on s el ty h)))) el ty = [].
Proof.
  intros s el ty h.
  change (snd (on s el ty h)) with (UOff el ty h). cbn [run_unsub].
  rewrite handlers_for_off, Nat.eqb_refl, String.eqb_refl.
  rewrite on_lookup, Nat.eqb_refl, String.eqb_refl. cbn [andb].
  unfold cleanup. cbn [eventHandlers handlers_for nget existsb]. cbn.
  destruct (negb (String.eqb ty "")); rewrite ?Nat.eqb_refl; reflexivity.
Qed.

(** ** [delegate] *)

Lemma remove_obj_notin : forall o L M,
  Forall (fun d => dobj d <> o) L -> remove_obj o (L ++ M) = L ++ remove_obj o M.
Proof.
  intros o L M H. induction H as [|x L Hx H IH]; simpl; [reflexivity|].
  apply Nat.eqb_neq in Hx. rewrite Hx, IH. reflexivity.
Qed.

Lemma delegate_lookup : forall s ty sel h c,
  delegates_for (fst (delegate s ty sel h c)) ty =
  delegates_for s ty ++
  [mkDE (match aget ty (delegateHandlers s) with Some _ => next_obj s | None => S (next_obj s) end) sel h c].
Proof.
  intros. unfold delegate, delegates_for, darray.
  destruct (aget ty (delegateHandlers s)) as [a|] eqn:E; cbn [fst delegateHandlers darrays next_obj].
  - rewrite E, nget_nset_eq. reflexivity.
  - rewrite aget_aset_eq, !nget_nset_eq. reflexivity.
Qed.

Lemma delegate_unsub : forall s ty sel h c,
  exists a, snd (delegate s ty sel h c) =
            UDelegate a (match aget ty (delegateHandlers s) with Some _ => next_obj s | None => S (next_obj s) end) /\
            aget ty (delegateHandlers (fst (delegate s ty sel h c))) = Some a /\
            next_obj (fst (delegate s ty sel h c)) =
            S (match aget ty (delegateHandlers s) with Some _ => next_obj s | None => S (next_obj s) end).
Proof.
  intros. unfold delegate.
  destruct (aget ty (delegateHandlers s)) as [a|] eqn:E; cbn [fst snd delegateHandlers next_obj].
  - exists a. rewrite E. auto.
  - exists (next_obj s). rewrite aget_aset_eq. auto.
Qed.

Lemma delegate_keep : forall s ty sel h c a,
  aget ty (delegateHandlers s) = Some a ->
  delegateHandlers (fst (delegate s ty sel h c)) = delegateHandlers s /\
  snd (delegate s ty sel h c) = UDelegate a (next_obj s).
Proof. intros s ty sel h c a E. unfold delegate. rewrite E. split; reflexivity. Qed.

Lemma unsub_delegate_lookup : forall s ty a o,
  aget ty (delegateHandlers s) = Some a ->
  delegates_for (run_unsub s (UDelegate a o)) ty = remove_obj o (delegates_for s ty) /\
  delegateHandlers (run_unsub s (UDelegate a o)) = delegateHandlers s /\
  next_obj (run_unsub s (UDelegate a o)) = next_obj s.
Proof.
  intros s ty a o E. unfold delegates_for, darray. cbn [run_unsub delegateHandlers darrays next_obj].
  rewrite E, nget_nset_eq. repeat split; reflexivity.
Qed.

(** The unsubscribe function of [delegate] removes its own registration
    object: after delegating the same selector and handler twice, calling
    the first unsubscribe function twice leaves the second registration in
    place, and calling the second one then restores the list. *)
Theorem delegate_unsubscribe_removes_own_entry : forall s ty sel h c,
  Forall (fun d => dobj d < next_obj s) (delegates_for s ty) ->
  let r1 := delegate s ty sel h c in
  let r2 := delegate (fst r1) ty sel h c in
  let s3 := run_unsub (run_unsub (fst r2) (snd r1)) (snd r1) in
  delegates_for s3 ty = delegates_for s ty ++ [mkDE (next_obj (fst r1)) sel h c] /\
  delegates_for (run_unsub s3 (snd r2)) ty = delegates_for s ty.
Proof.
  intros s ty sel h c Hwf. cbv zeta.
  destruct (delegate_unsub s ty sel h c) as [a [Hu [Ha Hn]]].
  set (o1 := match aget ty (delegateHandlers s) with Some _ => next_obj s | None => S (next_obj s) end) in *.
  assert (Ho1 : next_obj s <= o1) by (unfold o1; destruct (aget ty (delegateHandlers s)); lia).
  rewrite Hu. set (s1 := fst (delegate s ty sel h c)) in *.
  destruct (delegate_keep s1 ty sel h c a Ha) as [Hk2 Hu2]. rewrite Hu2.
  set (s2 := fst (delegate s1 ty sel h c)).
  assert (Ha2 : aget ty (delegateHandlers s2) = Some a) by (unfold s2; rewrite Hk2; exact Ha).
  assert (L2 : delegates_for s2 ty = delegates_for s ty ++ [mkDE o1 sel h c; mkDE (next_obj s1) sel h c]).
  { unfold s2. rewrite delegate_lookup, Ha. unfold s1. rewrite delegate_lookup. fold o1. fold s1.
    rewrite <- app_assoc. reflexivity. }
  assert (HL : Forall (fun d => dobj d <> o1) (delegates_for s ty)).
  { eapply Forall_impl; [|exact Hwf]. intros d Hd. simpl in Hd. lia. }
  destruct (unsub_delegate_lookup s2 ty a o1 Ha2) as [E1 [D1 _]].
  assert (Ha3 : aget ty (delegateHandlers (run_unsub s2 (UDelegate a o1))) = Some a) by (rewrite D1; exact Ha2).
  destruct (unsub_delegate_lookup _ ty a o1 Ha3) as [E2 [D2 _]].
  assert (Hne : next_obj s1 <> o1) by lia.
  assert (R1 : delegates_for (run_unsub (run_unsub s2 (UDelegate a o1)) (UDelegate a o1)) ty =
               delegates_for s ty ++ [mkDE (next_obj s1) sel h c]).
  { rewrite E2, E1, L2, !remove_obj_notin by exact HL. cbn [remove_obj dobj].
    rewrite Nat.eqb_refl. cbn [remove_obj dobj]. apply Nat.eqb_neq in Hne. rewrite Hne. reflexivity. }
  split; [exact R1|].
  assert (Ha4 : aget ty (delegateHandlers (run_unsub (run_unsub s2 (UDelegate a o1)) (UDelegate a o1))) = Some a)
    by (rewrite D2, D1; exact Ha2).
  destruct (unsub_delegate_lookup _ ty a (next_obj s1) Ha4) as [E3 _].
  rewrite E3, R1, remove_obj_notin.
  - cbn [remove_obj dobj]. rewrite Nat.eqb_refl, app_nil_r. reflexivity.
  - eapply Forall_impl; [|exact Hwf]. intros d Hd. simpl in Hd. lia.
Qed.

(** ** Delegated dispatch *)




Section DelegatedFacts.
Variable W : Type.
Variable matches : nat -> string -> result bool.
Variable pred : nat -> nat -> estate * W -> (estate * W) * result bool.
Variable call : nat -> nat -> estate * W -> (estate * W) * result unit.


Lemma elementMatches_frame : forall el sel cs,
  (forall f el cs, fst (fst (pred f el cs)) = fst cs) ->
  fst (fst (elementMatches matches pred el sel cs)) = fst cs.
Proof. intros el [q|f|e] cs Hp; cbn [elementMatches]; [reflexivity|apply Hp|reflexivity]. Qed.

Lemma for_each_delegate_throws : forall s a el ks i x w d,
  (forall h el cs, fst (fst (call h el cs)) = fst cs) ->
  (forall f el cs, fst (fst (pred f el cs)) = fst cs) ->
  In i ks -> nth_error (darray s a) i = Some x ->
  (forall cs, exists e, snd (elementMatches matches pred el (dsel x) cs) = Exn e) ->
  exists cs' e, for_each_delegate matches pred call a el ks (s, w) d = (cs', Exn e).
Proof.
  intros s a el ks i x. induction ks as [|k ks IH]; intros w d Hc Hp Hi Hx Ht; [destruct Hi|].
  cbn [for_each_delegate fst].
  assert (Hrest : forall w d, In i ks -> exists cs' e, for_each_delegate matches pred call a el ks (s, w) d = (cs', Exn e))
    by (intros; apply IH; assumption).
  destruct (Nat.eq_dec k i) as [<-|Hne].
  - rewrite Hx. destruct (Ht (s, w)) as [e He].
    destruct (elementMatches matches pred el (dsel x) (s, w)) as [cs1 b]. cbn [snd] in He. subst b.
    exists cs1, e. reflexivity.
  - destruct Hi as [Hi|Hi]; [congruence|].
    destruct (nth_error (darray s a) k) as [y|]; [|apply IH; assumption].
    pose proof (elementMatches_frame el (dsel y) (s, w) Hp) as Hs.
    destruct (elementMatches matches pred el (dsel y) (s, w)) as [[s1 w1] [b|e]]; cbn [fst] in Hs; subst s1;
      [|exists (s, w1), e; reflexivity].
    destruct b; [|apply Hrest; exact Hi].
    pose proof (Hc (dhandler y) el (s, w1)) as Hs.
    destruct (call (dhandler y) el (s, w1)) as [[s2 w2] [u|e]]; cbn [fst] in Hs; subst s2; apply Hrest; exact Hi.
Qed.

(** The relation of two runs that differ only in delegate containers. *)
Definition same_but_containers (cs1 cs2 : estate * W) : Prop :=
  erase_containers (fst cs1) = erase_containers (fst cs2) /\ snd cs1 = snd cs2.

Lemma nget_map_snd : forall {V U} (f : V -> U) k (m : list (nat * V)),
  nget k (map (fun p => (fst p, f (snd p))) m) = option_map f (nget k m).
Proof.
  intros V U f k m. induction m as [|[k' v] m IH]; [reflexivity|].
  cbn [map nget fst snd]. destruct (Nat.eqb k k'); [reflexivity|exact IH].
Qed.

Lemma darray_erase : forall s a, darray (erase_containers s) a = map erase_entry (darray s a).
Proof.
  intros s a. unfold darray, erase_containers. cbn [darrays]. rewrite nget_map_snd.
  destruct (nget a (darrays s)); reflexivity.
Qed.

Lemma erase_darray : forall s1 s2 a, erase_containers s1 = erase_containers s2 ->
  map erase_entry (darray s1 a) = map erase_entry (darray s2 a).
Proof. intros s1 s2 a E. rewrite <- !darray_erase, E. reflexivity. Qed.

Lemma erase_delegateHandlers : forall s1 s2, erase_containers s1 = erase_containers s2 ->
  delegateHandlers s1 = delegateHandlers s2.
Proof. intros s1 s2 E. exact (f_equal delegateHandlers E). Qed.

Hypothesis Hpred : container_blind pred.
Hypothesis Hcall : container_blind call.

Lemma elementMatches_blind : forall el sel cs1 cs2,
  same_but_containers cs1 cs2 ->
  same_but_containers (fst (elementMatches matches pred el sel cs1)) (fst (elementMatches matches pred el sel cs2)) /\
  snd (elementMatches matches pred el sel cs1) = snd (elementMatches matches pred el sel cs2).
Proof.
  intros el sel [s1 w1] [s2 w2] [E Ew]. cbn [fst snd] in E, Ew. subst w2.
  destruct sel as [q|f|e]; cbn [elementMatches fst snd].
  - split; [split; [exact E|reflexivity]|reflexivity].
  - destruct (Hpred f el s1 s2 w1 E) as (E1 & E2 & E3). split; [split; [exact E1|exact E2]|exact E3].
  - split; [split; [exact E|reflexivity]|reflexivity].
Qed.

Lemma for_each_delegate_blind : forall a el ks cs1 cs2 d,
  same_but_containers cs1 cs2 ->
  same_but_containers (fst (for_each_delegate matches pred call a el ks cs1 d))
                      (fst (for_each_delegate matches pred call a el ks cs2 d)) /\
  snd (for_each_delegate matches pred call a el ks cs1 d) = snd (for_each_delegate matches pred call a el ks cs2 d).
Proof.
  intros a el ks. induction ks as [|k ks IH]; intros cs1 cs2 d R; [split; [exact R|reflexivity]|].
  cbn [for_each_delegate].
  pose proof (f_equal (fun l => nth_error l k) (erase_darray _ _ a (proj1 R))) as En. cbv beta in En.
  rewrite !nth_error_map in En.
  destruct (nth_error (darray (fst cs1) a) k) as [x1|], (nth_error (darray (fst cs2) a) k) as [x2|];
    try discriminate En; [|apply IH; exact R].
  unfold erase_entry in En. injection En as _ Hsel Hh.
  rewrite Hsel. destruct (elementMatches_blind el (dsel x2) cs1 cs2 R) as [R1 Eb].
  destruct (elementMatches matches pred el (dsel x2) cs1) as [c1 b1],
           (elementMatches matches pred el (dsel x2) cs2) as [c2 b2].
  cbn [fst snd] in R1, Eb. subst b2.
  destruct b1 as [[|]|e]; [|apply IH; exact R1|split; [exact R1|reflexivity]].
  rewrite Hh. destruct c1 as [s1 w1], c2 as [s2 w2]. destruct R1 as [E Ew]. cbn [fst snd] in E, Ew. subst w2.
  destruct (Hcall (dhandler x2) el s1 s2 w1 E) as (E1 & E2 & E3).
  destruct (call (dhandler x2) el (s1, w1)) as [c1 r1], (call (dhandler x2) el (s2, w1)) as [c2 r2].
  cbn [fst snd] in E1, E2, E3. subst r2.
  destruct r1; apply IH; split; assumption.
Qed.

Lemma walk_delegated_blind : forall a chain cs1 cs2 d,
  same_but_containers cs1 cs2 ->
  same_but_containers (fst (walk_delegated matches pred call a chain cs1 d))
                      (fst (walk_delegated matches pred call a chain cs2 d)) /\
  snd (walk_delegated matches pred call a chain cs1 d) = snd (walk_delegated matches pred call a chain cs2 d).
Proof.
  intros a chain. induction chain as [|el up IH]; intros cs1 cs2 d R; [split; [exact R|reflexivity]|].
  cbn [walk_delegated].
  assert (Hl : List.length (darray (fst cs1) a) = List.length (darray (fst cs2) a)).
  { rewrite <- (length_map erase_entry (darray (fst cs1) a)), <- (length_map erase_entry (darray (fst cs2) a)).
    rewrite (erase_darray _ _ a (proj1 R)). reflexivity. }
  rewrite Hl.
  destruct (for_each_delegate_blind a el (seq 0 (List.length (darray (fst cs2) a))) cs1 cs2 d R) as [R1 Er].
  destruct (for_each_delegate matches pred call a el (seq 0 (List.length (darray (fst cs2) a))) cs1 d) as [c1 r1],
           (for_each_delegate matches pred call a el (seq 0 (List.length (darray (fst cs2) a))) cs2 d) as [c2 r2].
  cbn [fst snd] in R1, Er. subst r2.
  destruct r1 as [d1|e]; [apply IH; exact R1|split; [exact R1|reflexivity]].
Qed.

Lemma handleDelegatedEvents_blind : forall ty chain cs1 cs2 d,
  same_but_containers cs1 cs2 ->
  same_but_containers (fst (handleDelegatedEvents matches pred call ty chain cs1 d))
                      (fst (handleDelegatedEvents matches pred call ty chain cs2 d)) /\
  snd (handleDelegatedEvents matches pred call ty chain cs1 d) = snd (handleDelegatedEvents matches pred call ty chain cs2 d).
Proof.
  intros ty chain cs1 cs2 d R. unfold handleDelegatedEvents.
  rewrite (erase_delegateHandlers _ _ (proj1 R)).
  destruct (aget ty (delegateHandlers (fst cs2))); [apply walk_delegated_blind; exact R|split; [exact R|reflexivity]].
Qed.
End DelegatedFacts.

Lemma map_nset : forall {V U} (f : V -> U) k v (m : list (nat * V)),
  map (fun p => (fst p, f (snd p))) (nset k v m) = nset k (f v) (map (fun p => (fst p, f (snd p))) m).
Proof.
  intros V U f k v m. induction m as [|[k' v'] m IH]; [reflexivity|].
  cbn [nset map fst snd]. destruct (Nat.eqb k k'); cbn [map fst snd]; [reflexivity|rewrite IH; reflexivity].
Qed.

Lemma delegate_erase : forall s ty sel h c,
  erase_containers (fst (delegate s ty sel h c)) = erase_containers (fst (delegate s ty sel h 0)).
Proof.
  intros s ty sel h c. unfold delegate.
  destruct (aget ty (delegateHandlers s)); cbn [fst]; unfold erase_containers; cbn [darrays];
    rewrite !map_nset, !map_app; reflexivity.
Qed.


(** The selector test of [handleDelegatedEvents] runs outside its [try]:
    when no selector test or handler changes the event system and the
    test of one delegate of the event type throws at the target, whatever
    the rest of the state, [handleDelegatedEvents] throws. *)
Theorem handleDelegatedEvents_selector_throw_escapes : forall W matches pred call s ty x el up (w : W) d,
  (forall h el cs, fst (fst (call h el cs)) = fst cs) ->
  (forall f el cs, fst (fst (pred f el cs)) = fst cs) ->
  In x (delegates_for s ty) ->
  (forall cs, exists e, snd (elementMatches matches pred el (dsel x) cs) = Exn e) ->
  exists cs' e, handleDelegatedEvents matches pred call ty (el :: up) (s, w) d = (cs', Exn e).
Proof.
  intros W matches pred call s ty x el up w d Hc Hp Hx Ht.
  unfold handleDelegatedEvents, delegates_for in *. cbn [fst].
  destruct (aget ty (delegateHandlers s)) as [a|]; [|destruct Hx].
  apply In_nth_error in Hx as [i Hi].
  assert (Hin : In i (seq 0 (List.length (darray s a)))).
  { apply in_seq. split; [lia|]. cbn [Nat.add]. apply nth_error_Some. congruence. }
  destruct (for_each_delegate_throws W matches pred call s a el _ i x w d Hc Hp Hin Hi Ht) as (cs' & e & E).
  cbn [walk_delegated fst]. rewrite E. exists cs', e. reflexivity.
Qed.

(** The [container] argument of [delegate] is stored but never read: for
    callbacks that cannot see containers, delegating with one container
    or another gives the same delegated dispatch (same calls, same
    errors, same final state up to containers). *)
Theorem delegate_container_ignored : forall W matches pred call s ty sel h c1 c2 ty' chain (w : W) d,
  container_blind pred -> container_blind call ->
  let r1 := handleDelegatedEvents matches pred call ty' chain (fst (delegate s ty sel h c1), w) d in
  let r2 := handleDelegatedEvents matches pred call ty' chain (fst (delegate s ty sel h c2), w) d in
  erase_containers (fst (fst r1)) = erase_containers (fst (fst r2)) /\
  snd (fst r1) = snd (fst r2) /\ snd r1 = snd r2.
Proof.
  intros W matches pred call s ty sel h c1 c2 ty' chain w d Hp Hc. cbv zeta.
  assert (R : same_but_containers W (fst (delegate s ty sel h c1), w) (fst (delegate s ty sel h c2), w)).
  { split; cbn [fst snd]; [rewrite (delegate_erase s ty sel h c1), (delegate_erase s ty sel h c2); reflexivity|reflexivity]. }
  destruct (handleDelegatedEvents_blind W matches pred call Hp Hc ty' chain _ _ d R) as [[E1 E2] E3].
  split; [exact E1|split; [exact E2|exact E3]].
Qed.

(** ** Instances of the facts above *)

Definition s_demo : estate := mkES [(1, [("click", [7])])] [("ping", [3])] [] [] [] [] 0.

Lemma on_registered_handler_noop_witness :
  In 7 (handlers_for (eventHandlers s_demo) 1 "click") /\ fst (on s_demo 1 "click" 7) = s_demo.
Proof.
  assert (H : In 7 (handlers_for (eventHandlers s_demo) 1 "click")) by (left; reflexivity).
  split; [exact H|exact (on_registered_handler_noop s_demo 1 "click" 7 H)].
Defined.

Lemma on_unsubscribe_restores_witness :
  "click" <> "" /\ ~ In 8 (handlers_for (eventHandlers s_demo) 1 "click") /\
  handlers_for (eventHandlers (run_unsub (fst (on s_demo 1 "click" 8)) (snd (on s_demo 1 "click" 8)))) 1 "click" =
  handlers_for (eventHandlers s_demo) 1 "click".
Proof.
  assert (H1 : "click" <> "") by discriminate.
  assert (H2 : ~ In 8 (handlers_for (eventHandlers s_demo) 1 "click")) by (vm_compute; intros [E|[]]; discriminate).
  split; [exact H1|split; [exact H2|exact (on_unsubscribe_restores s_demo 1 "click" 8 H1 H2 1 "click")]].
Defined.

Lemma off_falsy_type_clears_element_witness :
  ty_truthy (Some "") = false /\
  handlers_for (eventHandlers (off s_demo 1 (Some "") (Some 7))) 1 "click" = [].
Proof.
  assert (H : ty_truthy (Some "") = false) by reflexivity.
  split; [exact H|exact (off_falsy_type_clears_element s_demo 1 (Some "") (Some 7) H 1 "click")].
Defined.

Lemma off_type_clears_pair_witness :
  "click" <> "" /\ handlers_for (eventHandlers (off s_demo 1 (Some "click") None)) 1 "click" = [].
Proof.
  assert (H : "click" <> "") by discriminate.
  split; [exact H|exact (off_type_clears_pair s_demo 1 "click" H 1 "click")].
Defined.

Lemma on_off_keep_handlers_nodup_witness :
  hm_nodup (eventHandlers s_demo) /\ hm_nodup (eventHandlers (fst (on s_demo 1 "click" 8))).
Proof.
  assert (H : hm_nodup (eventHandlers s_demo)).
  { intros el ty. unfold handlers_for. cbn [eventHandlers s_demo nget].
    destruct (Nat.eqb el 1); [|constructor]. cbn [aget].
    destruct (String.eqb ty "click"); repeat constructor; intros []. }
  split; [exact H|exact (proj1 (on_off_keep_handlers_nodup s_demo H) 1 "click" 8)].
Defined.

Lemma on_off_keep_no_empty_arrays_witness :
  hm_no_empty (eventHandlers s_demo) /\ hm_no_empty (eventHandlers (off s_demo 1 (Some "click") (Some 7))).
Proof.
  assert (H : hm_no_empty (eventHandlers s_demo)).
  { intros el eh ty hs. cbn [eventHandlers s_demo nget].
    destruct (Nat.eqb el 1); [|discriminate]. intros E; injection E as <-. cbn [aget].
    destruct (String.eqb ty "click"); [|discriminate]. intros E; injection E as <-. discriminate. }
  split; [exact H|exact (proj2 (on_off_keep_no_empty_arrays s_demo H) 1 (Some "click") (Some 7))].
Defined.

Lemma onGlobal_unsubscribe_restores_witness :
  ~ In 4 (global_for s_demo "ping") /\
  global_for (run_unsub (fst (onGlobal s_demo "ping" 4)) (snd (onGlobal s_demo "ping" 4))) "ping" = [3].
Proof.
  assert (H : ~ In 4 (global_for s_demo "ping")) by (vm_compute; intros [E|[]]; discriminate).
  split; [exact H|exact (onGlobal_unsubscribe_restores s_demo "ping" 4 H "ping")].
Defined.

Lemma onGlobal_unsubscribe_moves_registered_witness :
  In 3 (global_for s_demo "ping") /\
  global_for (run_unsub (fst (onGlobal s_demo "ping" 3)) (snd (onGlobal s_demo "ping" 3))) "ping" = [3].
Proof.
  assert (H : In 3 (global_for s_demo "ping")) by (left; reflexivity).
  split; [exact H|exact (onGlobal_unsubscribe_moves_registered s_demo "ping" 3 H)].
Defined.

Lemma subscribe_unsubscribe_restores_witness :
  ~ In 5 (listeners_for es_init "save") /\
  listeners_for (run_unsub (fst (subscribe es_init "save" 5)) (snd (subscribe es_init "save" 5))) "save" = [].
Proof.
  assert (H : ~ In 5 (listeners_for es_init "save")) by (intros []).
  split; [exact H|exact (subscribe_unsubscribe_restores es_init "save" 5 H)].
Defined.

Lemma subscribe_twice_first_unsubscribe_twice_witness :
  ~ In 5 (listeners_for es_init "save") /\
  listeners_for (run_unsub (run_unsub (fst (subscribe (fst (subscribe es_init "save" 5)) "save" 5))
                                      (snd (subscribe es_init "save" 5)))
                           (snd (subscribe es_init "save" 5))) "save" = [].
Proof.
  assert (H : ~ In 5 (listeners_for es_init "save")) by (intros []).
  split; [exact H|exact (subscribe_twice_first_unsubscribe_twice es_init "save" 5 H)].
Defined.

Lemma cleanup_detaches_subscribe_unsubscribe_witness :
  (forall a, aget "save" (customEvents es_init) = Some a -> a < next_obj es_init) /\
  listeners_for (run_unsub (fst (subscribe (cleanup (fst (subscribe es_init "save" 5))) "save" 6))
                           (snd (subscribe es_init "save" 5))) "save" = [6].
Proof.
  assert (H : forall a, aget "save" (customEvents es_init) = Some a -> a < next_obj es_init) by discriminate.
  split; [exact H|exact (cleanup_detaches_subscribe_unsubscribe es_init "save" 5 H "save" 6)].
Defined.

Lemma delegate_unsubscribe_removes_own_entry_witness :
  Forall (fun d => dobj d < next_obj es_init) (delegates_for es_init "click") /\
  delegates_for (run_unsub (run_unsub (fst (delegate (fst (delegate es_init "click" (SelStr "a") 5 0))
                                                    "click" (SelStr "a") 5 0))
                                      (snd (delegate es_init "click" (SelStr "a") 5 0)))
                           (snd (delegate es_init "click" (SelStr "a") 5 0))) "click"
  = [mkDE 2 (SelStr "a") 5 0].
Proof.
  assert (H : Forall (fun d => dobj d < next_obj es_init) (delegates_for es_init "click")) by constructor.
  split; [exact H|exact (proj1 (delegate_unsubscribe_removes_own_entry es_init "click" (SelStr "a") 5 0 H))].
Defined.

Definition s_deleg : estate := fst (delegate es_init "click" (SelStr "a") 5 0).



Definition s_bad : estate := fst (delegate es_init "click" (SelStr "[") 5 0).

Lemma handleDelegatedEvents_selector_throw_escapes_witness :
  (forall (h el : nat) (cs : estate * unit), fst (fst (cs, @Ok unit tt)) = fst cs) /\
  (forall (f el : nat) (cs : estate * unit), fst (fst (cs, Ok false)) = fst cs) /\
  In (mkDE 1 (SelStr "[") 5 0) (delegates_for s_bad "click") /\
  (forall cs : estate * unit, exists e, snd (elementMatches (fun _ _ => Exn 42) (fun _ _ cs => (cs, Ok false)) 1
                                           (dsel (mkDE 1 (SelStr "[") 5 0)) cs) = Exn e) /\
  exists cs' e, handleDelegatedEvents (fun _ _ => Exn 42) (fun _ _ cs => (cs, Ok false)) (fun _ _ cs => (cs, Ok tt))
                  "click" [1; 0] (s_bad, tt) (mkD [] []) = (cs', Exn e).
Proof.
  assert (H1 : forall (h el : nat) (cs : estate * unit), fst (fst (cs, @Ok unit tt)) = fst cs) by reflexivity.
  assert (H2 : forall (f el : nat) (cs : estate * unit), fst (fst (cs, Ok false)) = fst cs) by reflexivity.
  assert (H3 : In (mkDE 1 (SelStr "[") 5 0) (delegates_for s_bad "click")) by (vm_compute; left; reflexivity).
  assert (H4 : forall cs : estate * unit, exists e, snd (elementMatches (fun _ _ => Exn 42) (fun _ _ cs => (cs, Ok false)) 1
                                           (dsel (mkDE 1 (SelStr "[") 5 0)) cs) = Exn e)
    by (intros cs; exists 42; reflexivity).
  split; [exact H1|split; [exact H2|split; [exact H3|split; [exact H4|]]]].
  exact (handleDelegatedEvents_selector_throw_escapes unit _ (fun _ _ cs => (cs, Ok false)) (fun _ _ cs => (cs, Ok tt))
           s_bad "click" _ 1 [0] tt (mkD [] []) (fun h el cs => H1 h el cs) (fun f el cs => H2 f el cs) H3 H4).
Defined.

Lemma delegate_container_ignored_witness :
  container_blind (fun (_ _ : nat) (cs : estate * nat) => (cs, Ok true)) /\
  container_blind (fun (h _ : nat) (cs : estate * nat) => ((fst cs, snd cs + h), @Ok unit tt)) /\
  (let r1 := handleDelegatedEvents (fun _ _ => Ok true) (fun _ _ cs => (cs, Ok true))
               (fun h _ cs => ((fst cs, snd cs + h), Ok tt)) "click" [1; 2]
               (fst (delegate s_deleg "click" (SelFun 9) 6 1), 0) (mkD [] []) in
   let r2 := handleDelegatedEvents (fun _ _ => Ok true) (fun _ _ cs => (cs, Ok true))
               (fun h _ cs => ((fst cs, snd cs + h), Ok tt)) "click" [1; 2]
               (fst (delegate s_deleg "click" (SelFun 9) 6 2), 0) (mkD [] []) in
   erase_containers (fst (fst r1)) = erase_containers (fst (fst r2)) /\
   snd (fst r1) = snd (fst r2) /\ snd r1 = snd r2).
Proof.
  assert (Hp : container_blind (fun (_ _ : nat) (cs : estate * nat) => (cs, Ok true))).
  { intros a b s1 s2 w E. cbn [fst snd]. split; [exact E|split; reflexivity]. }
  assert (Hc : container_blind (fun (h _ : nat) (cs : estate * nat) => ((fst cs, snd cs + h), @Ok unit tt))).
  { intros a b s1 s2 w E. cbn [fst snd]. split; [exact E|split; reflexivity]. }
  split; [exact Hp|split; [exact Hc|]].
  exact (delegate_container_ignored nat (fun _ _ => Ok true) _ _ s_deleg "click" (SelFun 9) 6 1 2 "click" [1; 2] 0
           (mkD [] []) Hp Hc).
Defined.

End ESFacts.


Module VDomMore.
Import VDom VDomPreds VDomFacts VDomIdem.

Lemma nget_ndel' : forall {V} k k' (m : list (nat * V)),
  nget k (ndel k' m) = if Nat.eqb k k' then None else nget k m.
Proof.
  intros V k k' m. induction m as [|[k0 v0] m IH]; simpl.
  - destruct (Nat.eqb k k'); reflexivity.
  - destruct (Nat.eqb k' k0) eqn:E0; simpl.
    + apply Nat.eqb_eq in E0. subst k0. rewrite IH.
      destruct (Nat.eqb k k'); reflexivity.
    + rewrite IH. destruct (Nat.eqb k k0) eqn:E1; [|reflexivity].
      apply Nat.eqb_eq in E1. subst k0.
      destruct (Nat.eqb k k') eqn:E2; [|reflexivity].
      apply Nat.eqb_eq in E2. subst. rewrite Nat.eqb_refl in E0. discriminate.
Qed.

Lemma clears_refl : forall st, clears st st [].
Proof. intros st. split; [reflexivity|]. intros id. cbn [existsb]. rewrite andb_false_r. auto. Qed.

Lemma clears_trans : forall st st1 st2 a b, clears st st1 a -> clears st1 st2 b -> clears st st2 (a ++ b).
Proof.
  intros st st1 st2 a b [E1 H1] [E2 H2]. split; [congruence|].
  intros id. destruct (H1 id) as (A1 & B1 & C1). destruct (H2 id) as (A2 & B2 & C2).
  rewrite existsb_app. rewrite E1 in A2.
  repeat split.
  - intros ty. rewrite A2, A1. destruct (has_es st), (existsb (Nat.eqb id) a), (existsb (Nat.eqb id) b); reflexivity.
  - rewrite B2, B1. destruct (existsb (Nat.eqb id) a), (existsb (Nat.eqb id) b); reflexivity.
  - rewrite C2, C1. destruct (existsb (Nat.eqb id) a), (existsb (Nat.eqb id) b); reflexivity.
Qed.

Lemma clears_one_step : forall d st0,
  let st1 := note (TCleanup (dom_id d)) st0 in
  let st2 := match nget (dom_id d) (hooks st1) with
             | Some (_, u) => if truthy u && is_function u then note (TUnmount (dom_id d) (fun_id u)) st1 else st1
             | None => st1 end in
  let st3 := set_hooks (ndel (dom_id d) (hooks st2)) st2 in
  let st4 := if has_es st3 then emit (MUnlistenAll (dom_id d)) (set_handlers (es_off_all (handlers st3) (dom_id d)) st3) else st3 in
  let st5 := set_tracked (ndel (dom_id d) (tracked st4)) st4 in
  clears st0 st5 [dom_id d].
Proof.
  intros d st0. cbv zeta.
  assert (Hn : forall st, clears st (set_tracked (ndel (dom_id d) (tracked
              (if has_es (set_hooks (ndel (dom_id d) (hooks st)) st)
               then emit (MUnlistenAll (dom_id d))
                      (set_handlers (es_off_all (handlers (set_hooks (ndel (dom_id d) (hooks st)) st)) (dom_id d))
                                    (set_hooks (ndel (dom_id d) (hooks st)) st))
               else set_hooks (ndel (dom_id d) (hooks st)) st)))
              (if has_es (set_hooks (ndel (dom_id d) (hooks st)) st)
               then emit (MUnlistenAll (dom_id d))
                      (set_handlers (es_off_all (handlers (set_hooks (ndel (dom_id d) (hooks st)) st)) (dom_id d))
                                    (set_hooks (ndel (dom_id d) (hooks st)) st))
               else set_hooks (ndel (dom_id d) (hooks st)) st)) [dom_id d]).
  { intros st. destruct (has_es st) eqn:Hes; cbn [has_es set_hooks set_tracked emit set_handlers];
      rewrite Hes; cbn [has_es set_hooks set_tracked emit set_handlers handlers hooks tracked];
      (split; [reflexivity|]); intros id; cbn [existsb]; rewrite orb_false_r;
      unfold set_tracked, set_hooks, set_handlers, emit; cbn [handlers hooks tracked has_es];
      rewrite !nget_ndel'; (split; [intros ty|split; reflexivity]).
    - unfold handlers_for, es_off_all. rewrite nget_ndel', Hes. cbn [andb].
      destruct (Nat.eqb id (dom_id d)); reflexivity.
    - rewrite Hes. cbn [andb]. reflexivity. }
  destruct (nget (dom_id d) (hooks (note (TCleanup (dom_id d)) st0))) as [[m u]|];
    [destruct (truthy u && is_function u)|]; exact (Hn _).
Qed.

(** [cleanupElement] removes the registrations of exactly the element and
    its element descendants. *)
Lemma cleanupElement_clears : forall d st, clears st (cleanupElement st d) (cleanup_order d).
Proof.
  fix IH 1. intros d st.
  destruct d as [id s | id tag ea kids].
  - cbn [cleanupElement cleanup_order]. exact (clears_one_step (DText id s) st).
  - cbn [cleanupElement]. cbv zeta.
    pose proof (clears_one_step (DElem id tag ea kids) st) as H0. cbv zeta in H0. cbn [dom_id] in H0.
    match goal with |- context [?F ?s5 kids] => is_fix F; set (LOOP := F);
      assert (Hs5 : clears st s5 [id]) by exact H0; generalize dependent s5 end.
    intros s5 Hs5.
    assert (Hloop : forall s, clears s (LOOP s kids)
                      (List.concat (map (fun k => if is_elem k then cleanup_order k else []) kids))).
    { subst LOOP. clear - IH. induction kids as [|k ks IHl]; intros s.
      - apply clears_refl.
      - cbn [List.concat map]. eapply clears_trans; [|apply IHl].
        destruct (is_elem k); [apply IH|apply clears_refl]. }
    cbn [cleanup_order dom_id]. change (id :: ?l) with ([id] ++ l).
    eapply clears_trans; [exact Hs5|apply Hloop].
Qed.

Section Shrink.
Variable ie : string -> string -> bool.

Lemma shrink_beyond : forall rc m i (old : list vnode) pid L st,
  List.length L <= i ->
  snd (fold_left (fun acc j => updateElement_body ie rc (fst acc) pid (snd acc)
                                 (nth_error (@nil vnode) j) (nth_error old j) j)
                 (seq i m) (st, L)) = L.
Proof.
  intros rc m. induction m as [|m IH]; intros i old pid L st HL; [reflexivity|].
  cbn [seq fold_left]. rewrite nth_error_nil. cbn [fst snd updateElement_body].
  rewrite (proj2 (nth_error_None L i) HL). apply IH. lia.
Qed.

Lemma remove_nth_app : forall {A} (K R : list A) (r : A),
  remove_nth (List.length K) (K ++ r :: R) = K ++ R.
Proof. intros A K R r. induction K as [|k K IH]; cbn; [reflexivity|now rewrite IH]. Qed.

Lemma shrink_loop : forall rc m i (old : list vnode) pid K R st,
  List.length K = i -> List.length R <= 2 * m ->
  snd (fold_left (fun acc j => updateElement_body ie rc (fst acc) pid (snd acc)
                                 (nth_error (@nil vnode) j) (nth_error old j) j)
                 (seq i m) (st, K ++ R)) = K ++ odds R.
Proof.
  intros rc m. induction m as [|m IH]; intros i old pid K R st HK HR.
  - destruct R; [|cbn in HR; lia]. reflexivity.
  - cbn [seq fold_left]. rewrite nth_error_nil. cbn [fst snd updateElement_body].
    destruct R as [|r0 [|r1 R']].
    + cbn [odds]. rewrite app_nil_r. rewrite (proj2 (nth_error_None K i) ltac:(lia)).
      apply shrink_beyond. lia.
    + rewrite nth_error_app2 by lia. rewrite HK, Nat.sub_diag. cbn [nth_error].
      rewrite <- HK, remove_nth_app. cbn [odds]. rewrite app_nil_r.
      apply shrink_beyond. lia.
    + rewrite nth_error_app2 by lia. rewrite HK, Nat.sub_diag. cbn [nth_error].
      rewrite <- HK, remove_nth_app. cbn [odds].
      replace (K ++ r1 :: R') with ((K ++ [r1]) ++ R') by (rewrite <- app_assoc; reflexivity).
      rewrite IH; [rewrite <- app_assoc; reflexivity| |].
      * rewrite length_app. cbn. lia.
      * cbn in HR. lia.
Qed.

(** Going from [n] unkeyed children to none, the index-based path removes
    the node at the current index [i] of the already shrunk child list at
    every step, so only the children at even positions (first, third, ...)
    are removed: the DOM keeps every second old child. *)
Theorem reconcileChildren_unkeyed_to_empty_keeps_odd :
  forall fuel st pid (kids : list dom) (old : list vnode),
  existsb has_key old = false -> List.length kids = List.length old ->
  snd (reconcileChildren ie (S fuel) st pid kids [] old) = odds kids.
Proof.
  intros fuel st pid kids old Hk Hl. cbn [reconcileChildren existsb orb]. rewrite Hk.
  unfold reconcileChildrenByIndex. cbn [List.length Nat.max].
  apply (shrink_loop _ _ 0 old pid [] kids st); [reflexivity|lia].
Qed.

End Shrink.

Section Keyed.
Variable ie : string -> string -> bool.

Definition id_tag (d : dom) : nat * option string := (dom_id d, dom_tag d).

Lemma replace_by_id_id_tags : forall i x y l,
  find_by_id i l = Some x -> dom_id y = i -> dom_tag y = dom_tag x ->
  map id_tag (replace_by_id i y l) = map id_tag l.
Proof.
  intros i x y l. induction l as [|d l IH]; simpl; [discriminate|].
  destruct (Nat.eqb (dom_id d) i) eqn:E; intros Hf Hy Ht.
  - injection Hf as Hxd. subst x. apply Nat.eqb_eq in E. cbn [map]. unfold id_tag.
    rewrite Hy, Ht, E. reflexivity.
  - cbn [map]. rewrite (IH Hf Hy Ht). reflexivity.
Qed.

Lemma process_keep_tags : forall rc okm odm chs nids st kids P K,
  Forall2 (fun c nid => exists k oc, vkey c = Some k /\ kget k okm = Some oc /\ kget k odm = Some nid) chs nids ->
  exists st' kids', fold_left (process_new_child ie rc okm odm) chs (st, kids, [], P, K) =
                    (st', kids', [], P ++ nids, K ++ map vkey chs) /\ map id_tag kids' = map id_tag kids.
Proof.
  intros rc okm odm chs nids st kids P K H. revert st kids P K.
  induction H as [|c nid chs nids (k & oc & Hk & Hokm & Hodm) H IH]; intros st kids P K.
  - exists st, kids. rewrite !app_nil_r. split; reflexivity.
  - cbn [fold_left map].
    assert (E : exists st1 kids1, process_new_child ie rc okm odm (st, kids, [], P, K) c =
                  (st1, kids1, [], P ++ [nid], K ++ [vkey c]) /\ map id_tag kids1 = map id_tag kids).
    { unfold process_new_child. cbv beta iota zeta. rewrite Hk, Hokm, Hodm.
      destruct (negb (same_object oc c)); [|exists st, kids; split; reflexivity].
      destruct (find_by_id nid kids) as [[i s|eid etag ea ekids]|] eqn:Ef;
        try (exists st, kids; split; reflexivity).
      destruct (updateProps ie st eid etag ea (vprops c) (vprops oc)) as [st1 ea'].
      destruct (rc st1 eid ekids (vchildren c) (vchildren oc)) as [st2 ekids'].
      exists st2, (replace_by_id nid (DElem eid etag ea' ekids') kids). split; [reflexivity|].
      apply (replace_by_id_id_tags _ _ _ _ Ef); [exact (find_by_id_id _ _ _ Ef)|reflexivity]. }
    destruct E as (st1 & kids1 & E1 & E2). rewrite E1.
    destruct (IH st1 kids1 (P ++ [nid]) (K ++ [vkey c])) as (st' & kids' & F1 & F2).
    exists st', kids'. rewrite F1, <- !app_assoc. split; [reflexivity|congruence].
Qed.

Lemma same_keys_maps : forall ch kids ch',
  keyed_group ch -> Forall2 corresponds ch kids -> map vkey ch' = map vkey ch ->
  Forall2 (fun c nid => exists k oc, vkey c = Some k /\ kget k (map (fun c => (key_of c, c)) ch) = Some oc /\
                                   kget k (combine (map key_of ch) (map dom_id kids)) = Some nid)
          ch' (map dom_id kids).
Proof.
  intros ch kids ch' Hg H Hk. pose proof (keyed_maps ch kids Hg H) as HM.
  set (okm := map (fun c => (key_of c, c)) ch) in *.
  set (odm := combine (map key_of ch) (map dom_id kids)) in *.
  clearbody okm odm. clear Hg H. revert ch' Hk.
  induction HM as [|c x ch kids (_ & k & Hv & Ho & Hd) HM IH]; intros ch' Hk.
  - destruct ch'; [constructor|discriminate].
  - destruct ch' as [|c' ch']; [discriminate|]. injection Hk as Hk1 Hk2.
    constructor; [|exact (IH ch' Hk2)]. exists k, c. rewrite Hk1. auto.
Qed.

(** In the keyed path, when every old key comes back (the new children
    carry the keys of the old ones, in the same order), each live child is
    kept: no node is created, removed, replaced or moved, whatever the new
    children's tags, so a child whose tag changes under the same key keeps
    its old live node and tag. *)
Theorem reconcileChildrenWithKeys_same_keys_keep_nodes : forall rc st pid kids ch ch',
  keyed_group ch -> Forall2 corresponds ch kids -> map vkey ch' = map vkey ch ->
  map id_tag (snd (reconcileChildrenWithKeys ie rc st pid kids ch' ch)) = map id_tag kids.
Proof.
  intros rc st pid kids ch ch' Hg H Hk. unfold reconcileChildrenWithKeys.
  rewrite (build_oldDomMap_keyed ch kids Hg H), (build_oldKeyMap_keyed ch Hg).
  destruct (process_keep_tags rc _ _ ch' (map dom_id kids) st kids [] []
              (same_keys_maps ch kids ch' Hg H Hk)) as (st1 & kids1 & P1 & P2).
  rewrite P1. cbn [app]. rewrite Hk, remove_idem.
  2:{ destruct Hg as [Hg _]. eapply Forall_impl; [|exact Hg]. intros c (o & t & p & cs & _ & Hh & _). exact Hh. }
  assert (Hids : map dom_id kids = map dom_id kids1).
  { change dom_id with (fun d => fst (id_tag d)). rewrite <- !(map_map id_tag fst), P2. reflexivity. }
  rewrite Hids, place_idem; [exact P2|]. intros i d Hi. exact Hi.
Qed.

End Keyed.

(** ** Instances of the facts above *)

Lemma reconcileChildren_unkeyed_to_empty_keeps_odd_witness :
  existsb has_key [VText "a"; VText "b"; VText "c"] = false /\
  List.length [DText 1 "a"; DText 2 "b"; DText 3 "c"] = List.length [VText "a"; VText "b"; VText "c"] /\
  snd (reconcileChildren ie_none 1 (mkSt 4 true [] [] [] [] [] [] []) 0
         [DText 1 "a"; DText 2 "b"; DText 3 "c"] [] [VText "a"; VText "b"; VText "c"]) = [DText 2 "b"].
Proof.
  assert (H1 : existsb has_key [VText "a"; VText "b"; VText "c"] = false) by reflexivity.
  assert (H2 : List.length [DText 1 "a"; DText 2 "b"; DText 3 "c"] = List.length [VText "a"; VText "b"; VText "c"])
    by reflexivity.
  split; [exact H1|split; [exact H2|]].
  exact (reconcileChildren_unkeyed_to_empty_keeps_odd ie_none 0 _ 0 _ _ H1 H2).
Defined.

Lemma reconcileChildrenWithKeys_same_keys_keep_nodes_witness :
  keyed_group [VElem 2 "li" [("key", PNum 1)] []] /\
  Forall2 corresponds [VElem 2 "li" [("key", PNum 1)] []] [DElem 5 "li" empty_ea []] /\
  map vkey [VElem 4 "p" [("key", PNum 1)] []] = map vkey [VElem 2 "li" [("key", PNum 1)] []] /\
  map id_tag (snd (reconcileChildrenWithKeys ie_none (reconcileChildren ie_none 0) (mkSt 6 true [] [] [] [] [] [] []) 1
                     [DElem 5 "li" empty_ea []] [VElem 4 "p" [("key", PNum 1)] []] [VElem 2 "li" [("key", PNum 1)] []]))
  = [(5, Some "li")].
Proof.
  assert (Hg : keyed_group [VElem 2 "li" [("key", PNum 1)] []]).
  { split; [|repeat constructor].
    apply Forall_cons; [do 4 eexists; split; [reflexivity|split; reflexivity]|apply Forall_nil]. }
  assert (Hc : Forall2 corresponds [VElem 2 "li" [("key", PNum 1)] []] [DElem 5 "li" empty_ea []]).
  { repeat constructor. }
  assert (Hk : map vkey [VElem 4 "p" [("key", PNum 1)] []] = map vkey [VElem 2 "li" [("key", PNum 1)] []])
    by reflexivity.
  split; [exact Hg|split; [exact Hc|split; [exact Hk|]]].
  exact (reconcileChildrenWithKeys_same_keys_keep_nodes ie_none _ _ 1 _ _ _ Hg Hc Hk).
Defined.

End VDomMore.
